(** * ManipulatorRobot: safety clamp, feature schema, capture, teleoperation
      and lifecycle of [lerobot/common/robot_devices/robots/manipulator.py]

    The Python module is embedded shallowly:
    - tensors of joint positions are one-dimensional lists of IEEE-754
      binary32 numbers (the [spec_float] model of the Standard Library,
      precision 24, exponent bound 128), with torch's broadcasting rules;
    - dictionaries are [gmap string _] (or association lists where the
      iteration order of the registry matters);
    - exceptions are an explicit [result] type;
    - devices are an oracle: what a device returns or whether it raises is a
      function of the trace of device calls issued so far, and every device
      call is appended to that trace. *)

From Stdlib Require Import ZArith QArith Qabs Lia Bool String Ascii.
From Stdlib Require Import SpecFloat.
From stdpp Require Import base option list strings gmap fin_maps.

Open Scope Z_scope.

(** ** Exceptions and results *)

Inductive exn :=
| RobotDeviceAlreadyConnectedError
| RobotDeviceNotConnectedError
| ValueError
| KeyError (key : string)
| IndexError
| TypeError
| AttributeError
| RuntimeError
| OverflowError
| DeviceError (device : string).

Inductive result (A : Type) :=
| Ok (a : A)
| Raise (e : exn).
Arguments Ok {A} a.
Arguments Raise {A} e.

(** [result] is an error monad; stdpp's [x ← r; k] notation sequences it. *)
#[global] Instance result_ret : MRet result := λ A a, Ok a.
#[global] Instance result_bind : MBind result := λ A B k r,
  match r with
  | Ok a => k a
  | Raise e => Raise e
  end.

(** ** binary32 tensors *)

Module F32.

Definition prec : Z := 24.
Definition emax : Z := 128.

Definition t := spec_float.

Definition add : t → t → t := SFadd prec emax.
Definition sub : t → t → t := SFsub prec emax.
Definition neg : t → t := SFopp.
Definition abs : t → t := SFabs.
Definition ltb : t → t → bool := SFltb.
Definition leb : t → t → bool := SFleb.

Definition zero : t := S754_zero false.

(** The binary32 number nearest to [m * 2^e]. *)
Definition of_Z2 (m e : Z) : t := binary_normalize prec emax m e false.

Definition is_nan (x : t) : bool :=
  match x with S754_nan => true | _ => false end.

Definition valid (x : t) : bool := valid_binary prec emax x.

(** [torch.minimum] and [torch.maximum] on one element: a NaN operand gives
    NaN, otherwise [std::min] / [std::max]. *)
Definition minimum (a b : t) : t :=
  if is_nan a || is_nan b then S754_nan
  else if ltb b a then b else a.

Definition maximum (a b : t) : t :=
  if is_nan a || is_nan b then S754_nan
  else if ltb a b then b else a.

End F32.

Abbreviation f32 := F32.t.

(** binary64 numbers (Python [float], numpy/torch [float64]). *)
Module F64.
Definition prec : Z := 53.
Definition emax : Z := 1024.
Definition t := spec_float.
Definition zero : t := S754_zero false.
Definition of_Z (z : Z) : t := binary_normalize prec emax z 0 false.
(** Exact re-encoding of a binary32 or binary64 number as binary64. *)
Definition of_float (x : spec_float) : t :=
  match x with
  | S754_finite s m e => binary_normalize prec emax (cond_Zopp s (Zpos m)) e s
  | _ => x
  end.
End F64.

(** The rational number a finite float stands for (0 for the others). *)
Definition float_value (x : spec_float) : Q :=
  match x with
  | S754_finite s m e =>
      if 0 <=? e then inject_Z (cond_Zopp s (Zpos m) * 2 ^ e)
      else Qmake (cond_Zopp s (Zpos m)) (Z.to_pos (2 ^ (- e)))
  | _ => 0%Q
  end.

(** Rounding of a Python float to binary32, as [torch.tensor] does under the
    default dtype. *)
Definition f32_of_float (x : F64.t) : f32 :=
  match x with
  | S754_finite s m e => binary_normalize F32.prec F32.emax (cond_Zopp s (Zpos m)) e s
  | _ => x
  end.

(** Element-wise binary operation on two one-dimensional tensors with
    torch's broadcasting: equal sizes, or one of the sizes is 1. *)
Definition broadcast_vv (f : f32 → f32 → f32) (xs ys : list f32)
  : result (list f32) :=
  if (length xs =? length ys)%nat then Ok (zip_with f xs ys)
  else match xs, ys with
       | [x], _ => Ok (map (f x) ys)
       | _, [y] => Ok (map (fun x => f x y) xs)
       | _, _ => Raise RuntimeError
       end.

(** [torch.tensor(max_relative_target)]: a zero-dimensional tensor or a
    one-dimensional one. *)
Inductive relative_target :=
| Scalar (b : f32)
| PerAxis (bs : list f32).

Definition broadcast_vt (f : f32 → f32 → f32) (xs : list f32)
    (b : relative_target) : result (list f32) :=
  match b with
  | Scalar y => Ok (map (fun x => f x y) xs)
  | PerAxis ys => broadcast_vv f xs ys
  end.

Definition neg_target (b : relative_target) : relative_target :=
  match b with
  | Scalar y => Scalar (F32.neg y)
  | PerAxis ys => PerAxis (map F32.neg ys)
  end.

(** The bound that applies to axis [i]. *)
Definition bound_at (b : relative_target) (i : nat) : option f32 :=
  match b with
  | Scalar y => Some y
  | PerAxis ys => ys !! i
  end.

(** [max_relative_target: float | list[float]] as configured. *)
Inductive py_relative_target :=
| PyFloat (b : F64.t)
| PyList (bs : list F64.t).

(** [torch.tensor(max_relative_target)] (line 49). *)
Definition torch_tensor (b : py_relative_target) : relative_target :=
  match b with
  | PyFloat x => Scalar (f32_of_float x)
  | PyList xs => PerAxis (f32_of_float <$> xs)
  end.

(** The clamped deltas [safe_diff] of lines 50-51 when no broadcasting takes
    place. *)
Definition safe_diffs (diff : list f32) (b : relative_target) : list f32 :=
  match b with
  | Scalar y => (λ x, F32.maximum x (F32.neg y)) <$> ((λ x, F32.minimum x y) <$> diff)
  | PerAxis ys => zip_with F32.maximum (zip_with F32.minimum diff ys) (F32.neg <$> ys)
  end.

(** [ensure_safe_goal_position] (lines 44-61).  The warning of lines 54-59 is
    advisory logging and does not change the returned tensor. *)
Definition ensure_safe_goal_position (goal_pos present_pos : list f32)
    (max_relative_target : py_relative_target) : result (list f32) :=
  diff ← broadcast_vv F32.sub goal_pos present_pos;
  let max_relative_target := torch_tensor max_relative_target in
  safe_diff ← broadcast_vt F32.minimum diff max_relative_target;
  safe_diff ← broadcast_vt F32.maximum safe_diff (neg_target max_relative_target);
  let safe_goal_pos := broadcast_vv F32.add present_pos safe_diff in
  safe_goal_pos.

(** ** Python values held by payloads and observations *)

Inductive dtype := uint8 | int64 | float32 | float64.

Inductive num :=
| NInt (z : Z)
| NFloat (x : spec_float).

(** A numpy array or torch tensor: element type, shape, and the elements in
    row-major order. *)
Record ndarray := mk_ndarray {
  nd_dtype : dtype;
  nd_shape : list nat;
  nd_data : list num
}.

Definition nd_size (a : ndarray) : nat := foldr Nat.mul 1%nat (nd_shape a).

Definition zero_of (d : dtype) : num :=
  match d with
  | uint8 | int64 => NInt 0
  | float32 | float64 => NFloat (S754_zero false)
  end.

(** [torch.zeros(shape, dtype=d)] *)
Definition torch_zeros (shape : list nat) (d : dtype) : ndarray :=
  mk_ndarray d shape (replicate (foldr Nat.mul 1%nat shape) (zero_of d)).

Inductive pyval :=
| PNone
| PBool (b : bool)
| PInt (z : Z)
| PFloat (x : F64.t)
| PStr (s : string)
| PArray (a : ndarray)      (* numpy.ndarray *)
| PTensor (a : ndarray).    (* torch.Tensor *)

(** A one-dimensional float32 tensor of joint positions as a dictionary
    value. *)
Definition tensor_of_positions (l : list f32) : pyval :=
  PTensor (mk_ndarray float32 [length l] (NFloat <$> l)).

(** [torch.cat] of one-dimensional tensors: an empty list of tensors is an
    error. *)
Definition torch_cat (ts : list (list f32)) : result (list f32) :=
  match ts with
  | [] => Raise RuntimeError
  | _ => Ok (concat ts)
  end.

(** ** Configuration and device registry *)

(** [MotorsBus.motors]: motor name to (index, model), in declaration order. *)
Record MotorsBus := {
  motors : list (string * (Z * string))
}.

Definition motor_names (arm : MotorsBus) : list string := (motors arm).*1.

Record Camera := {
  height : nat;
  width : nat;
  channels : nat
}.

(** The attributes of [sensor.config] that the robot looks at; [None] stands
    for an attribute the configuration object does not have. *)
Record TactileSensorConfig := {
  type : option string;
  imgh : option nat;
  imgw : option nat
}.

Record TactileSensor := {
  config : TactileSensorConfig;
  has_has_critical_error : bool;   (* hasattr(sensor, 'has_critical_error') *)
  has_get_error_status : bool      (* hasattr(sensor, 'get_error_status') *)
}.

Record ManipulatorRobotConfig := {
  robot_type : string;
  leader_arms : list (string * MotorsBus);
  follower_arms : list (string * MotorsBus);
  cameras : list (string * Camera);
  tactile_sensors : list (string * TactileSensor);
  max_relative_target : option py_relative_target;
  gripper_open_degree : option F64.t
}.

(** ** Feature schema (lines 217-352) *)

Record feature := mk_feature {
  ft_dtype : string;
  ft_shape : list nat;
  ft_names : option (list string)
}.

Definition get_motor_names (arms : list (string * MotorsBus)) : list string :=
  foldl (λ motor_names '(arm_name, arm), motor_names ++ (motors arm).*1) [] arms.

Definition camera_features (cfg : ManipulatorRobotConfig) : gmap string feature :=
  foldl (λ features '(name, camera),
           <["observation.images." +:+ name :=
               mk_feature "video" [height camera; width camera; channels camera]
                          (Some ["height"; "width"; "channels"])]> features)
        ∅ (cameras cfg).

(** [sensor.config.type if hasattr(sensor.config, 'type') else 'unknown'] *)
Definition sensor_type_of (sensor : TactileSensor) : string :=
  default "unknown" (type (config sensor)).

Definition tactile_key (sensor_type name field : string) : string :=
  "observation.tactile." +:+ sensor_type +:+ "." +:+ name +:+ "." +:+ field.

(** The entries one loop iteration of [tactile_features] assigns, in order. *)
Definition sensor_features (name : string) (sensor : TactileSensor)
  : list (string * feature) :=
  let sensor_type := sensor_type_of sensor in
  let key := tactile_key sensor_type name in
  [ (key "sensor_sn", mk_feature "string" [1%nat] None);
    (key "frame_index", mk_feature "int64" [1%nat] None);
    (key "send_timestamp", mk_feature "float64" [1%nat] None);
    (key "recv_timestamp", mk_feature "float64" [1%nat] None) ]
  ++
  if decide (sensor_type = "tac3d") then
    [ (key "positions_3d",
       mk_feature "float64" [400; 3]%nat (Some ["marker_id"; "coordinate"]));
      (key "displacements_3d",
       mk_feature "float64" [400; 3]%nat (Some ["marker_id"; "coordinate"]));
      (key "forces_3d",
       mk_feature "float64" [400; 3]%nat (Some ["marker_id"; "coordinate"]));
      (key "resultant_force", mk_feature "float64" [3%nat] (Some ["x"; "y"; "z"]));
      (key "resultant_moment", mk_feature "float64" [3%nat] (Some ["x"; "y"; "z"])) ]
  else if decide (sensor_type = "gelsight") then
    let imgh := default 240%nat (imgh (config sensor)) in
    let imgw := default 320%nat (imgw (config sensor)) in
    [ (key "tactile_image",
       mk_feature "uint8" [imgh; imgw; 3%nat] (Some ["height"; "width"; "channel"])) ]
  else if decide (sensor_type = "digit") then
    [ (key "tactile_image",
       mk_feature "uint8" [240; 320; 3]%nat (Some ["height"; "width"; "channel"])) ]
  else
    [ (key "resultant_force", mk_feature "float64" [3%nat] (Some ["x"; "y"; "z"]));
      (key "resultant_moment", mk_feature "float64" [3%nat] (Some ["x"; "y"; "z"])) ].

(** Assignments [d[k] = v] executed in order on a dictionary. *)
Definition assign_all {V} (kvs : list (string * V)) (d : gmap string V)
  : gmap string V :=
  foldl (λ d '(k, v), <[k := v]> d) d kvs.

Definition tactile_features (cfg : ManipulatorRobotConfig) : gmap string feature :=
  foldl (λ tactile_ft '(name, sensor), assign_all (sensor_features name sensor) tactile_ft)
        ∅ (tactile_sensors cfg).

Definition motor_features (cfg : ManipulatorRobotConfig) : gmap string feature :=
  let action_names := get_motor_names (leader_arms cfg) in
  let state_names := get_motor_names (leader_arms cfg) in
  <["observation.state" :=
      mk_feature "float32" [length state_names] (Some state_names)]>
  (<["action" :=
      mk_feature "float32" [length action_names] (Some action_names)]> ∅).

(** [{**self.motor_features, **self.camera_features, **self.tactile_features}]:
    later dictionaries win. *)
Definition features (cfg : ManipulatorRobotConfig) : gmap string feature :=
  tactile_features cfg ∪ (camera_features cfg ∪ motor_features cfg).

(** ** Tactile payload normalisation (lines 587-773) *)

(** What [tactile_data_raw[name]] holds after stage 1: [None] (the read
    raised, or the sensor returned [None]) or the payload dictionary. *)
Inductive raw_data :=
| RawNone
| RawDict (data : gmap string pyval).

(** [if data:] *)
Definition truthy (data : raw_data) : option (gmap string pyval) :=
  match data with
  | RawNone => None
  | RawDict d => if decide (d = ∅) then None else Some d
  end.

(** [data.get(k, dflt)] *)
Definition dict_get (data : gmap string pyval) (k : string) (dflt : pyval) : pyval :=
  default dflt (data !! k).

(** [k in data and data[k] is not None] *)
Definition present (data : gmap string pyval) (k : string) : option pyval :=
  match data !! k with
  | Some PNone | None => None
  | Some v => Some v
  end.

(** [d[k]] *)
Definition getitem {V} (d : gmap string V) (k : string) : result V :=
  match d !! k with
  | Some v => Ok v
  | None => Raise (KeyError k)
  end.

(** Truncation of a float towards zero, as the conversion to [int64] does. *)
Definition float_trunc (x : spec_float) : result Z :=
  match x with
  | S754_zero _ => Ok 0
  | S754_finite s m e =>
      Ok (cond_Zopp s (if 0 <=? e then Zpos m * 2 ^ e else Zpos m / 2 ^ (- e)))
  | S754_infinity _ => Raise OverflowError
  | S754_nan => Raise ValueError
  end.

Definition in_int64 (z : Z) : result Z :=
  if (- 2 ^ 63 <=? z) && (z <? 2 ^ 63) then Ok z else Raise RuntimeError.

(** [for x in l] collecting [f x], up to the first that raises. *)
Fixpoint map_result {A B} (f : A → result B) (l : list A) : result (list B) :=
  match l with
  | [] => Ok []
  | x :: l => y ← f x; ys ← map_result f l; Ok (y :: ys)
  end.

(** The conversion of one element to [int64]. *)
Definition num_to_int64 (n : num) : result Z :=
  match n with
  | NInt z => in_int64 z
  | NFloat x => z ← float_trunc x; in_int64 z
  end.

(** [torch.tensor([v], dtype=torch.int64)].  A Python number gives a tensor
    of shape [(1,)]; an array or a tensor of shape [s] is a sequence of its
    elements and gives a tensor of shape [(1, *s)], every element converted;
    [None] and strings are rejected. *)
Definition torch_tensor_int64 (v : pyval) : result pyval :=
  match v with
  | PInt z => z ← in_int64 z; Ok (PTensor (mk_ndarray int64 [1%nat] [NInt z]))
  | PBool b => Ok (PTensor (mk_ndarray int64 [1%nat] [NInt (if b then 1 else 0)]))
  | PFloat x =>
      z ← float_trunc x; z ← in_int64 z;
      Ok (PTensor (mk_ndarray int64 [1%nat] [NInt z]))
  | PArray a | PTensor a =>
      zs ← map_result num_to_int64 (nd_data a);
      Ok (PTensor (mk_ndarray int64 (1%nat :: nd_shape a) (NInt <$> zs)))
  | PNone | PStr _ => Raise TypeError
  end.

Definition num_to_float64 (n : num) : num :=
  match n with
  | NInt z => NFloat (F64.of_Z z)
  | NFloat x => NFloat (F64.of_float x)
  end.

(** [torch.tensor([v], dtype=torch.float64)], with the shapes of
    [torch_tensor_int64]. *)
Definition torch_tensor_float64 (v : pyval) : result pyval :=
  match v with
  | PFloat x => Ok (PTensor (mk_ndarray float64 [1%nat] [NFloat x]))
  | PInt z => Ok (PTensor (mk_ndarray float64 [1%nat] [NFloat (F64.of_Z z)]))
  | PBool b =>
      Ok (PTensor (mk_ndarray float64 [1%nat] [NFloat (F64.of_Z (if b then 1 else 0))]))
  | PArray a | PTensor a =>
      Ok (PTensor (mk_ndarray float64 (1%nat :: nd_shape a) (num_to_float64 <$> nd_data a)))
  | PNone | PStr _ => Raise TypeError
  end.

(** [torch.from_numpy(v)] *)
Definition torch_from_numpy (v : pyval) : result pyval :=
  match v with
  | PArray a => Ok (PTensor a)
  | _ => Raise TypeError
  end.

(** [torch.from_numpy(v.astype(np.float64))] *)
Definition from_numpy_astype_float64 (v : pyval) : result pyval :=
  match v with
  | PArray a => Ok (PTensor (mk_ndarray float64 (nd_shape a) (num_to_float64 <$> nd_data a)))
  | _ => Raise AttributeError
  end.

Definition zeros3 : pyval := PTensor (torch_zeros [3%nat] float64).

(** [torch.tensor([a, b, c], dtype=torch.float64)] of three array elements *)
Definition tensor3 (a : ndarray) (i j k : nat) : result pyval :=
  match nd_data a !! i, nd_data a !! j, nd_data a !! k with
  | Some x, Some y, Some z =>
      Ok (PTensor (mk_ndarray float64 [3%nat] (num_to_float64 <$> [x; y; z])))
  | _, _, _ => Raise IndexError
  end.

(** Lines 697-714 (and 716-735): the resultant force or moment of a Tac3D
    payload. *)
Definition resultant (data : gmap string pyval) (k : string) : result pyval :=
  match present data k with
  | Some (PArray force) =>
      if (3 <=? nd_size force)%nat then
        match nd_shape force with
        | [_] => tensor3 force 0 1 2
        | [rows; cols] =>
            if (1 <=? rows)%nat then
              if (3 <=? cols)%nat then tensor3 force 0 1 2 else Raise IndexError
            else Ok zeros3
        | _ => Ok zeros3
        end
      else Ok zeros3
  | _ => Ok zeros3
  end.

Definition zero_image (h w : nat) : pyval := PTensor (torch_zeros [h; w; 3%nat] uint8).

(** Lines 631-667: the image of a DIGIT payload. *)
Definition digit_image (data : gmap string pyval) : result pyval :=
  match present data "tactile_image" with
  | Some (PArray image) =>
      match nd_shape image with
      | [_; _; 3%nat] => torch_from_numpy (PArray image)
      | [len] =>
          if (len =? 240 * 320 * 3)%nat then
            Ok (PTensor (mk_ndarray (nd_dtype image) [240; 320; 3]%nat (nd_data image)))
          else Ok (zero_image 240 320)
      | _ => Ok (zero_image 240 320)
      end
  | Some _ => Ok (zero_image 240 320)
  | None =>
      match present data "image" with
      | Some (PArray image) =>
          match nd_shape image with
          | [_; _; 3%nat] => torch_from_numpy (PArray image)
          | _ => Ok (zero_image 240 320)
          end
      | Some _ => Ok (zero_image 240 320)
      | None => Ok (zero_image 240 320)
      end
  end.

(** Lines 739-745: the image of a GelSight payload; nothing is assigned when
    the payload has neither field. *)
Definition gelsight_image (name : string) (data : gmap string pyval)
  : result (list (string * pyval)) :=
  match present data "tactile_image" with
  | Some image => t ← torch_from_numpy image; Ok [(name +:+ "_tactile_image", t)]
  | None =>
      match present data "image" with
      | Some image => t ← torch_from_numpy image; Ok [(name +:+ "_tactile_image", t)]
      | None => Ok []
      end
  end.

Definition array_or_zeros (data : gmap string pyval) (k : string) : result pyval :=
  match present data k with
  | Some positions => from_numpy_astype_float64 positions
  | None => Ok (PTensor (torch_zeros [400; 3]%nat float64))
  end.

(** The assignments to [tactile_data] made for one sensor by stage 2, in
    order.  [now] is what [time.time()] returns in this iteration of the
    loop. *)
Definition process_sensor (name : string) (sensor : TactileSensor)
    (data : raw_data) (now : F64.t) : result (list (string * pyval)) :=
  let sensor_type := default "unknown" (type (config sensor)) in
  match truthy data with
  | Some data =>
      meta ←
        (if decide (sensor_type = "tac3d") then
           index ← torch_tensor_int64 (dict_get data "index" (PInt 0));
           send ← torch_tensor_float64
                    (match data !! "sendTimestamp" with
                     | Some v => v
                     | None => dict_get data "recvTimestamp" (PFloat F64.zero)
                     end);
           recv ← torch_tensor_float64 (dict_get data "recvTimestamp" (PFloat F64.zero));
           Ok [ (name +:+ "_sensor_sn", dict_get data "SN" (PStr EmptyString));
                (name +:+ "_frame_index", index);
                (name +:+ "_send_timestamp", send);
                (name +:+ "_recv_timestamp", recv) ]
         else if decide (sensor_type = "gelsight") then
           index ← torch_tensor_int64 (dict_get data "frame_index" (PInt 0));
           let gelsight_timestamp := dict_get data "timestamp" (PFloat now) in
           send ← torch_tensor_float64 gelsight_timestamp;
           recv ← torch_tensor_float64 gelsight_timestamp;
           Ok [ (name +:+ "_sensor_sn", dict_get data "device_name" (PStr EmptyString));
                (name +:+ "_frame_index", index);
                (name +:+ "_send_timestamp", send);
                (name +:+ "_recv_timestamp", recv) ]
         else if decide (sensor_type = "digit") then
           index ← torch_tensor_int64 (dict_get data "frame_index" (PInt 0));
           let timestamp := dict_get data "timestamp" (PFloat now) in
           send ← torch_tensor_float64 timestamp;
           recv ← torch_tensor_float64 timestamp;
           image ← digit_image data;
           Ok [ (name +:+ "_sensor_sn", dict_get data "device_name" (PStr EmptyString));
                (name +:+ "_frame_index", index);
                (name +:+ "_send_timestamp", send);
                (name +:+ "_recv_timestamp", recv);
                (name +:+ "_tactile_image", image) ]
         else
           Ok [ (name +:+ "_resultant_force", zeros3);
                (name +:+ "_resultant_moment", zeros3) ]);
      arrays ←
        (if decide (sensor_type = "tac3d") then
           positions ← array_or_zeros data "3D_Positions";
           displacements ← array_or_zeros data "3D_Displacements";
           forces_3d ← array_or_zeros data "3D_Forces";
           force ← resultant data "resultant_force";
           moment ← resultant data "resultant_moment";
           Ok [ (name +:+ "_positions_3d", positions);
                (name +:+ "_displacements_3d", displacements);
                (name +:+ "_forces_3d", forces_3d);
                (name +:+ "_resultant_force", force);
                (name +:+ "_resultant_moment", moment) ]
         else if decide (sensor_type = "gelsight") then
           gelsight_image name data
         else
           Ok [ (name +:+ "_resultant_force", zeros3);
                (name +:+ "_resultant_moment", zeros3) ]);
      Ok (meta ++ arrays)
  | None =>
      Ok ([ (name +:+ "_sensor_sn", PStr EmptyString);
            (name +:+ "_frame_index", PTensor (mk_ndarray int64 [1%nat] [NInt 0]));
            (name +:+ "_send_timestamp",
             PTensor (mk_ndarray float64 [1%nat] [NFloat F64.zero]));
            (name +:+ "_recv_timestamp",
             PTensor (mk_ndarray float64 [1%nat] [NFloat F64.zero])) ]
          ++
          if decide (sensor_type = "tac3d") then
            [ (name +:+ "_positions_3d", PTensor (torch_zeros [400; 3]%nat float64));
              (name +:+ "_displacements_3d", PTensor (torch_zeros [400; 3]%nat float64));
              (name +:+ "_forces_3d", PTensor (torch_zeros [400; 3]%nat float64));
              (name +:+ "_resultant_force", zeros3);
              (name +:+ "_resultant_moment", zeros3) ]
          else if decide (sensor_type = "gelsight") then
            let imgh := default 240%nat (imgh (config sensor)) in
            let imgw := default 320%nat (imgw (config sensor)) in
            [ (name +:+ "_tactile_image", zero_image imgh imgw) ]
          else if decide (sensor_type = "digit") then
            [ (name +:+ "_tactile_image", zero_image 240 320) ]
          else
            [ (name +:+ "_resultant_force", zeros3);
              (name +:+ "_resultant_moment", zeros3) ])
  end.

(** A loop over [l] that updates local variables [s] and may raise. *)
Fixpoint fold_result {A S} (l : list A) (s : S) (body : S → A → result S)
  : result S :=
  match l with
  | [] => Ok s
  | x :: l => s ← body s x; fold_result l s body
  end.

(** The same for a body that looks at the number [i] of the iteration. *)
Fixpoint fold_result_at {A St} (i : nat) (l : list A) (s : St)
    (body : St → nat → A → result St) : result St :=
  match l with
  | [] => Ok s
  | x :: l => s ← body s i x; fold_result_at (S i) l s body
  end.

(** Iteration [i] of stage 2 (lines 589-773); [clock i] is what
    [time.time()] returns when the iteration evaluates it (lines 613 and
    626). *)
Definition stage2_body (sensors : list (string * TactileSensor)) (clock : nat → F64.t)
  : gmap string pyval → nat → string * raw_data → result (gmap string pyval) :=
  λ tactile_data i '(name, data),
    sensor ← getitem (list_to_map sensors : gmap string TactileSensor) name;
    kvs ← process_sensor name sensor data (clock i);
    Ok (assign_all kvs tactile_data).

(** Stage 2 (lines 588-773): [tactile_data] from [tactile_data_raw], whose
    items come in completion order. *)
Definition process_raw (sensors : list (string * TactileSensor))
    (tactile_data_raw : list (string * raw_data)) (clock : nat → F64.t)
  : result (gmap string pyval) :=
  fold_result_at 0 tactile_data_raw ∅ (stage2_body sensors clock).

(** The entries one iteration of stage 3 (lines 777-832) assigns. *)
Definition collect_sensor (name : string) (sensor : TactileSensor)
    (tactile_data : gmap string pyval) : result (list (string * pyval)) :=
  let sensor_type := default "unknown" (type (config sensor)) in
  let key := tactile_key sensor_type name in
  sn ← getitem tactile_data (name +:+ "_sensor_sn");
  index ← getitem tactile_data (name +:+ "_frame_index");
  send ← getitem tactile_data (name +:+ "_send_timestamp");
  recv ← getitem tactile_data (name +:+ "_recv_timestamp");
  specific ←
    (if decide (sensor_type = "tac3d") then
       positions ← getitem tactile_data (name +:+ "_positions_3d");
       displacements ← getitem tactile_data (name +:+ "_displacements_3d");
       forces_3d ← getitem tactile_data (name +:+ "_forces_3d");
       force ← getitem tactile_data (name +:+ "_resultant_force");
       moment ← getitem tactile_data (name +:+ "_resultant_moment");
       Ok [ (key "positions_3d", positions);
            (key "displacements_3d", displacements);
            (key "forces_3d", forces_3d);
            (key "resultant_force", force);
            (key "resultant_moment", moment) ]
     else if decide (sensor_type = "gelsight") then
       image ← getitem tactile_data (name +:+ "_tactile_image");
       Ok [ (key "tactile_image", image) ]
     else if decide (sensor_type = "digit") then
       Ok (match tactile_data !! (name +:+ "_tactile_image") with
           | Some image => [ (key "tactile_image", image) ]
           | None => []
           end)
     else
       Ok ((match tactile_data !! (name +:+ "_resultant_force") with
            | Some force => [ (key "resultant_force", force) ]
            | None => []
            end)
           ++
           (match tactile_data !! (name +:+ "_resultant_moment") with
            | Some moment => [ (key "resultant_moment", moment) ]
            | None => []
            end)));
  Ok ([ (key "sensor_sn", sn);
        (key "frame_index", index);
        (key "send_timestamp", send);
        (key "recv_timestamp", recv) ] ++ specific).

(** One iteration of stage 3 (lines 777-832). *)
Definition stage3_body (tactile_data : gmap string pyval)
  : gmap string pyval → string * TactileSensor → result (gmap string pyval) :=
  λ obs_dict '(name, sensor),
    kvs ← collect_sensor name sensor tactile_data;
    Ok (assign_all kvs obs_dict).

(** Stage 3 (lines 776-833) *)
Definition collect (sensors : list (string * TactileSensor))
    (tactile_data : gmap string pyval) : result (gmap string pyval) :=
  fold_result sensors ∅ (stage3_body tactile_data).

(** Stages 2 and 3 of [_get_tactile_observation]. *)
Definition normalise_tactile (sensors : list (string * TactileSensor))
    (tactile_data_raw : list (string * raw_data)) (clock : nat → F64.t)
  : result (gmap string pyval) :=
  tactile_data ← process_raw sensors tactile_data_raw clock;
  collect sensors tactile_data.

(** ** Devices *)

Inductive role := leader | follower.

Inductive device :=
| Arm (r : role) (name : string)
| Cam (name : string)
| Tactile (name : string).

(** Calls issued to the devices.  A [Read] carries the value the device
    returned, a [Write] the value it was given. *)
Inductive call :=
| Connect (d : device)
| Disconnect (d : device)
| SetCalibration (r : role) (name : string)
| Preset (robot_type : string)
| Read (r : role) (name register : string) (value : list f32)
| Write (r : role) (name register : string) (value : list f32)
| AsyncRead (name : string)
| TactileRead (name : string)
| HasCriticalError (name : string)
| GetErrorStatus (name : string)
| KillCaptureProcess (name : string)
| ResetSensorHandle (name : string).

(** The devices as an oracle over the calls issued so far.  [preset_error]
    is the exception of a preset that fails: the [ValueError] of line 463 or
    the error of a bus.  [time_time history i] is what [time.time()] returns
    in iteration [i] of stage 2 of the tactile read that follows the calls
    [history]. *)
Record Hardware := {
  raises : list call → call → bool;
  preset_error : list call → exn;
  arm_read : list call → role → string → string → list f32;
  camera_frame : list call → string → pyval;
  tactile_read : list call → string → raw_data;
  critical_error : list call → string → bool;
  error_message : list call → string → option string;
  completion : list call → list nat;
  time_time : list call → nat → F64.t
}.

(** [as_completed]: every pending future is yielded exactly once, in an order
    chosen by the scheduler. *)
Fixpoint schedule {A} (choices : list nat) (pending : list A) : list A :=
  match choices with
  | [] => pending
  | c :: choices =>
      match pending !! (c mod length pending)%nat with
      | Some x => x :: schedule choices (delete (c mod length pending)%nat pending)
      | None => pending
      end
  end.

(** Lines 580-584: what a worker leaves in [tactile_data_raw[name]]. *)
Definition tactile_outcome (hw : Hardware) (before : list call) (name : string)
  : raw_data :=
  if raises hw before (TactileRead name) then RawNone
  else tactile_read hw before name.

(** ** The robot object *)

Record robot := mk_robot {
  is_connected : bool;
  logs : gmap string pyval;
  calls : list call
}.

(** [__init__] (lines 177-178), for a process whose devices have seen the
    calls [history]. *)
Definition init (history : list call) : robot := mk_robot false ∅ history.

(** Methods run on the robot and the devices and return or raise. *)
Definition M (A : Type) : Type := robot → robot * result A.

#[global] Instance M_ret : MRet M := λ A a self, (self, Ok a).
#[global] Instance M_bind : MBind M := λ A B k m self,
  match m self with
  | (self, Ok a) => k a self
  | (self, Raise e) => (self, Raise e)
  end.

Definition lift {A} (r : result A) : M A := λ self, (self, r).

(** [try: body except Exception: handler] *)
Definition try_except {A} (body : M A) (handler : M A) : M A := λ self,
  match body self with
  | (self, Ok a) => (self, Ok a)
  | (self, Raise _) => handler self
  end.

(** [for x in l: body(x)] *)
Fixpoint for_each {A} (l : list A) (body : A → M unit) : M unit :=
  match l with
  | [] => mret tt
  | x :: l => _ ← body x; for_each l body
  end.

(** A loop that updates local variables [s]. *)
Fixpoint for_fold {A S} (l : list A) (s : S) (body : S → A → M S) : M S :=
  match l with
  | [] => mret s
  | x :: l => s ← body s x; for_fold l s body
  end.

(** [action[from_idx:to_idx]] *)
Definition slice {A} (l : list A) (from_idx to_idx : nat) : list A :=
  take (to_idx - from_idx) (drop from_idx l).

Section Robot.

Variable hw : Hardware.
Variable cfg : ManipulatorRobotConfig.

Definition device_call (c : call) : M unit := λ self,
  let self' := mk_robot (is_connected self) (logs self) (calls self ++ [c]) in
  if raises hw (calls self) c
  then (self', Raise (DeviceError "device"))
  else (self', Ok tt).

(** [arm.read(register)] followed by [torch.from_numpy] *)
Definition read_arm (r : role) (name register : string) : M (list f32) := λ self,
  let value := arm_read hw (calls self) r name register in
  (_ ← device_call (Read r name register value); mret value) self.

(** [arm.write(register, value.numpy().astype(np.float32))]: the positions
    are binary32 already. *)
Definition write_arm (r : role) (name register : string) (value : list f32) : M unit :=
  device_call (Write r name register value).

Definition set_connected (b : bool) : M unit := λ self,
  (mk_robot b (logs self) (calls self), Ok tt).

Definition set_log (k : string) (v : pyval) : M unit := λ self,
  (mk_robot (is_connected self) (<[k := v]> (logs self)) (calls self), Ok tt).

Definition require_connected : M unit := λ self,
  if is_connected self then (self, Ok tt)
  else (self, Raise RobotDeviceNotConnectedError).

(** Lines 415-456 and 406-411: calibration is loaded or run for the
    followers, then for the leaders, and the preset of the robot type is
    applied; these are file and register accesses whose outcome is the
    devices'.  A preset is one call; when it fails it raises what the
    register accesses raised: [ValueError] from the torque check of the Koch
    preset (line 463), or the error of a bus. *)
Definition activate_calibration : M unit :=
  _ ← for_each (follower_arms cfg) (λ '(name, _), device_call (SetCalibration follower name));
  for_each (leader_arms cfg) (λ '(name, _), device_call (SetCalibration leader name)).

Definition preset_call (robot_type : string) : M unit := λ self,
  let self' := mk_robot (is_connected self) (logs self) (calls self ++ [Preset robot_type]) in
  if raises hw (calls self) (Preset robot_type)
  then (self', Raise (preset_error hw (calls self)))
  else (self', Ok tt).

Definition set_robot_preset : M unit :=
  if decide (robot_type cfg = "aloha") then preset_call "aloha"
  else if decide (robot_type cfg = "koch" ∨ robot_type cfg = "koch_bimanual")
       then preset_call "koch"
  else if decide (robot_type cfg = "so100") then preset_call "so100"
  else mret tt.

(** [connect] (lines 373-413) *)
Definition connect : M unit := λ self,
  if is_connected self then (self, Raise RobotDeviceAlreadyConnectedError)
  else if bool_decide (leader_arms cfg = []) && bool_decide (follower_arms cfg = [])
          && bool_decide (cameras cfg = [])
  then (self, Raise ValueError)
  else
    (_ ← for_each (leader_arms cfg) (λ '(name, _), device_call (Connect (Arm leader name)));
     _ ← for_each (follower_arms cfg) (λ '(name, _), device_call (Connect (Arm follower name)));
     _ ← for_each (cameras cfg) (λ '(name, _), device_call (Connect (Cam name)));
     _ ← for_each (tactile_sensors cfg) (λ '(name, _), device_call (Connect (Tactile name)));
     _ ← activate_calibration;
     _ ← set_robot_preset;
     set_connected true) self.

(** Lines 1095-1137: forced cleanup of a tactile sensor whose [disconnect]
    raised.  Killing the capture process swallows every error; resetting the
    sensor handle is inside the outer [try]. *)
Definition force_cleanup (name : string) (sensor : TactileSensor) : M unit :=
  try_except
    (_ ← (if decide (default "unknown" (type (config sensor)) = "gelsight")
          then try_except (device_call (KillCaptureProcess name)) (mret tt)
          else mret tt);
     device_call (ResetSensorHandle name))
    (mret tt).

(** [disconnect] (lines 1050-1140) *)
Definition disconnect (force : bool) : M unit :=
  _ ← require_connected;
  _ ← for_each (follower_arms cfg) (λ '(name, _),
        try_except (device_call (Disconnect (Arm follower name))) (mret tt));
  _ ← for_each (leader_arms cfg) (λ '(name, _),
        try_except (device_call (Disconnect (Arm leader name))) (mret tt));
  _ ← for_each (cameras cfg) (λ '(name, _),
        try_except (device_call (Disconnect (Cam name))) (mret tt));
  _ ← for_each (tactile_sensors cfg) (λ '(name, sensor),
        try_except (device_call (Disconnect (Tactile name))) (force_cleanup name sensor));
  set_connected false.

(** Stage 1 of [_get_tactile_observation] (lines 572-584): the reads run in
    parallel; a read that raises leaves [None]; the results are stored in
    completion order. *)
Definition read_tactile_sensors : M (list (string * raw_data)) := λ self,
  let names := (tactile_sensors cfg).*1 in
  let before := calls self in
  (mk_robot (is_connected self) (logs self) (before ++ (TactileRead <$> names)),
   Ok ((λ name, (name, tactile_outcome hw before name))
         <$> schedule (completion hw before) names)).

(** [_get_tactile_observation] (lines 566-833) *)
Definition _get_tactile_observation : M (gmap string pyval) := λ self,
  (tactile_data_raw ← read_tactile_sensors;
   lift (normalise_tactile (tactile_sensors cfg) tactile_data_raw
           (time_time hw (calls self)))) self.

Definition has_critical_error (name : string) : M bool := λ self,
  (_ ← device_call (HasCriticalError name);
   mret (critical_error hw (calls self) name)) self.

Definition get_error_status (name : string) : M (option string) := λ self,
  (_ ← device_call (GetErrorStatus name);
   mret (error_message hw (calls self) name)) self.

(** Lines 911-920 and 969-978 *)
Definition check_tactile_errors : M unit :=
  for_each (tactile_sensors cfg) (λ '(name, sensor),
    if has_has_critical_error sensor then
      critical ← has_critical_error name;
      if critical : bool then
        error_message ←
          (if has_get_error_status sensor then get_error_status name else mret None);
        let error_msg := default "Unknown critical error" error_message in
        _ ← set_log ("tactile_sensor_" +:+ name +:+ "_critical_error") (PBool true);
        set_log ("tactile_sensor_" +:+ name +:+ "_error_message") (PStr error_msg)
      else mret tt
    else mret tt).

(** Lines 859-862 and 1014-1017 *)
Definition cap_goal_position (name : string) (goal_pos : list f32) : M (list f32) :=
  match max_relative_target cfg with
  | Some max_relative_target =>
      present_pos ← read_arm follower name "Present_Position";
      lift (ensure_safe_goal_position goal_pos present_pos max_relative_target)
  | None => mret goal_pos
  end.

(** The body of the loops that read [Present_Position] from every arm of a
    group (lines 845-849, 877-882 and 942-947). *)
Definition read_body (r : role)
  : gmap string (list f32) → string * MotorsBus → M (gmap string (list f32)) :=
  λ positions '(name, _),
    pos ← read_arm r name "Present_Position";
    mret (<[name := pos]> positions).

(** Lines 877-882 and 942-947 *)
Definition read_follower_positions : M (gmap string (list f32)) :=
  for_fold (follower_arms cfg) ∅ (read_body follower).

(** [[d[name] for name in self.follower_arms if name in d]] *)
Definition per_follower (d : gmap string (list f32)) : list (list f32) :=
  omap (λ '(name, _), d !! name) (follower_arms cfg).

(** Lines 899-905 and 957-963 *)
Definition read_cameras : M (gmap string pyval) :=
  for_fold (cameras cfg) ∅ (λ images '(name, _),
    image ← (λ self, (_ ← device_call (AsyncRead name);
                       lift (torch_from_numpy (camera_frame hw (calls self) name))) self);
    mret (<[name := image]> images)).

(** Lines 923-927 and 981-985 *)
Definition populate (state : list f32) (images tactile_obs : gmap string pyval)
  : result (gmap string pyval) :=
  obs_dict ← fold_result (cameras cfg) {["observation.state" := tensor_of_positions state]}
    (λ obs_dict '(name, _),
       image ← getitem images name;
       Ok (<["observation.images." +:+ name := image]> obs_dict));
  Ok (tactile_obs ∪ obs_dict).

(** The body of the loop of lines 853-869. *)
Definition teleop_body (leader_pos : gmap string (list f32))
  : gmap string (list f32) → string * MotorsBus → M (gmap string (list f32)) :=
  λ follower_goal_pos '(name, _),
    goal_pos ← lift (getitem leader_pos name);
    goal_pos ← cap_goal_position name goal_pos;
    let follower_goal_pos := <[name := goal_pos]> follower_goal_pos in
    _ ← write_arm follower name "Goal_Position" goal_pos;
    mret follower_goal_pos.

(** [teleop_step] (lines 835-932) *)
Definition teleop_step (record_data : bool)
  : M (option (gmap string pyval * gmap string pyval)) :=
  _ ← require_connected;
  leader_pos ← for_fold (leader_arms cfg) ∅ (read_body leader);
  follower_goal_pos ← for_fold (follower_arms cfg) ∅ (teleop_body leader_pos);
  if negb record_data then mret None
  else
    follower_pos ← read_follower_positions;
    state ← lift (torch_cat (per_follower follower_pos));
    action ← lift (torch_cat (per_follower follower_goal_pos));
    images ← read_cameras;
    tactile_obs ← _get_tactile_observation;
    _ ← check_tactile_errors;
    obs_dict ← lift (populate state images tactile_obs);
    let action_dict : gmap string pyval := {["action" := tensor_of_positions action]} in
    mret (Some (obs_dict, action_dict)).

(** [capture_observation] (lines 934-986) *)
Definition capture_observation : M (gmap string pyval) :=
  _ ← require_connected;
  follower_pos ← read_follower_positions;
  state ← lift (torch_cat (per_follower follower_pos));
  images ← read_cameras;
  tactile_obs ← _get_tactile_observation;
  _ ← check_tactile_errors;
  lift (populate state images tactile_obs).

(** The body of the loop of lines 1006-1024. *)
Definition send_body (action : list f32)
  : nat * nat * list (list f32) → string * MotorsBus → M (nat * nat * list (list f32)) :=
  λ '(from_idx, to_idx, action_sent) '(name, arm),
    let to_idx := (to_idx + length (motor_names arm))%nat in
    let goal_pos := slice action from_idx to_idx in
    let from_idx := to_idx in
    goal_pos ← cap_goal_position name goal_pos;
    let action_sent := action_sent ++ [goal_pos] in
    _ ← write_arm follower name "Goal_Position" goal_pos;
    mret (from_idx, to_idx, action_sent).

(** [send_action] (lines 988-1026) *)
Definition send_action (action : list f32) : M (list f32) :=
  _ ← require_connected;
  '(_, _, action_sent) ← for_fold (follower_arms cfg) (0%nat, 0%nat, []) (send_body action);
  lift (torch_cat action_sent).

End Robot.

(** ** Observations on a trace of device calls *)

Definition writes (l : list call) : list (role * string * string * list f32) :=
  omap (λ c, match c with Write r name register v => Some (r, name, register, v) | _ => None end) l.

Definition disconnected (l : list call) : list device :=
  omap (λ c, match c with Disconnect d => Some d | _ => None end) l.

(** Calls on the arms' registers. *)
Definition arm_io (c : call) : bool :=
  match c with
  | Read _ _ _ _ | Write _ _ _ _ => true
  | _ => false
  end.

(** The devices of the registry, in the order [disconnect] visits them. *)
Definition registered_devices (cfg : ManipulatorRobotConfig) : list device :=
  (Arm follower <$> (follower_arms cfg).*1) ++ (Arm leader <$> (leader_arms cfg).*1)
  ++ (Cam <$> (cameras cfg).*1) ++ (Tactile <$> (tactile_sensors cfg).*1).

(** A flat vector cut into consecutive segments of the given sizes. *)
Fixpoint segments {A} (sizes : list nat) (l : list A) : list (list A) :=
  match sizes with
  | [] => []
  | n :: sizes => take n l :: segments sizes (drop n l)
  end.

Definition motor_counts (arms : list (string * MotorsBus)) : list nat :=
  (λ '(_, arm), length (motor_names arm)) <$> arms.

(** The robot after further device calls, its flag and logs unchanged. *)
Definition extend (self : robot) (new : list call) : robot :=
  mk_robot (is_connected self) (logs self) (calls self ++ new).

(** The goal a follower is sent for a requested [goal_pos], given the present
    position read from it (lines 859-862 and 1014-1017 as a function). *)
Definition capped (b : option py_relative_target) (present_pos goal_pos : list f32)
  : result (list f32) :=
  match b with
  | Some b => ensure_safe_goal_position goal_pos present_pos b
  | None => Ok goal_pos
  end.

(** The [Goal_Position] writes that send [goals] to the arms [names]. *)
Definition goal_writes (names : list string) (goals : list (list f32))
  : list (role * string * string * list f32) :=
  zip_with (λ name goal, (follower, name, "Goal_Position", goal)) names goals.

(** ** Vocabulary of the proofs *)

(** Whatever the outcome, the method only adds device calls, and the calls it
    adds satisfy [P]. *)
Definition emits {A} (P : list call → Prop) (m : M A) : Prop :=
  ∀ self self' r, m self = (self', r) →
    ∃ new, calls self' = calls self ++ new ∧ P new.

(** A property of call sequences that holds of no calls and of
    concatenations. *)
Definition monoidal (P : list call → Prop) : Prop :=
  P [] ∧ ∀ l1 l2, P l1 → P l2 → P (l1 ++ l2).

(** ** Placeholders of the feature schema *)

Definition dtype_named (s : string) : dtype :=
  if decide (s = "uint8") then uint8
  else if decide (s = "int64") then int64
  else if decide (s = "float32") then float32
  else float64.

(** The zero-filled tensor, or the empty string, of a declared shape and
    dtype. *)
Definition placeholder (d : feature) : pyval :=
  if decide (ft_dtype d = "string") then PStr EmptyString
  else PTensor (torch_zeros (ft_shape d) (dtype_named (ft_dtype d))).

(** The tactile keys of the schema, sensor by sensor. *)
Definition tactile_keys (sensors : list (string * TactileSensor)) : list string :=
  sensors ≫= λ '(name, sensor), (sensor_features name sensor).*1.

(** The suffixes of the keys of [tactile_data]. *)
Definition fields : list string :=
  [ "_sensor_sn"; "_frame_index"; "_send_timestamp"; "_recv_timestamp";
    "_positions_3d"; "_displacements_3d"; "_forces_3d";
    "_resultant_force"; "_resultant_moment"; "_tactile_image" ].

(** The fields of one sensor in the schema, without the key prefix
    (lines 250-329). *)
Definition sensor_schema (sensor : TactileSensor) : list (string * feature) :=
  let sensor_type := sensor_type_of sensor in
  [ ("sensor_sn", mk_feature "string" [1%nat] None);
    ("frame_index", mk_feature "int64" [1%nat] None);
    ("send_timestamp", mk_feature "float64" [1%nat] None);
    ("recv_timestamp", mk_feature "float64" [1%nat] None) ]
  ++
  if decide (sensor_type = "tac3d") then
    [ ("positions_3d", mk_feature "float64" [400; 3]%nat (Some ["marker_id"; "coordinate"]));
      ("displacements_3d",
       mk_feature "float64" [400; 3]%nat (Some ["marker_id"; "coordinate"]));
      ("forces_3d", mk_feature "float64" [400; 3]%nat (Some ["marker_id"; "coordinate"]));
      ("resultant_force", mk_feature "float64" [3%nat] (Some ["x"; "y"; "z"]));
      ("resultant_moment", mk_feature "float64" [3%nat] (Some ["x"; "y"; "z"])) ]
  else if decide (sensor_type = "gelsight") then
    [ ("tactile_image",
       mk_feature "uint8" [default 240%nat (imgh (config sensor));
                           default 320%nat (imgw (config sensor)); 3%nat]
                  (Some ["height"; "width"; "channel"])) ]
  else if decide (sensor_type = "digit") then
    [ ("tactile_image",
       mk_feature "uint8" [240; 320; 3]%nat (Some ["height"; "width"; "channel"])) ]
  else
    [ ("resultant_force", mk_feature "float64" [3%nat] (Some ["x"; "y"; "z"]));
      ("resultant_moment", mk_feature "float64" [3%nat] (Some ["x"; "y"; "z"])) ].





(** ** Vocabulary of the proofs, continued *)

(** What [cap_goal_position] returned, in terms of the calls it made. *)
Definition capped_by (cfg : ManipulatorRobotConfig) (name : string)
    (requested goal : list f32) (new : list call) : Prop :=
  match max_relative_target cfg with
  | Some b => ∃ present_pos,
      Read follower name "Present_Position" present_pos ∈ new
      ∧ ensure_safe_goal_position requested present_pos b = Ok goal
  | None => goal = requested
  end.

(** A key of [tactile_data] in the name space of sensor [name]. *)
Definition key_of (name : string) (k : string) : Prop :=
  ∃ f, f ∈ fields ∧ k = name +:+ f.

(** What stage 3 stores for one field of one sensor. *)
Definition collected (sensor_type name : string) (td : gmap string pyval)
  : string * feature → string * pyval → Prop :=
  λ '(f, _) '(k, v),
    k = tactile_key sensor_type name f ∧ td !! (name +:+ "_" +:+ f) = Some v.

(** ** Concrete sessions *)

Definition f32_100 : f32 := S754_finite false 13107200 (-17).
Definition f32_150 : f32 := S754_finite false 9830400 (-16).
(** The Python float [0.3]. *)
Definition py_0_3 : F64.t := S754_finite false 5404319552844595 (-54).

Definition ex_digit : TactileSensor :=
  {| config := {| type := Some "digit"; imgh := None; imgw := None |};
     has_has_critical_error := true; has_get_error_status := true |}.

(** A robot whose only device is one DIGIT sensor. *)
Definition tactile_only : ManipulatorRobotConfig :=
  {| robot_type := "koch"; leader_arms := []; follower_arms := []; cameras := [];
     tactile_sensors := [("fingertip", ex_digit)];
     max_relative_target := None; gripper_open_degree := None |}.

Definition ex_gelsight : TactileSensor :=
  {| config := {| type := Some "gelsight"; imgh := None; imgw := None |};
     has_has_critical_error := true; has_get_error_status := true |}.

Definition ex_generic : TactileSensor :=
  {| config := {| type := None; imgh := None; imgw := None |};
     has_has_critical_error := true; has_get_error_status := true |}.

Definition one_sensor (sensor : TactileSensor) : ManipulatorRobotConfig :=
  {| robot_type := "koch"; leader_arms := []; follower_arms := []; cameras := [];
     tactile_sensors := [("fingertip", sensor)];
     max_relative_target := None; gripper_open_degree := None |}.

(** A one-pixel frame. *)
Definition pixel : ndarray := mk_ndarray uint8 [1; 1; 3]%nat [NInt 10; NInt 20; NInt 30].

(** A payload that carries an image and nothing else. *)
Definition image_payload : raw_data := RawDict {[ "tactile_image" := PArray pixel ]}.

(** Devices that never raise; every tactile read returns [payload]. *)
Definition steady (payload : raw_data) : Hardware :=
  {| raises := λ _ _, false;
     preset_error := λ _, ValueError;
     arm_read := λ _ _ _ _, [];
     camera_frame := λ _ _, PNone;
     tactile_read := λ _ _, payload;
     critical_error := λ _ _, false;
     error_message := λ _ _, None;
     completion := λ _, [];
     time_time := λ _ _, F64.of_Z 1700000000 |}.


Definition arm1 : MotorsBus := {| motors := [("gripper", (1, "xl330-m077"))] |}.
Definition arm2 : MotorsBus :=
  {| motors := [("shoulder_pan", (1, "xl430-w250")); ("gripper", (2, "xl330-m288"))] |}.

(** One leader and one follower of two motors each, relative target 5. *)
Definition koch_like : ManipulatorRobotConfig :=
  {| robot_type := "koch";
     leader_arms := [("main", arm2)]; follower_arms := [("main", arm2)];
     cameras := []; tactile_sensors := [];
     max_relative_target := Some (PyFloat (F64.of_Z 5)); gripper_open_degree := None |}.

(** A leader of one motor driving a follower of two. *)
Definition mismatched : ManipulatorRobotConfig :=
  {| robot_type := "koch";
     leader_arms := [("main", arm1)]; follower_arms := [("main", arm2)];
     cameras := []; tactile_sensors := [];
     max_relative_target := None; gripper_open_degree := None |}.

(** Three devices. *)
Definition three_devices : ManipulatorRobotConfig :=
  {| robot_type := "koch";
     leader_arms := [("main", arm2)]; follower_arms := [("main", arm2)];
     cameras := [("top", {| height := 480; width := 640; channels := 3 |})];
     tactile_sensors := [];
     max_relative_target := None; gripper_open_degree := None |}.

Definition leader_pose : list f32 := [F32.of_Z2 30 0; F32.of_Z2 (-7) 0].
Definition follower_pose : list f32 := [F32.of_Z2 10 0; F32.of_Z2 (-5) 0].

(** Arms at rest: the leaders report [leader_pose], the followers
    [follower_pose], and nothing raises. *)
Definition resting : Hardware :=
  {| raises := λ _ _, false;
     preset_error := λ _, ValueError;
     arm_read := λ _ r _ _, match r with leader => leader_pose | follower => follower_pose end;
     camera_frame := λ _ _, PNone;
     tactile_read := λ _ _, RawNone;
     critical_error := λ _ _, false;
     error_message := λ _ _, None;
     completion := λ _, [];
     time_time := λ _ _, F64.of_Z 1700000000 |}.

(** Devices on which disconnecting the leader arm raises. *)
Definition stuck_leader : Hardware :=
  {| raises := λ _ c, match c with Disconnect (Arm leader _) => true | _ => false end;
     preset_error := λ _, ValueError;
     arm_read := λ _ _ _ _, [];
     camera_frame := λ _ _, PNone;
     tactile_read := λ _ _, RawNone;
     critical_error := λ _ _, false;
     error_message := λ _ _, None;
     completion := λ _, [];
     time_time := λ _ _, F64.of_Z 1700000000 |}.

Definition connected : robot := mk_robot true ∅ [].

(** ** Proof automation *)

Ltac inv_ok :=
  repeat match goal with
         | H : mbind _ ?r = Ok _ |- _ =>
             let a := fresh "a" in
             let E := fresh "E" in
             destruct r as [a|] eqn:E;
             [change (mbind ?k (Ok a)) with (k a) in H; cbv beta in H | discriminate H]
         end;
  simplify_eq.

Ltac solve_key_of :=
  match goal with
  | |- key_of ?name (?name +:+ ?f) =>
      exists f; split;
      [unfold fields;
       solve [repeat first [apply list_elem_of_here | apply list_elem_of_further]]
      |reflexivity]
  end.

(** * Further parts of the module *)

(** ** Shapes under broadcasting *)

(** Two sizes of one-dimensional tensors that torch broadcasts together. *)
Definition broadcastable (n m : nat) : bool :=
  (n =? m)%nat || (n =? 1)%nat || (m =? 1)%nat.

(** The size of the result of broadcasting sizes [n] and [m]. *)
Definition broadcast_size (n m : nat) : nat :=
  if (n =? 1)%nat then m else n.

(** IEEE equality on binary32: the two zeros are equal, NaN equals nothing. *)
Definition f32_eqb (x y : f32) : bool := SFeqb x y.

Definition f32_nan : f32 := S754_nan.

(** The Python float [-0.3]. *)
Definition py_minus_0_3 : F64.t := S754_finite true 5404319552844595 (-54).

(** ** Conformance of an observation entry to its declared feature *)

Definition dtype_eqb (d1 d2 : dtype) : bool :=
  match d1, d2 with
  | uint8, uint8 | int64, int64 | float32, float32 | float64, float64 => true
  | _, _ => false
  end.

(** An element as an array of the given dtype stores it. *)
Definition num_of_dtype (d : dtype) (n : num) : bool :=
  match d, n with
  | (uint8 | int64), NInt _ => true
  | (float32 | float64), NFloat _ => true
  | _, _ => false
  end.

(** [v] is a tensor of the dtype and shape that [d] declares, with as many
    elements as the shape has. *)
Definition conforms (d : feature) (v : pyval) : bool :=
  match v with
  | PTensor a =>
      dtype_eqb (dtype_named (ft_dtype d)) (nd_dtype a)
      && bool_decide (nd_shape a = ft_shape d)
      && (length (nd_data a) =? nd_size a)%nat
      && forallb (num_of_dtype (nd_dtype a)) (nd_data a)
  | _ => false
  end.

(** The fields whose values stage 2 always builds itself. *)
Definition checked_fields : list string :=
  [ "frame_index"; "send_timestamp"; "recv_timestamp";
    "resultant_force"; "resultant_moment" ].

(** Arrays and tensors, as opposed to Python numbers, strings and [None]. *)
Definition is_array (v : pyval) : bool :=
  match v with
  | PArray _ | PTensor _ => true
  | _ => false
  end.

(** The payload fields that hold a frame index or a timestamp. *)
Definition metadata_keys : list string :=
  [ "index"; "sendTimestamp"; "recvTimestamp"; "frame_index"; "timestamp" ].

(** The payload gives no frame index and no timestamp as an array. *)
Definition scalar_metadata (data : raw_data) : bool :=
  match truthy data with
  | Some d =>
      forallb (λ k, from_option (λ v, negb (is_array v)) true (d !! k)) metadata_keys
  | None => true
  end.

(** The same devices under another scheduler of the reading threads. *)
Definition with_completion (hw : Hardware) (completion : list call → list nat)
  : Hardware :=
  {| raises := raises hw;
     preset_error := preset_error hw;
     arm_read := arm_read hw;
     camera_frame := camera_frame hw;
     tactile_read := tactile_read hw;
     critical_error := critical_error hw;
     error_message := error_message hw;
     completion := completion;
     time_time := time_time hw |}.

(** All keys of [tactile_data] in the name spaces of the sensors [names]. *)
Definition data_keys (names : list string) : list string :=
  names ≫= λ name, (λ f, name +:+ f) <$> fields.

Definition ex_tac3d : TactileSensor :=
  {| config := {| type := Some "tac3d"; imgh := None; imgw := None |};
     has_has_critical_error := true; has_get_error_status := true |}.

(** A Tac3D payload that carries a frame index and a receive timestamp. *)
Definition tac3d_payload : raw_data :=
  RawDict {[ "index" := PInt 7; "recvTimestamp" := PFloat (F64.of_Z 12) ]}.

(** A payload with an image and a timestamp. *)
Definition stamped_payload : raw_data :=
  RawDict {[ "tactile_image" := PArray pixel; "timestamp" := PFloat (F64.of_Z 12) ]}.

(** A DIGIT and a GelSight sensor. *)
Definition two_fingers : ManipulatorRobotConfig :=
  {| robot_type := "koch"; leader_arms := []; follower_arms := []; cameras := [];
     tactile_sensors := [("thumb", ex_digit); ("index", ex_gelsight)];
     max_relative_target := None; gripper_open_degree := None |}.

(** The value a call returned (the empty dictionary if it raised). *)
Definition returned (r : result (gmap string pyval)) : gmap string pyval :=
  match r with
  | Ok obs => obs
  | Raise _ => ∅
  end.

Definition succeeded {A} (r : result A) : bool :=
  match r with
  | Ok _ => true
  | Raise _ => false
  end.

(** ** A bench with one device of each kind *)

(** Devices that never raise: arms at rest, a camera that returns [pixel], a
    Tac3D sensor that returns [tac3d_payload] and reports a critical error
    with message [overheated]. *)
Definition bench : Hardware :=
  {| raises := λ _ _, false;
     preset_error := λ _, ValueError;
     arm_read := λ _ r _ _, match r with leader => leader_pose | follower => follower_pose end;
     camera_frame := λ _ _, PArray pixel;
     tactile_read := λ _ _, tac3d_payload;
     critical_error := λ _ _, true;
     error_message := λ _ _, Some "overheated";
     completion := λ _, [];
     time_time := λ _ _, F64.of_Z 1700000000 |}.

Definition bench_robot : ManipulatorRobotConfig :=
  {| robot_type := "koch";
     leader_arms := [("main", arm2)]; follower_arms := [("main", arm2)];
     cameras := [("top", {| height := 1; width := 1; channels := 3 |})];
     tactile_sensors := [("fingertip", ex_tac3d)];
     max_relative_target := None; gripper_open_degree := None |}.

(** Calls that ask a device for a value and command nothing. *)
Definition read_only (c : call) : bool :=
  match c with
  | Read _ _ _ _ | AsyncRead _ | TactileRead _
  | HasCriticalError _ | GetErrorStatus _ => true
  | _ => false
  end.

(** A robot whose only device is a camera. *)
Definition camera_only : ManipulatorRobotConfig :=
  {| robot_type := "koch"; leader_arms := []; follower_arms := [];
     cameras := [("top", {| height := 1; width := 1; channels := 3 |})];
     tactile_sensors := [];
     max_relative_target := None; gripper_open_degree := None |}.

(** Two followers and a single leader. *)
Definition unpaired : ManipulatorRobotConfig :=
  {| robot_type := "koch";
     leader_arms := [("left", arm2)];
     follower_arms := [("left", arm2); ("right", arm2)];
     cameras := []; tactile_sensors := [];
     max_relative_target := None; gripper_open_degree := None |}.

(** ** Observations on the lifecycle calls *)

(** The calls [connect] makes. *)
Definition setup (c : call) : bool :=
  match c with
  | Connect _ | SetCalibration _ _ | Preset _ => true
  | _ => false
  end.

(** The calls [disconnect] makes. *)
Definition teardown (c : call) : bool :=
  match c with
  | Disconnect _ | KillCaptureProcess _ | ResetSensorHandle _ => true
  | _ => false
  end.

Definition connected_devices (l : list call) : list device :=
  omap (λ c, match c with Connect d => Some d | _ => None end) l.

(** The preset [connect] applies for a robot type (lines 406-411). *)
Definition preset_calls (cfg : ManipulatorRobotConfig) : list call :=
  if decide (robot_type cfg = "aloha") then [Preset "aloha"]
  else if decide (robot_type cfg = "koch" ∨ robot_type cfg = "koch_bimanual")
       then [Preset "koch"]
  else if decide (robot_type cfg = "so100") then [Preset "so100"]
  else [].

(** The calls of a [connect] during which no device raises, in order. *)
Definition connect_calls (cfg : ManipulatorRobotConfig) : list call :=
  ((λ name, Connect (Arm leader name)) <$> (leader_arms cfg).*1)
  ++ ((λ name, Connect (Arm follower name)) <$> (follower_arms cfg).*1)
  ++ ((λ name, Connect (Cam name)) <$> (cameras cfg).*1)
  ++ ((λ name, Connect (Tactile name)) <$> (tactile_sensors cfg).*1)
  ++ (SetCalibration follower <$> (follower_arms cfg).*1)
  ++ (SetCalibration leader <$> (leader_arms cfg).*1)
  ++ preset_calls cfg.

(** Devices on which connecting a camera raises. *)
Definition dead_camera : Hardware :=
  {| raises := λ _ c, match c with Connect (Cam _) => true | _ => false end;
     preset_error := λ _, ValueError;
     arm_read := λ _ _ _ _, [];
     camera_frame := λ _ _, PNone;
     tactile_read := λ _ _, RawNone;
     critical_error := λ _ _, false;
     error_message := λ _ _, None;
     completion := λ _, [];
     time_time := λ _ _, F64.of_Z 1700000000 |}.

(** Methods that leave [is_connected] as it is, whatever their outcome. *)
Definition keeps_flag {A} (m : M A) : Prop :=
  ∀ self self' r, m self = (self', r) → is_connected self' = is_connected self.

(** Methods that leave [is_connected] as it is when they raise. *)
Definition keeps_flag_on_raise {A} (m : M A) : Prop :=
  ∀ self self' e, m self = (self', Raise e) → is_connected self' = is_connected self.

(** The robot after a [connect] that failed at the camera. *)
Definition half_connected : robot :=
  mk_robot false ∅ [Connect (Arm leader "main"); Connect (Arm follower "main");
                    Connect (Cam "top")].

(** ** Camera properties (lines 354-360) *)

Definition num_cameras (cfg : ManipulatorRobotConfig) : nat := length (cameras cfg).

Definition has_camera (cfg : ManipulatorRobotConfig) : bool := (0 <? num_cameras cfg)%nat.

(** The number of entries [tactile_features] declares for a sensor of a
    type. *)
Definition entries_of_type (sensor_type : string) : nat :=
  if decide (sensor_type = "tac3d") then 9%nat
  else if decide (sensor_type = "gelsight") then 5%nat
  else if decide (sensor_type = "digit") then 5%nat
  else 6%nat.

(** A GelSight sensor with a configured image size and a sensor whose
    configuration has no [type]. *)
Definition small_gelsight : TactileSensor :=
  {| config := {| type := Some "gelsight"; imgh := Some 24%nat; imgw := Some 32%nat |};
     has_has_critical_error := false; has_get_error_status := false |}.

Definition two_sensors : ManipulatorRobotConfig :=
  {| robot_type := "so100"; leader_arms := [("main", arm2)]; follower_arms := [("main", arm2)];
     cameras := [("top", {| height := 480; width := 640; channels := 3 |});
                 ("wrist", {| height := 240; width := 320; channels := 3 |})];
     tactile_sensors := [("thumb", small_gelsight); ("palm", ex_generic)];
     max_relative_target := None; gripper_open_degree := None |}.

(** ** Error queries (lines 1028-1044) *)

(** The loop of [has_tactile_critical_errors]: it returns at the first
    sensor that reports a critical error. *)
Fixpoint any_critical_error (hw : Hardware) (sensors : list (string * TactileSensor))
  : M bool :=
  match sensors with
  | [] => mret false
  | (name, sensor) :: sensors =>
      if has_has_critical_error sensor then
        critical ← has_critical_error hw name;
        if critical : bool then mret true else any_critical_error hw sensors
      else any_critical_error hw sensors
  end.

(** [has_tactile_critical_errors] (lines 1028-1033) *)
Definition has_tactile_critical_errors (hw : Hardware) (cfg : ManipulatorRobotConfig)
  : M bool :=
  any_critical_error hw (tactile_sensors cfg).

(** An entry of the error summary: the dictionary [sensor.get_error_status()]
    returned, of which [error_message] is its entry of that name, or the
    literal of line 1043 for a sensor without [get_error_status]. *)
Inductive error_status :=
| SensorStatus (error_message : option string)
| CriticalErrorDetected.

(** [get_tactile_error_summary] (lines 1035-1044) *)
Definition get_tactile_error_summary (hw : Hardware) (cfg : ManipulatorRobotConfig)
  : M (gmap string error_status) :=
  for_fold (tactile_sensors cfg) ∅ (λ errors '(name, sensor),
    if has_has_critical_error sensor then
      critical ← has_critical_error hw name;
      if critical : bool then
        if has_get_error_status sensor then
          status ← get_error_status hw name;
          mret (<[name := SensorStatus status]> errors)
        else mret (<[name := CriticalErrorDetected]> errors)
      else mret errors
    else mret errors).

(** The error queries of the sensors that offer [has_critical_error]. *)
Definition error_queries (sensors : list (string * TactileSensor)) : list call :=
  omap (λ '(name, sensor),
          if has_has_critical_error sensor then Some (HasCriticalError name) else None)
       sensors.

(** The keys under which a critical error of sensor [name] is logged
    (lines 919-920 and 977-978). *)
Definition critical_error_key (name : string) : string :=
  "tactile_sensor_" +:+ name +:+ "_critical_error".
Definition error_message_key (name : string) : string :=
  "tactile_sensor_" +:+ name +:+ "_error_message".

(** Devices that never raise, on which the sensor [thumb] alone reports a
    critical error. *)
Definition thumb_fails : Hardware :=
  {| raises := λ _ _, false;
     preset_error := λ _, ValueError;
     arm_read := λ _ r _ _, match r with leader => leader_pose | follower => follower_pose end;
     camera_frame := λ _ _, PArray pixel;
     tactile_read := λ _ _, RawNone;
     critical_error := λ _ name, bool_decide (name = "thumb");
     error_message := λ _ _, Some "overheated";
     completion := λ _, [];
     time_time := λ _ _, F64.of_Z 1700000000 |}.

Definition three_sensors : ManipulatorRobotConfig :=
  {| robot_type := "koch"; leader_arms := [("main", arm2)]; follower_arms := [("main", arm2)];
     cameras := [];
     tactile_sensors := [("palm", ex_tac3d); ("thumb", ex_tac3d); ("index", ex_tac3d)];
     max_relative_target := None; gripper_open_degree := None |}.

(** The critical error of sensor [name] is in the logs, with the message the
    sensor gives ([message name]) or the default one. *)
Definition logged_error (message : string → option string) (name : string)
    (sensor : TactileSensor) (logs : gmap string pyval) : Prop :=
  logs !! critical_error_key name = Some (PBool true)
  ∧ logs !! error_message_key name
    = Some (PStr (default "Unknown critical error"
                    (if has_get_error_status sensor then message name else None))).

(** ** Clean-up at exit, at deletion and on signals
       (lines 180-215 and 1142-1163) *)

(** [if self.is_connected: self.disconnect()] *)
Definition disconnect_if_connected (hw : Hardware) (cfg : ManipulatorRobotConfig) : M unit :=
  λ self, if is_connected self then disconnect hw cfg false self else (self, Ok tt).

(** [_cleanup_at_exit] (lines 208-215) *)
Definition _cleanup_at_exit (hw : Hardware) (cfg : ManipulatorRobotConfig) : M unit :=
  try_except (disconnect_if_connected hw cfg) (mret tt).

(** [__del__] (lines 1142-1163).  The body of its handler, which releases
    the devices of the tactile sensors by force (lines 1150-1163), is the
    argument [last_resort]. *)
Definition __del__ (hw : Hardware) (cfg : ManipulatorRobotConfig) (last_resort : M unit)
  : M unit :=
  try_except (disconnect_if_connected hw cfg) last_resort.

(** A signal handler of the process: the one of this robot, or one that was
    installed before. *)
Inductive handler :=
| Earlier (id : nat)
| OfRobot.

(** The handlers the process has installed for [SIGINT] and [SIGTERM]. *)
Record dispositions := {
  on_sigint : handler;
  on_sigterm : handler
}.

Definition SIGINT : Z := 2.
Definition SIGTERM : Z := 15.

(** The attributes [_original_sigint_handler] and
    [_original_sigterm_handler]. *)
Record originals := {
  _original_sigint_handler : handler;
  _original_sigterm_handler : handler
}.

(** Lines 181-182 of [__init__]: [signal.signal] installs the handler of the
    robot and returns the one it replaces. *)
Definition register_signal_handlers (d : dispositions) : originals * dispositions :=
  ({| _original_sigint_handler := on_sigint d; _original_sigterm_handler := on_sigterm d |},
   {| on_sigint := OfRobot; on_sigterm := OfRobot |}).

(** How a signal handler ends: it never returns. *)
Inductive termination :=
| KeyboardInterrupt
| SystemExit (code : Z).

(** [_signal_handler] (lines 187-206) *)
Definition _signal_handler (hw : Hardware) (cfg : ManipulatorRobotConfig)
    (saved : originals) (signum : Z)
  : robot * dispositions → robot * dispositions * termination :=
  λ '(self, d),
    let self := (try_except (disconnect_if_connected hw cfg) (mret tt) self).1 in
    let d :=
      if signum =? SIGINT
      then {| on_sigint := _original_sigint_handler saved; on_sigterm := on_sigterm d |}
      else if signum =? SIGTERM
      then {| on_sigint := on_sigint d; on_sigterm := _original_sigterm_handler saved |}
      else d in
    (self, d, if signum =? SIGINT then KeyboardInterrupt else SystemExit 1).

(** ** The presets at the level of registers (lines 458-564)

    [connect] above records a preset as one [Preset] call.  Here the three
    presets are the register accesses they make on the buses. *)

Module Preset.

(** The motors an access addresses: all of the bus ([motor_names] omitted),
    one motor, or a list of motors. *)
Inductive selection :=
| AllMotors
| Motor (name : string)
| Motors (names : list string).

(** What is written to a register: an integer, the configured
    [gripper_open_degree], or the array a read returned. *)
Inductive value :=
| IntValue (v : Z)
| FloatValue (x : F64.t)
| ReadValue (v : list Z).

Inductive access :=
| BusRead (r : role) (arm register : string) (motors : selection)
| BusWrite (r : role) (arm register : string) (v : value) (motors : selection).

(** The buses as an oracle over the accesses made so far: whether an access
    raises, what a read returns, and whether the [Torque_Enable] values an arm
    returns differ somewhere from [TorqueMode.DISABLED.value]. *)
Record Buses := {
  bus_raises : list access → access → bool;
  read_value : list access → role → string → string → selection → list Z;
  torque_enabled : list access → role → string → bool
}.

(** Presets run on the trace of accesses and return or raise. *)
Definition B (A : Type) : Type := list access → list access * result A.

#[export] Instance B_ret : MRet B := λ A a trace, (trace, Ok a).
#[export] Instance B_bind : MBind B := λ A B k m trace,
  match m trace with
  | (trace, Ok a) => k a trace
  | (trace, Raise e) => (trace, Raise e)
  end.

Definition fail {A} (e : exn) : B A := λ trace, (trace, Raise e).

Fixpoint for_arms {A} (l : list A) (body : A → B unit) : B unit :=
  match l with
  | [] => mret tt
  | x :: l => _ ← body x; for_arms l body
  end.

Section Presets.

Variable buses : Buses.
Variable cfg : ManipulatorRobotConfig.

Definition access_bus (c : access) : B unit := λ trace,
  if bus_raises buses trace c
  then (trace ++ [c], Raise (DeviceError "bus"))
  else (trace ++ [c], Ok tt).

(** [arm.write(register, v, motors)] *)
Definition write (r : role) (arm register : string) (v : value) (motors : selection)
  : B unit :=
  access_bus (BusWrite r arm register v motors).

(** [arm.read(register, motors)] *)
Definition read (r : role) (arm register : string) (motors : selection) : B (list Z) :=
  λ trace,
    (_ ← access_bus (BusRead r arm register motors);
     mret (read_value buses trace r arm register motors)) trace.


(** [[name for name in arm.motor_names if name != "gripper"]] *)
Definition all_motors_except_gripper (arm : MotorsBus) : list string :=
  filter (λ name, name ≠ "gripper") (motor_names arm).

(** Lines 468-480 and 527-538: extended position mode for all motors but the
    gripper, current-based position mode for the gripper. *)
Definition set_operating_modes (r : role) (name : string) (arm : MotorsBus) : B unit :=
  _ ← (if (0 <? length (all_motors_except_gripper arm))%nat
       then write r name "Operating_Mode" (IntValue 4) (Motors (all_motors_except_gripper arm))
       else mret tt);
  write r name "Operating_Mode" (IntValue 5) (Motor "gripper").



(** [set_shadow_] of [set_aloha_robot_preset] (lines 501-511) *)
Definition set_shadow_ (r : role) (name : string) (arm : MotorsBus) : B unit :=
  _ ← (if bool_decide ("shoulder_shadow" ∈ motor_names arm) then
         shoulder_idx ← read r name "ID" (Motor "shoulder");
         write r name "Secondary_ID" (ReadValue shoulder_idx) (Motor "shoulder_shadow")
       else mret tt);
  if bool_decide ("elbow_shadow" ∈ motor_names arm) then
    elbow_idx ← read r name "ID" (Motor "elbow");
    write r name "Secondary_ID" (ReadValue elbow_idx) (Motor "elbow_shadow")
  else mret tt.

(** [set_aloha_robot_preset] (lines 500-547); the warning of lines 543-547
    changes nothing. *)
Definition set_aloha_robot_preset : B unit :=
  _ ← for_arms (follower_arms cfg) (λ '(name, arm), set_shadow_ follower name arm);
  _ ← for_arms (leader_arms cfg) (λ '(name, arm), set_shadow_ leader name arm);
  for_arms (follower_arms cfg) (λ '(name, arm),
    _ ← write follower name "Velocity_Limit" (IntValue 131) AllMotors;
    set_operating_modes follower name arm).

(** [set_so100_robot_preset] (lines 549-564) *)
Definition set_so100_robot_preset : B unit :=
  for_arms (follower_arms cfg) (λ '(name, _),
    _ ← write follower name "Mode" (IntValue 0) AllMotors;
    _ ← write follower name "P_Coefficient" (IntValue 16) AllMotors;
    _ ← write follower name "I_Coefficient" (IntValue 0) AllMotors;
    _ ← write follower name "D_Coefficient" (IntValue 32) AllMotors;
    _ ← write follower name "Lock" (IntValue 0) AllMotors;
    _ ← write follower name "Maximum_Acceleration" (IntValue 254) AllMotors;
    write follower name "Acceleration" (IntValue 254) AllMotors).

End Presets.

(** The writes of [set_so100_robot_preset] to the followers [names] when no
    access raises. *)
Definition so100_writes (names : list string) : list access :=
  names ≫= λ name,
    (λ '(register, v), BusWrite follower name register (IntValue v) AllMotors)
      <$> [ ("Mode", 0); ("P_Coefficient", 16); ("I_Coefficient", 0);
            ("D_Coefficient", 32); ("Lock", 0); ("Maximum_Acceleration", 254);
            ("Acceleration", 254) ].

(** What a preset run adds to the trace satisfies [P], whatever its
    outcome. *)
Definition adds {A} (P : list access → Prop) (m : B A) : Prop :=
  ∀ trace trace' r, m trace = (trace', r) → ∃ new, trace' = trace ++ new ∧ P new.

Definition closed (P : list access → Prop) : Prop :=
  P [] ∧ ∀ l1 l2, P l1 → P l2 → P (l1 ++ l2).

Definition register (c : access) : string :=
  match c with
  | BusRead _ _ register _ | BusWrite _ _ register _ _ => register
  end.

(** The same for a property [P trace new] of what is added to [trace]. *)
Definition adds_at {A} (P : list access → list access → Prop) (m : B A) : Prop :=
  ∀ trace trace' r, m trace = (trace', r) → ∃ new, trace' = trace ++ new ∧ P trace new.

Definition closed_at (P : list access → list access → Prop) : Prop :=
  (∀ trace, P trace [])
  ∧ ∀ trace l1 l2, P trace l1 → P (trace ++ l1) l2 → P trace (l1 ++ l2).

(** In what is added to [trace], every write of a [Secondary_ID] comes right
    after a read of the [ID] of a joint of the same arm, carries the value
    that this read returned, and goes to the shadow motor of that joint. *)
Inductive shadows_follow (buses : Buses) : list access → list access → Prop :=
| shadows_nil trace : shadows_follow buses trace []
| shadows_other trace c l :
    register c ≠ "Secondary_ID" →
    shadows_follow buses (trace ++ [c]) l →
    shadows_follow buses trace (c :: l)
| shadows_pair trace r arm joint c l :
    c = BusWrite r arm "Secondary_ID"
          (ReadValue (read_value buses trace r arm "ID" (Motor joint)))
          (Motor (joint +:+ "_shadow")) →
    shadows_follow buses (trace ++ [BusRead r arm "ID" (Motor joint); c]) l →
    shadows_follow buses trace (BusRead r arm "ID" (Motor joint) :: c :: l).

(** The arm and the role an access addresses. *)
Definition target (c : access) : role * string :=
  match c with
  | BusRead r arm _ _ | BusWrite r arm _ _ _ => (r, arm)
  end.

Definition is_write (c : access) : bool :=
  match c with
  | BusWrite _ _ _ _ _ => true
  | BusRead _ _ _ _ => false
  end.

(** A write of extended position mode that includes the gripper or no motor
    at all. *)
Definition bad_mode_write (c : access) : bool :=
  match c with
  | BusWrite _ _ "Operating_Mode" (IntValue 4) (Motors names) =>
      bool_decide ("gripper" ∈ names) || bool_decide (names = [])
  | BusWrite _ _ "Operating_Mode" (IntValue 4) _ => true
  | _ => false
  end.

End Preset.

(** * Properties *)

#[local] Set Warnings "-clear-no-such-hyp".

(** ** Order facts on floats *)

Lemma SFcompare_refl x : F32.is_nan x = false → SFcompare x x = Some Eq.
Proof.
  destruct x as [s|s| |s m e]; simpl; try done; try by destruct s.
  intros _. rewrite Z.compare_refl, Pos.compare_cont_refl. by destruct s.
Qed.

Lemma SFcompare_antisym x y c :
  SFcompare x y = Some c → SFcompare y x = Some (CompOpp c).
Proof.
  destruct x as [s1|s1| |s1 m1 e1], y as [s2|s2| |s2 m2 e2]; simpl;
    try discriminate; intros [= <-]; try (by destruct s1); try (by destruct s2);
    try (by destruct s1, s2).
  destruct s1, s2; simpl; try done;
    rewrite (Z.compare_antisym e1 e2); destruct (e1 ?= e2); simpl; try done;
    rewrite (Pos.compare_cont_antisym m1 m2 Eq); simpl;
    by destruct (Pos.compare_cont Eq m1 m2).
Qed.

Lemma SFcompare_defined x y :
  F32.is_nan x = false → F32.is_nan y = false → is_Some (SFcompare x y).
Proof. destruct x, y; simpl; try done; eauto. Qed.

Lemma leb_refl x : F32.is_nan x = false → F32.leb x x = true.
Proof. intros H. unfold F32.leb, SFleb. by rewrite SFcompare_refl. Qed.

Lemma ltb_false_leb x y :
  F32.is_nan x = false → F32.is_nan y = false →
  F32.ltb x y = false → F32.leb y x = true.
Proof.
  intros Hx Hy. unfold F32.ltb, F32.leb, SFltb, SFleb.
  destruct (SFcompare_defined x y Hx Hy) as [c Hc].
  rewrite Hc, (SFcompare_antisym _ _ _ Hc). by destruct c.
Qed.

Lemma leb_ltb_false x y : F32.leb x y = true → F32.ltb y x = false.
Proof.
  unfold F32.ltb, F32.leb, SFltb, SFleb.
  destruct (SFcompare x y) as [c|] eqn:Hc; [|done].
  rewrite (SFcompare_antisym _ _ _ Hc). by destruct c.
Qed.

Lemma ltb_zero_not_nan b : F32.ltb F32.zero b = true → F32.is_nan b = false.
Proof. by destruct b. Qed.

Lemma neg_leb_pos b : F32.ltb F32.zero b = true → F32.leb (F32.neg b) b = true.
Proof. destruct b as [s|s| |s m e]; try done; by destruct s. Qed.

Lemma is_nan_neg b : F32.is_nan (F32.neg b) = F32.is_nan b.
Proof. by destruct b. Qed.

(** The clamped delta of one axis. *)
Lemma clamp_axis d b :
  F32.is_nan d = false → F32.ltb F32.zero b = true →
  let sd := F32.maximum (F32.minimum d b) (F32.neg b) in
  F32.leb (F32.neg b) sd = true ∧ F32.leb sd b = true ∧
  (F32.leb (F32.neg b) d = true → F32.leb d b = true → sd = d).
Proof.
  intros Hd Hb. pose proof (ltb_zero_not_nan _ Hb) as Hnb.
  pose proof (neg_leb_pos _ Hb) as Hnp.
  assert (Hnn : F32.is_nan (F32.neg b) = false) by by rewrite is_nan_neg.
  unfold F32.minimum. rewrite Hd, Hnb. simpl.
  set (m := if F32.ltb b d then b else d).
  assert (Hm : F32.is_nan m = false) by (unfold m; by destruct (F32.ltb b d)).
  assert (Hmb : F32.leb m b = true).
  { unfold m. destruct (F32.ltb b d) eqn:E; [by apply leb_refl|by apply ltb_false_leb]. }
  unfold F32.maximum. rewrite Hm, Hnn. simpl.
  split_and!.
  - destruct (F32.ltb m (F32.neg b)) eqn:E; [by apply leb_refl|by apply ltb_false_leb].
  - by destruct (F32.ltb m (F32.neg b)).
  - intros H1 H2. unfold m. rewrite (leb_ltb_false _ _ H2).
    by rewrite (leb_ltb_false _ _ H1).
Qed.

Lemma broadcast_vv_same f xs ys :
  length xs = length ys → broadcast_vv f xs ys = Ok (zip_with f xs ys).
Proof. intros H. unfold broadcast_vv. by rewrite H, Nat.eqb_refl. Qed.

Lemma ensure_safe_goal_position_zip goal present b :
  length goal = length present →
  match b with PyList bs => length bs = length goal | PyFloat _ => True end →
  ensure_safe_goal_position goal present b =
    Ok (zip_with F32.add present
          (safe_diffs (zip_with F32.sub goal present) (torch_tensor b))).
Proof.
  intros Hlen Hb. unfold ensure_safe_goal_position.
  rewrite broadcast_vv_same by done. simpl.
  destruct b as [y|bs]; simpl.
  - rewrite broadcast_vv_same; [done|].
    rewrite !length_fmap, length_zip_with. lia.
  - rewrite broadcast_vv_same by (rewrite length_zip_with, length_fmap; lia). simpl.
    rewrite broadcast_vv_same
      by (rewrite length_zip_with, length_zip_with, !length_fmap; lia).
    simpl. rewrite broadcast_vv_same; [done|].
    rewrite !length_zip_with, !length_fmap. lia.
Qed.

Lemma safe_diffs_lookup diff b i d bi :
  diff !! i = Some d → bound_at b i = Some bi →
  safe_diffs diff b !! i = Some (F32.maximum (F32.minimum d bi) (F32.neg bi)).
Proof.
  intros Hd Hb. destruct b as [y|ys]; simpl in *.
  - injection Hb as ->. by rewrite !list_lookup_fmap, Hd.
  - rewrite !lookup_zip_with, list_lookup_fmap, Hd, Hb. done.
Qed.

Lemma safe_diffs_length diff b :
  match b with PerAxis ys => length ys = length diff | Scalar _ => True end →
  length (safe_diffs diff b) = length diff.
Proof.
  destruct b as [y|ys]; simpl; intros H.
  - by rewrite !length_fmap.
  - rewrite !length_zip_with, length_fmap. lia.
Qed.

(** C1 (amended).  For binary32 tensors [goal] and [present] of the same
    length and a bound that is positive once converted by [torch.tensor] (one
    scalar, or one bound per axis), when no delta [goal - present] is NaN,
    [ensure_safe_goal_position] returns a tensor of that length whose element
    [i] is [present_i + d_i], a single rounded addition, where the clamped
    delta [d_i] lies in [[-bound_i, bound_i]] and is the requested delta
    [goal_i - present_i] itself whenever that delta already lies there. *)
Theorem ensure_safe_goal_position_clamps goal present b :
  length goal = length present →
  match b with PyList bs => length bs = length goal | PyFloat _ => True end →
  (∀ i bi, bound_at (torch_tensor b) i = Some bi → F32.ltb F32.zero bi = true) →
  (∀ i g p, goal !! i = Some g → present !! i = Some p →
            F32.is_nan (F32.sub g p) = false) →
  ∃ safe_goal_pos,
    ensure_safe_goal_position goal present b = Ok safe_goal_pos ∧
    length safe_goal_pos = length goal ∧
    ∀ i g p bi,
      goal !! i = Some g → present !! i = Some p →
      bound_at (torch_tensor b) i = Some bi →
      ∃ safe_diff,
        safe_goal_pos !! i = Some (F32.add p safe_diff) ∧
        F32.leb (F32.neg bi) safe_diff = true ∧
        F32.leb safe_diff bi = true ∧
        (F32.leb (F32.neg bi) (F32.sub g p) = true →
         F32.leb (F32.sub g p) bi = true →
         safe_diff = F32.sub g p).
Proof.
  intros Hlen Hshape Hpos Hnan. eexists. split; [by apply ensure_safe_goal_position_zip|].
  assert (Hl : length (safe_diffs (zip_with F32.sub goal present) (torch_tensor b))
               = length goal).
  { rewrite safe_diffs_length; [rewrite length_zip_with; lia|].
    destruct b; simpl; [done|]. rewrite length_fmap, length_zip_with. lia. }
  split; [rewrite length_zip_with; lia|].
  intros i g p bi Hg Hp Hb.
  assert (Hd : zip_with F32.sub goal present !! i = Some (F32.sub g p))
    by by rewrite lookup_zip_with, Hg, Hp.
  pose proof (safe_diffs_lookup _ _ _ _ _ Hd Hb) as Hsd.
  destruct (clamp_axis (F32.sub g p) bi (Hnan _ _ _ Hg Hp) (Hpos _ _ Hb)) as (H1 & H2 & H3).
  eexists. split; [by rewrite lookup_zip_with, Hp, Hsd|]. done.
Qed.

Lemma ensure_safe_goal_position_clamps_witness :
  ∃ safe_goal_pos,
    ensure_safe_goal_position [f32_150] [f32_100] (PyFloat py_0_3) = Ok safe_goal_pos ∧
    length safe_goal_pos = 1%nat.
Proof.
  destruct (ensure_safe_goal_position_clamps [f32_150] [f32_100] (PyFloat py_0_3))
    as (safe & H1 & H2 & _).
  - reflexivity.
  - exact I.
  - intros i bi [= <-]. reflexivity.
  - intros [|[|i]] g p; simpl; try discriminate. intros [= <-] [= <-]. reflexivity.
  - exists safe. split; assumption.
Defined.

(** The bound on the difference is not a bound on the returned position once
    it is added back in binary32: with goal 150, present position 100 and
    bound 0.3 the returned position is 100.30000305..., further from the
    present position than the bound, both exactly and in binary32
    arithmetic. *)
Lemma clamp_exceeds_bound :
  ∃ r, ensure_safe_goal_position [f32_150] [f32_100] (PyFloat py_0_3) = Ok [r] ∧
       F32.valid r = true ∧
       (float_value py_0_3 < Qabs (float_value r - float_value f32_100))%Q ∧
       F32.leb (F32.abs (F32.sub r f32_100)) (f32_of_float py_0_3) = false.
Proof.
  exists (S754_finite false 13146522 (-17)). split_and!; reflexivity.
Qed.

(** C8.  With exactly one tactile sensor, of type digit and named fingertip,
    the tactile part of the feature schema has exactly five keys: serial
    number (string, shape (1,)), frame index (int64, (1,)), send and receive
    timestamps (float64, (1,)) and
    [observation.tactile.digit.fingertip.tactile_image] of shape (240, 320, 3)
    and dtype uint8; these are the entries of [features] under those keys, and
    there is no resultant-force or resultant-moment key.  The schema is a
    function of the configuration alone: [tactile_features] takes no device
    oracle and no robot state. *)
Theorem tactile_features_digit_fingertip cfg sensor :
  tactile_sensors cfg = [("fingertip", sensor)] →
  type (config sensor) = Some "digit" →
  tactile_features cfg =
    list_to_map
      [ ("observation.tactile.digit.fingertip.sensor_sn", mk_feature "string" [1%nat] None);
        ("observation.tactile.digit.fingertip.frame_index", mk_feature "int64" [1%nat] None);
        ("observation.tactile.digit.fingertip.send_timestamp",
         mk_feature "float64" [1%nat] None);
        ("observation.tactile.digit.fingertip.recv_timestamp",
         mk_feature "float64" [1%nat] None);
        ("observation.tactile.digit.fingertip.tactile_image",
         mk_feature "uint8" [240; 320; 3]%nat (Some ["height"; "width"; "channel"])) ]
  ∧ size (tactile_features cfg) = 5%nat
  ∧ (∀ k d, tactile_features cfg !! k = Some d → features cfg !! k = Some d)
  ∧ tactile_features cfg !! "observation.tactile.digit.fingertip.resultant_force" = None
  ∧ tactile_features cfg !! "observation.tactile.digit.fingertip.resultant_moment" = None.
Proof.
  intros Hs Ht.
  assert (H : tactile_features cfg =
    list_to_map
      [ ("observation.tactile.digit.fingertip.sensor_sn", mk_feature "string" [1%nat] None);
        ("observation.tactile.digit.fingertip.frame_index", mk_feature "int64" [1%nat] None);
        ("observation.tactile.digit.fingertip.send_timestamp",
         mk_feature "float64" [1%nat] None);
        ("observation.tactile.digit.fingertip.recv_timestamp",
         mk_feature "float64" [1%nat] None);
        ("observation.tactile.digit.fingertip.tactile_image",
         mk_feature "uint8" [240; 320; 3]%nat (Some ["height"; "width"; "channel"])) ]).
  { unfold tactile_features. rewrite Hs. simpl.
    unfold sensor_features, sensor_type_of. rewrite Ht. vm_compute. reflexivity. }
  split; [exact H|]. split_and!.
  - rewrite H. reflexivity.
  - intros k d Hk. unfold features. by apply lookup_union_Some_l.
  - rewrite H. reflexivity.
  - rewrite H. reflexivity.
Qed.

(** ** Running methods *)

Lemma extend_nil self : extend self [] = self.
Proof. destruct self. unfold extend. simpl. by rewrite app_nil_r. Qed.

Lemma extend_extend self new1 new2 :
  extend (extend self new1) new2 = extend self (new1 ++ new2).
Proof. unfold extend. simpl. by rewrite app_assoc. Qed.

Lemma device_call_run hw c self :
  device_call hw c self =
    (extend self [c],
     if raises hw (calls self) c then Raise (DeviceError "device") else Ok tt).
Proof. unfold device_call, extend. by destruct (raises hw (calls self) c). Qed.

Lemma preset_call_run hw robot_type self :
  preset_call hw robot_type self =
    (extend self [Preset robot_type],
     if raises hw (calls self) (Preset robot_type)
     then Raise (preset_error hw (calls self)) else Ok tt).
Proof. unfold preset_call, extend. by destruct (raises hw _ _). Qed.

Lemma bind_run {A B} (m : M A) (k : A → M B) self :
  (m ≫= k) self =
    match m self with
    | (self', Ok a) => k a self'
    | (self', Raise e) => (self', Raise e)
    end.
Proof. reflexivity. Qed.

(** A loop whose body always returns, keeps the flag and the logs and issues
    the calls [new x] for element [x]. *)
Lemma for_each_total {A} (body : A → M unit) (P : A → list call → Prop) l :
  (∀ x self, ∃ new, body x self = (extend self new, Ok tt) ∧ P x new) →
  ∀ self, ∃ news, for_each l body self = (extend self (concat news), Ok tt) ∧
                  Forall2 P l news.
Proof.
  intros Hbody. induction l as [|x l IH]; intros self.
  - exists []. simpl. split; [|constructor]. unfold mret, M_ret. by rewrite extend_nil.
  - destruct (Hbody x self) as (new & Hx & HP).
    destruct (IH (extend self new)) as (news & Hl & HPs).
    exists (new :: news). split; [|by constructor].
    simpl. rewrite bind_run, Hx, Hl. simpl. by rewrite extend_extend.
Qed.

Lemma disconnected_app l1 l2 :
  disconnected (l1 ++ l2) = disconnected l1 ++ disconnected l2.
Proof. unfold disconnected. apply omap_app. Qed.

Lemma disconnected_concat (ds : list device) news :
  Forall2 (λ d new, disconnected new = [d]) ds news →
  disconnected (concat news) = ds.
Proof.
  induction 1 as [|d new ds news Hd _ IH]; [done|].
  simpl. rewrite disconnected_app, Hd, IH. done.
Qed.

Lemma try_disconnect hw d self :
  ∃ new, try_except (device_call hw (Disconnect d)) (mret tt) self = (extend self new, Ok tt)
         ∧ disconnected new = [d].
Proof.
  exists [Disconnect d]. split; [|done].
  unfold try_except. rewrite device_call_run.
  by destruct (raises hw (calls self) (Disconnect d)).
Qed.

Lemma force_cleanup_run hw name sensor self :
  ∃ new, force_cleanup hw name sensor self = (extend self new, Ok tt)
         ∧ disconnected new = [].
Proof.
  unfold force_cleanup, try_except.
  destruct (decide (default "unknown" (type (config sensor)) = "gelsight")).
  - rewrite bind_run. rewrite device_call_run.
    exists [KillCaptureProcess name; ResetSensorHandle name].
    destruct (raises hw (calls self) (KillCaptureProcess name)); simpl;
      rewrite device_call_run; simpl;
      destruct (raises hw _ (ResetSensorHandle name)); simpl;
      by rewrite ?extend_extend.
  - rewrite bind_run. simpl. rewrite device_call_run.
    exists [ResetSensorHandle name].
    by destruct (raises hw (calls self) (ResetSensorHandle name)).
Qed.

Lemma try_disconnect_tactile hw name sensor self :
  ∃ new, try_except (device_call hw (Disconnect (Tactile name)))
                    (force_cleanup hw name sensor) self = (extend self new, Ok tt)
         ∧ disconnected new = [Tactile name].
Proof.
  unfold try_except. rewrite device_call_run.
  destruct (raises hw (calls self) (Disconnect (Tactile name))).
  - destruct (force_cleanup_run hw name sensor (extend self [Disconnect (Tactile name)]))
      as (new & -> & Hn).
    exists (Disconnect (Tactile name) :: new). rewrite extend_extend. split; [done|].
    change (disconnected ([Disconnect (Tactile name)] ++ new) = [Tactile name]).
    by rewrite disconnected_app, Hn.
  - by exists [Disconnect (Tactile name)].
Qed.

Lemma Forall2_fmap_fst {A B C} (f : A → C) (P : C → list call → Prop)
    (l : list (A * B)) news :
  Forall2 (λ '(a, _) new, P (f a) new) l news → Forall2 P (f <$> l.*1) news.
Proof.
  induction 1 as [|[a b] new l news H _ IH]; simpl; constructor; auto.
Qed.

(** C7.  On a connected robot [disconnect] returns normally whatever the
    devices do: the disconnect calls it issues are exactly one per registered
    device, in the order followers, leaders, cameras, tactile sensors, also
    when some of them raise, and the robot ends with [is_connected = false]. *)
Theorem disconnect_total hw cfg force self :
  is_connected self = true →
  ∃ new,
    disconnect hw cfg force self = (mk_robot false (logs self) (calls self ++ new), Ok tt)
    ∧ disconnected new = registered_devices cfg.
Proof.
  intros Hc. unfold disconnect.
  rewrite bind_run. unfold require_connected at 1. rewrite Hc.
  destruct (for_each_total
              (λ '(name, _), try_except (device_call hw (Disconnect (Arm follower name))) (mret tt))
              (λ '(name, _) new, disconnected new = [Arm follower name])
              (follower_arms cfg)) with (self := self) as (n1 & E1 & F1).
  { intros [name arm] s. apply try_disconnect. }
  rewrite bind_run, E1.
  destruct (for_each_total
              (λ '(name, _), try_except (device_call hw (Disconnect (Arm leader name))) (mret tt))
              (λ '(name, _) new, disconnected new = [Arm leader name])
              (leader_arms cfg)) with (self := extend self (concat n1)) as (n2 & E2 & F2).
  { intros [name arm] s. apply try_disconnect. }
  rewrite bind_run, E2.
  destruct (for_each_total
              (λ '(name, _), try_except (device_call hw (Disconnect (Cam name))) (mret tt))
              (λ '(name, _) new, disconnected new = [Cam name])
              (cameras cfg)) with (self := extend (extend self (concat n1)) (concat n2))
    as (n3 & E3 & F3).
  { intros [name arm] s. apply try_disconnect. }
  rewrite bind_run, E3.
  destruct (for_each_total
              (λ '(name, sensor), try_except (device_call hw (Disconnect (Tactile name)))
                                    (force_cleanup hw name sensor))
              (λ '(name, _) new, disconnected new = [Tactile name])
              (tactile_sensors cfg))
    with (self := extend (extend (extend self (concat n1)) (concat n2)) (concat n3))
    as (n4 & E4 & F4).
  { intros [name sensor] s. apply try_disconnect_tactile. }
  rewrite bind_run, E4.
  exists (concat n1 ++ concat n2 ++ concat n3 ++ concat n4). split.
  - unfold set_connected, extend. simpl. by rewrite <- !app_assoc.
  - rewrite !disconnected_app. unfold registered_devices.
    rewrite (disconnected_concat (Arm follower <$> (follower_arms cfg).*1)),
            (disconnected_concat (Arm leader <$> (leader_arms cfg).*1)),
            (disconnected_concat (Cam <$> (cameras cfg).*1)),
            (disconnected_concat (Tactile <$> (tactile_sensors cfg).*1)); [done|..].
    + apply (Forall2_fmap_fst Tactile (λ d new, disconnected new = [d])).
      eapply Forall2_impl; [exact F4|]. by intros [??] ?.
    + apply (Forall2_fmap_fst Cam (λ d new, disconnected new = [d])).
      eapply Forall2_impl; [exact F3|]. by intros [??] ?.
    + apply (Forall2_fmap_fst (Arm leader) (λ d new, disconnected new = [d])).
      eapply Forall2_impl; [exact F2|]. by intros [??] ?.
    + apply (Forall2_fmap_fst (Arm follower) (λ d new, disconnected new = [d])).
      eapply Forall2_impl; [exact F1|]. by intros [??] ?.
Qed.

Lemma bind_ok_inv {A B} (m : M A) (k : A → M B) self self' b :
  (m ≫= k) self = (self', Ok b) →
  ∃ self1 a, m self = (self1, Ok a) ∧ k a self1 = (self', Ok b).
Proof.
  rewrite bind_run. destruct (m self) as [self1 [a|e]]; [eauto|discriminate].
Qed.

(** C9 (the code at the failing input).  A robot whose only configured device
    is a tactile sensor is refused by [connect] with the error for a robot
    without any device: the guard of lines 379-382 looks at the leader arms,
    the follower arms and the cameras only. *)
Theorem connect_tactile_only_raises hw history :
  tactile_sensors tactile_only ≠ [] ∧
  connect hw tactile_only (init history) = (init history, Raise ValueError).
Proof. split; [discriminate|reflexivity]. Qed.

(** C6.  [connect] on a connected robot raises the already-connected error;
    [teleop_step], [capture_observation], [send_action] and [disconnect] on a
    robot that is not connected raise the not-connected error and leave the
    robot untouched; a [connect] that returns leaves the robot connected, so a
    second [connect] raises; a [disconnect] that returns leaves it
    disconnected, so a second [disconnect] raises the not-connected error. *)
Theorem lifecycle_errors hw cfg self :
  (is_connected self = true →
   connect hw cfg self = (self, Raise RobotDeviceAlreadyConnectedError))
  ∧ (is_connected self = false →
     ∀ record_data action force,
       teleop_step hw cfg record_data self = (self, Raise RobotDeviceNotConnectedError)
       ∧ capture_observation hw cfg self = (self, Raise RobotDeviceNotConnectedError)
       ∧ send_action hw cfg action self = (self, Raise RobotDeviceNotConnectedError)
       ∧ disconnect hw cfg force self = (self, Raise RobotDeviceNotConnectedError))
  ∧ (∀ self', connect hw cfg self = (self', Ok tt) →
       is_connected self = false ∧ is_connected self' = true
       ∧ connect hw cfg self' = (self', Raise RobotDeviceAlreadyConnectedError))
  ∧ (∀ force self', disconnect hw cfg force self = (self', Ok tt) →
       is_connected self = true ∧ is_connected self' = false
       ∧ ∀ force', disconnect hw cfg force' self'
                   = (self', Raise RobotDeviceNotConnectedError)).
Proof.
  split_and!.
  - intros Hc. unfold connect. by rewrite Hc.
  - intros Hc record_data action force.
    unfold teleop_step, capture_observation, send_action, disconnect.
    rewrite !bind_run. unfold require_connected. by rewrite Hc.
  - intros self'. unfold connect. destruct (is_connected self) eqn:Hc; [discriminate|].
    destruct (_ && _); [discriminate|]. intros H.
    do 6 (apply bind_ok_inv in H as (? & [] & _ & H)).
    unfold set_connected in H. injection H as <-. simpl. done.
  - intros force self' H. unfold disconnect in H.
    apply bind_ok_inv in H as (s1 & [] & Hreq & H).
    unfold require_connected in Hreq.
    destruct (is_connected self) eqn:Hc; [|discriminate].
    do 4 (apply bind_ok_inv in H as (? & [] & _ & H)).
    unfold set_connected in H. injection H as <-. simpl. split_and!; done.
Qed.

Lemma read_arm_run hw r name register self :
  read_arm hw r name register self =
    let value := arm_read hw (calls self) r name register in
    (extend self [Read r name register value],
     if raises hw (calls self) (Read r name register value)
     then Raise (DeviceError "device") else Ok value).
Proof.
  unfold read_arm. simpl. rewrite bind_run, device_call_run.
  by destruct (raises _ _ _).
Qed.

Lemma cap_goal_position_run hw cfg name goal_pos self :
  cap_goal_position hw cfg name goal_pos self =
    match max_relative_target cfg with
    | Some b =>
        let present_pos := arm_read hw (calls self) follower name "Present_Position" in
        (extend self [Read follower name "Present_Position" present_pos],
         if raises hw (calls self) (Read follower name "Present_Position" present_pos)
         then Raise (DeviceError "device")
         else ensure_safe_goal_position goal_pos present_pos b)
    | None => (self, Ok goal_pos)
    end.
Proof.
  unfold cap_goal_position. destruct (max_relative_target cfg) as [b|]; [|done].
  rewrite bind_run, read_arm_run. simpl. by destruct (raises _ _ _).
Qed.

Lemma writes_app l1 l2 : writes (l1 ++ l2) = writes l1 ++ writes l2.
Proof. apply omap_app. Qed.

Lemma concat_segments {A} (sizes : list nat) (l : list A) :
  length l = sum_list sizes → concat (segments sizes l) = l.
Proof.
  revert l. induction sizes as [|n sizes IH]; intros l; simpl.
  - by intros ?%nil_length_inv.
  - intros H. rewrite IH; [apply take_drop|]. rewrite length_drop. lia.
Qed.

Lemma ensure_safe_goal_position_ok goal present b :
  length goal = length present →
  match b with PyList bs => length bs = length goal | PyFloat _ => True end →
  ∃ safe, ensure_safe_goal_position goal present b = Ok safe.
Proof. intros H1 H2. eexists. by apply ensure_safe_goal_position_zip. Qed.

Section SendAction.

Variable hw : Hardware.
Variable cfg : ManipulatorRobotConfig.
Variable action : list f32.
Variable present : string → list f32.

Hypothesis reliable : ∀ history c, arm_io c = true → raises hw history c = false.
Hypothesis fixed : ∀ b, max_relative_target cfg = Some b →
  ∀ name arm, (name, arm) ∈ follower_arms cfg →
    (∀ history, arm_read hw history follower name "Present_Position" = present name)
    ∧ length (present name) = length (motor_names arm)
    ∧ match b with PyList bs => length bs = length (motor_names arm) | PyFloat _ => True end.

Lemma send_loop arms :
  arms ⊆ follower_arms cfg →
  ∀ idx sent self,
    (idx + sum_list (motor_counts arms) ≤ length action)%nat →
    ∃ new goals,
      for_fold arms (idx, idx, sent) (send_body hw cfg action) self
        = (extend self new,
           Ok ((idx + sum_list (motor_counts arms))%nat,
               (idx + sum_list (motor_counts arms))%nat, sent ++ goals))
      ∧ writes new = goal_writes arms.*1 goals
      ∧ Forall2 (λ '(name, seg) goal,
                   capped (max_relative_target cfg) (present name) seg = Ok goal)
                (zip arms.*1 (segments (motor_counts arms) (drop idx action))) goals.
Proof.
  induction arms as [|[name arm] arms IH]; intros Hsub idx sent self Hlen.
  - exists [], []. simpl. rewrite extend_nil, app_nil_r, Nat.add_0_r.
    split_and!; [done|done|constructor].
  - simpl in Hlen.
    assert (Hin : (name, arm) ∈ follower_arms cfg) by (apply Hsub; left).
    assert (Hseg : slice action idx (idx + length (motor_names arm))
                   = take (length (motor_names arm)) (drop idx action)).
    { unfold slice. f_equal. lia. }
    assert (Hseglen : length (take (length (motor_names arm)) (drop idx action))
                      = length (motor_names arm)).
    { rewrite length_take, length_drop. lia. }
    assert (∃ goal new1,
               cap_goal_position hw cfg name
                 (take (length (motor_names arm)) (drop idx action)) self
               = (extend self new1, Ok goal) ∧ writes new1 = []
               ∧ capped (max_relative_target cfg) (present name)
                   (take (length (motor_names arm)) (drop idx action)) = Ok goal)
      as (goal & new1 & Hcap & Hw1 & Hgoal).
    { rewrite cap_goal_position_run.
      destruct (max_relative_target cfg) as [b|] eqn:Hb; simpl.
      - destruct (fixed b eq_refl name arm Hin) as (Hfix & Hpl & Hbl).
        rewrite reliable by done. rewrite Hfix.
        destruct (ensure_safe_goal_position_ok
                    (take (length (motor_names arm)) (drop idx action))
                    (present name) b) as [safe Hsafe].
        + by rewrite Hseglen.
        + destruct b; [done|]. by rewrite Hseglen.
        + exists safe. eexists. split_and!; [by rewrite Hsafe|done|done].
      - eexists _, []. by rewrite extend_nil. }
    destruct (IH (λ x Hx, Hsub x (list_elem_of_further _ _ _ Hx))
                (idx + length (motor_names arm))%nat (sent ++ [goal])
                (extend (extend self new1) [Write follower name "Goal_Position" goal]))
      as (new2 & goals & Hloop & Hw2 & Hall).
    { lia. }
    exists (new1 ++ [Write follower name "Goal_Position" goal] ++ new2), (goal :: goals).
    split_and!.
    + simpl. rewrite bind_run. unfold send_body at 1. rewrite bind_run.
      rewrite Hseg, Hcap. rewrite bind_run. unfold write_arm.
      rewrite device_call_run, reliable by done.
      unfold mret at 1, M_ret at 1.
      etrans; [exact Hloop|]. rewrite !extend_extend. f_equal.
      rewrite <- !app_assoc. simpl. do 3 f_equal; lia.
    + rewrite !writes_app, Hw1, Hw2. done.
    + simpl. constructor; [done|].
      rewrite drop_drop. done.
Qed.

End SendAction.

Lemma capped_none_segments (present : string → list f32) names segs goals :
  Forall2 (λ '(name, seg) goal, capped None (present name) seg = Ok goal)
          (zip names segs) goals →
  length names = length segs → goals = segs.
Proof.
  revert segs goals. induction names as [|n names IH]; intros [|s segs] goals H Hl;
    simpl in *; try discriminate.
  - by inversion H.
  - inversion H as [|? g ? gs Hg Hgs]; subst. injection Hg as <-.
    f_equal. apply IH; [done|lia].
Qed.

Lemma length_segments {A} sizes (l : list A) : length (segments sizes l) = length sizes.
Proof. revert l. induction sizes; intros l; simpl; [done|]. by rewrite IHsizes. Qed.

(** C3.  On a connected robot with at least one follower arm, devices whose
    register accesses do not raise, and an action with one value per follower
    motor, [send_action] cuts the action into segments by the followers' motor
    counts in registry order, writes to each follower's [Goal_Position] the
    capped segment (the segment itself without a bound; [ensure_safe_goal_position]
    of the segment and the follower's present position with a bound, the
    present position being fixed and of the arm's size), and returns the
    concatenation of what it wrote; without a bound this is the action
    itself. *)
Theorem send_action_returns_sent hw cfg self action (present : string → list f32) :
  is_connected self = true →
  follower_arms cfg ≠ [] →
  length action = sum_list (motor_counts (follower_arms cfg)) →
  (∀ history c, arm_io c = true → raises hw history c = false) →
  (∀ b, max_relative_target cfg = Some b →
     ∀ name arm, (name, arm) ∈ follower_arms cfg →
       (∀ history, arm_read hw history follower name "Present_Position" = present name)
       ∧ length (present name) = length (motor_names arm)
       ∧ match b with
         | PyList bs => length bs = length (motor_names arm)
         | PyFloat _ => True
         end) →
  ∃ new sent,
    send_action hw cfg action self = (extend self new, Ok (concat sent))
    ∧ writes new = goal_writes (follower_arms cfg).*1 sent
    ∧ Forall2 (λ '(name, segment) goal,
                 capped (max_relative_target cfg) (present name) segment = Ok goal)
              (zip (follower_arms cfg).*1
                   (segments (motor_counts (follower_arms cfg)) action))
              sent
    ∧ (max_relative_target cfg = None → concat sent = action).
Proof.
  intros Hc Hne Hlen Hrel Hfix.
  destruct (send_loop hw cfg action present Hrel Hfix (follower_arms cfg)
              (λ x Hx, Hx) 0%nat [] self) as (new & sent & Hloop & Hw & Hall).
  { simpl. lia. }
  exists new, sent. rewrite drop_0 in Hall. split_and!; try done.
  - unfold send_action. rewrite bind_run. unfold require_connected at 1. rewrite Hc.
    rewrite bind_run.
    match goal with
    | |- context [for_fold ?l ?s ?b self] =>
        change (for_fold l s b self)
          with (for_fold l (0%nat, 0%nat, []) (send_body hw cfg action) self)
    end.
    rewrite Hloop. simpl. unfold lift, torch_cat.
    destruct sent as [|g sent]; [|done].
    apply Forall2_length in Hall.
    rewrite length_zip, length_fmap, length_segments in Hall.
    unfold motor_counts in Hall. rewrite length_fmap in Hall.
    destruct (follower_arms cfg); [done|simpl in Hall; lia].
  - intros Hnone. rewrite Hnone in Hall.
    assert (sent = segments (motor_counts (follower_arms cfg)) action) as ->.
    { eapply capped_none_segments; [exact Hall|].
      rewrite length_fmap, length_segments. unfold motor_counts. by rewrite length_fmap. }
    by apply concat_segments.
Qed.

(** ** Frame lemmas: which calls a method can add *)

Section Emits.

Variable P : list call → Prop.
Hypothesis P_monoidal : monoidal P.

Lemma emits_ret {A} (a : A) : emits P (mret a : M A).
Proof.
  intros self self' r [= <- _]. exists []. rewrite app_nil_r. split; [done|apply P_monoidal].
Qed.

Lemma emits_pure {A} (f : robot → result A) : emits P (λ self, (self, f self)).
Proof.
  intros self self' r [= <- _]. exists []. rewrite app_nil_r. split; [done|apply P_monoidal].
Qed.

Lemma emits_lift {A} (r : result A) : emits P (lift r).
Proof. apply (emits_pure (λ _, r)). Qed.

Lemma emits_bind {A B} (m : M A) (k : A → M B) :
  emits P m → (∀ a, emits P (k a)) → emits P (m ≫= k).
Proof.
  intros Hm Hk self self' r. rewrite bind_run.
  destruct (m self) as [self1 [a|e]] eqn:E.
  - intros Hka. destruct (Hm _ _ _ E) as (n1 & E1 & H1).
    destruct (Hk a _ _ _ Hka) as (n2 & E2 & H2).
    exists (n1 ++ n2). rewrite E2, E1, app_assoc. split; [done|]. by apply P_monoidal.
  - intros [= <- <-]. eapply Hm, E.
Qed.

Lemma emits_device_call hw c : P [c] → emits P (device_call hw c).
Proof.
  intros Hc self self' r. rewrite device_call_run. intros [= <- _]. by exists [c].
Qed.

Lemma emits_preset_call hw robot_type :
  P [Preset robot_type] → emits P (preset_call hw robot_type).
Proof.
  intros Hc self self' r. rewrite preset_call_run. intros [= <- _].
  by exists [Preset robot_type].
Qed.

Lemma emits_for_each {A} (l : list A) (body : A → M unit) :
  (∀ x, emits P (body x)) → emits P (for_each l body).
Proof.
  intros Hb. induction l as [|x l IH]; simpl; [apply emits_ret|].
  apply emits_bind; auto.
Qed.

Lemma emits_for_fold {A S} (l : list A) (s : S) (body : S → A → M S) :
  (∀ s x, emits P (body s x)) → emits P (for_fold l s body).
Proof.
  intros Hb. revert s. induction l as [|x l IH]; intros s; simpl; [apply emits_ret|].
  apply emits_bind; auto.
Qed.

Lemma emits_read_arm hw r name register :
  (∀ v, P [Read r name register v]) → emits P (read_arm hw r name register).
Proof.
  intros HP self self' res. rewrite read_arm_run. simpl. intros [= <- _].
  eexists. split; [done|]. apply HP.
Qed.

Lemma emits_cap_goal_position hw cfg name goal_pos :
  (∀ v, P [Read follower name "Present_Position" v]) →
  emits P (cap_goal_position hw cfg name goal_pos).
Proof.
  intros HP. unfold cap_goal_position. destruct (max_relative_target cfg).
  - apply emits_bind; [by apply emits_read_arm|]. intros a. apply emits_lift.
  - apply emits_ret.
Qed.

Lemma emits_require_connected : emits P require_connected.
Proof.
  intros self self' r. unfold require_connected.
  destruct (is_connected self); intros [= <- _]; exists []; rewrite app_nil_r;
    (split; [done|apply P_monoidal]).
Qed.

End Emits.

Lemma monoidal_arm_io : monoidal (Forall (λ c, arm_io c = true)).
Proof. split; [constructor|]. intros. by apply Forall_app. Qed.

Lemma monoidal_no_writes : monoidal (λ new, writes new = []).
Proof. split; [done|]. intros l1 l2 H1 H2. by rewrite writes_app, H1, H2. Qed.

(** Without recording, [teleop_step] only touches the arms' registers,
    whatever happens. *)
Lemma teleop_step_arm_io_only hw cfg :
  emits (Forall (λ c, arm_io c = true)) (teleop_step hw cfg false).
Proof.
  pose proof monoidal_arm_io as HP.
  unfold teleop_step.
  apply emits_bind; [done|by apply emits_require_connected|intros _].
  apply emits_bind; [done| |intros leader_pos].
  { apply emits_for_fold; [done|]. intros s [name arm].
    apply emits_bind; [done| |intros; by apply emits_ret].
    apply emits_read_arm. intros v. by repeat constructor. }
  apply emits_bind; [done| |intros fgp; by apply emits_ret].
  apply emits_for_fold; [done|]. intros s [name arm].
  apply emits_bind; [done|by apply emits_lift|intros g0].
  apply emits_bind; [done| |intros g].
  { apply emits_cap_goal_position; [done|]. intros v. by repeat constructor. }
  apply emits_bind; [done| |intros; by apply emits_ret].
  apply emits_device_call. by repeat constructor.
Qed.

(** ** The loops over the arms *)

Lemma read_loop_inv hw r arms :
  ∀ acc self self' positions,
    for_fold arms acc (read_body hw r) self = (self', Ok positions) →
    ∃ new,
      self' = extend self new ∧ writes new = []
      ∧ Forall (λ c, arm_io c = true) new
      ∧ ∀ name,
          (name ∈ arms.*1 →
           ∃ history v, positions !! name = Some v
                        ∧ v = arm_read hw history r name "Present_Position"
                        ∧ Read r name "Present_Position" v ∈ new)
          ∧ (name ∉ arms.*1 → positions !! name = acc !! name).
Proof.
  induction arms as [|[n arm] arms IH]; intros acc self self' positions.
  - intros [= <- <-]. exists []. rewrite extend_nil. split_and!; [done|done|constructor|].
    intros name. split; [by intros ?%elem_of_nil|done].
  - simpl. intros H. apply bind_ok_inv in H as (s1 & acc1 & Hbody & Hrest).
    unfold read_body in Hbody. apply bind_ok_inv in Hbody as (s2 & v & Hread & Hret).
    rewrite read_arm_run in Hread. simpl in Hread.
    destruct (raises hw _ _); [discriminate|]. injection Hread as <- <-.
    injection Hret as <- <-.
    apply IH in Hrest as (new & -> & Hw & Hio & Hpos).
    eexists (_ :: new). rewrite extend_extend. split_and!; [done|done|by constructor|].
    intros name. split.
    + intros Hin. destruct (decide (name ∈ arms.*1)) as [Hr|Hr].
      * destruct (proj1 (Hpos name) Hr) as (h & v & ? & ? & ?).
        exists h, v. split_and!; [done|done|by right].
      * apply elem_of_cons in Hin as [->|?]; [|done].
        rewrite (proj2 (Hpos n) Hr), lookup_insert_eq.
        eexists _, _. split_and!; [done|done|by left].
    + intros Hnin. apply not_elem_of_cons in Hnin as [Hne Hr].
      rewrite (proj2 (Hpos name) Hr). by rewrite lookup_insert_ne.
Qed.

Lemma read_loop_ok hw r arms :
  (∀ history c, arm_io c = true → raises hw history c = false) →
  ∀ acc self, ∃ self' positions,
    for_fold arms acc (read_body hw r) self = (self', Ok positions).
Proof.
  intros Hrel. induction arms as [|[n arm] arms IH]; intros acc self; simpl.
  - by eexists _, _.
  - rewrite bind_run. unfold read_body at 1. rewrite bind_run, read_arm_run. simpl.
    rewrite Hrel by done. apply IH.
Qed.

Lemma capped_by_mono cfg name requested goal new1 new new2 :
  capped_by cfg name requested goal new → capped_by cfg name requested goal (new1 ++ new ++ new2).
Proof.
  unfold capped_by. destruct (max_relative_target cfg); [|done].
  intros (pos & Hin & Hpos). exists pos. split; [|done]. set_solver.
Qed.

Lemma teleop_loop_inv hw cfg leader_pos arms :
  ∀ acc self self' follower_goal_pos,
    for_fold arms acc (teleop_body hw cfg leader_pos) self = (self', Ok follower_goal_pos) →
    ∃ new goals,
      self' = extend self new
      ∧ writes new = goal_writes arms.*1 goals
      ∧ length goals = length arms
      ∧ follower_goal_pos = assign_all (zip arms.*1 goals) acc
      ∧ Forall (λ c, arm_io c = true) new
      ∧ Forall2 (λ name goal, ∃ requested,
                   leader_pos !! name = Some requested
                   ∧ capped_by cfg name requested goal new)
                arms.*1 goals.
Proof.
  induction arms as [|[n arm] arms IH]; intros acc self self' fgp.
  - intros [= <- <-]. exists [], []. rewrite extend_nil.
    split_and!; try done; constructor.
  - simpl. intros H. apply bind_ok_inv in H as (s1 & acc1 & Hbody & Hrest).
    unfold teleop_body in Hbody.
    apply bind_ok_inv in Hbody as (s2 & requested & Hget & Hbody).
    unfold lift, getitem in Hget.
    destruct (leader_pos !! n) as [l|] eqn:Hl; [|discriminate].
    injection Hget as <- <-.
    apply bind_ok_inv in Hbody as (s3 & goal & Hcap & Hbody).
    apply bind_ok_inv in Hbody as (s4 & [] & Hwrite & Hret).
    injection Hret as <- <-.
    unfold write_arm in Hwrite. rewrite device_call_run in Hwrite.
    injection Hwrite as <- _.
    assert (∃ new1, s3 = extend self new1 ∧ writes new1 = []
                    ∧ Forall (λ c, arm_io c = true) new1
                    ∧ capped_by cfg n l goal new1) as (new1 & -> & Hw1 & Hio1 & Hc1).
    { rewrite cap_goal_position_run in Hcap. unfold capped_by.
      destruct (max_relative_target cfg) as [b|].
      - simpl in Hcap. destruct (raises hw _ _); [discriminate|].
        injection Hcap as <- Hsafe. eexists. split_and!; [done|done|by repeat constructor|].
        eexists. split; [by left|done].
      - injection Hcap as <- <-. exists []. by rewrite extend_nil. }
    apply IH in Hrest as (new2 & goals & -> & Hw2 & Hlen & -> & Hio2 & Hall).
    exists (new1 ++ [Write follower n "Goal_Position" goal] ++ new2), (goal :: goals).
    rewrite !extend_extend. split_and!; try done.
    + rewrite !writes_app, Hw1, Hw2. done.
    + simpl. by rewrite Hlen.
    + apply Forall_app. split; [done|]. constructor; done.
    + constructor.
      * exists l. split; [done|].
        apply (capped_by_mono _ _ _ _ [] new1 (Write follower n "Goal_Position" goal :: new2)) in Hc1.
        done.
      * eapply Forall2_impl; [exact Hall|]. intros name g (req & ? & Hc).
        exists req. split; [done|].
        apply (capped_by_mono _ _ _ _ (new1 ++ [Write follower n "Goal_Position" goal]) new2 []) in Hc.
        by rewrite app_nil_r, <- app_assoc in Hc.
Qed.

Lemma teleop_loop_ok hw cfg leader_pos arms :
  (∀ history c, arm_io c = true → raises hw history c = false) →
  (∀ name arm, (name, arm) ∈ arms →
     ∃ requested, leader_pos !! name = Some requested
       ∧ ∀ b, max_relative_target cfg = Some b →
           length requested = length (motor_names arm)
           ∧ (∀ history, length (arm_read hw history follower name "Present_Position")
                         = length (motor_names arm))
           ∧ match b with
             | PyList bs => length bs = length (motor_names arm)
             | PyFloat _ => True
             end) →
  ∀ acc self, ∃ self' follower_goal_pos,
    for_fold arms acc (teleop_body hw cfg leader_pos) self = (self', Ok follower_goal_pos).
Proof.
  intros Hrel. induction arms as [|[n arm] arms IH]; intros Harms acc self; simpl.
  - by eexists _, _.
  - destruct (Harms n arm) as (l & Hl & Hb); [by left|].
    rewrite bind_run. unfold teleop_body at 1.
    rewrite bind_run. unfold lift, getitem. rewrite Hl. rewrite bind_run.
    rewrite cap_goal_position_run.
    destruct (max_relative_target cfg) as [b|] eqn:Hmrt.
    + destruct (Hb b eq_refl) as (Hlen & Hread & Hfit). simpl.
      rewrite Hrel by done.
      destruct (ensure_safe_goal_position_ok l
                  (arm_read hw (calls self) follower n "Present_Position") b)
        as [safe ->].
      * by rewrite Hread.
      * destruct b; [done|]. by rewrite Hlen.
      * rewrite bind_run. unfold write_arm. rewrite device_call_run, Hrel by done.
        apply IH. intros name a Hin. apply Harms. by right.
    + rewrite bind_run. unfold write_arm. rewrite device_call_run, Hrel by done.
      apply IH. intros name a Hin. apply Harms. by right.
Qed.

(** C5.  On a connected robot whose followers each have a leader of the same
    name, with devices whose register accesses do not raise (and, when a bound
    is configured, poses of the arms' size), [teleop_step(record_data=False)]
    returns [None]; the writes it performs are exactly one [Goal_Position]
    write per follower, in registry order; and every call it issues is a read
    or write of an arm register, so no camera and no tactile sensor is
    read. *)
Theorem teleop_step_without_recording hw cfg self :
  is_connected self = true →
  (∀ history c, arm_io c = true → raises hw history c = false) →
  (follower_arms cfg).*1 ⊆ (leader_arms cfg).*1 →
  (∀ b, max_relative_target cfg = Some b →
     ∀ name arm, (name, arm) ∈ follower_arms cfg →
       (∀ history, length (arm_read hw history leader name "Present_Position")
                   = length (motor_names arm))
       ∧ (∀ history, length (arm_read hw history follower name "Present_Position")
                     = length (motor_names arm))
       ∧ match b with
         | PyList bs => length bs = length (motor_names arm)
         | PyFloat _ => True
         end) →
  ∃ new goals,
    teleop_step hw cfg false self = (extend self new, Ok None)
    ∧ writes new = goal_writes (follower_arms cfg).*1 goals
    ∧ length goals = length (follower_arms cfg)
    ∧ Forall (λ c, arm_io c = true) new.
Proof.
  intros Hc Hrel Hpair Hfit.
  destruct (read_loop_ok hw leader (leader_arms cfg) Hrel ∅ self) as (s1 & lp & Hread).
  destruct (read_loop_inv _ _ _ _ _ _ _ Hread) as (new1 & -> & Hw1 & Hio1 & Hlp).
  destruct (teleop_loop_ok hw cfg lp (follower_arms cfg) Hrel) with (acc := (∅ : gmap string (list f32)))
    (self := extend self new1) as (s2 & fgp & Hloop).
  { intros name arm Hin.
    assert (Hn : name ∈ (leader_arms cfg).*1).
    { apply Hpair. apply list_elem_of_fmap. by exists (name, arm). }
    destruct (proj1 (Hlp name) Hn) as (h & v & Hv & -> & _).
    eexists. split; [done|]. intros b Hb.
    destruct (Hfit b Hb name arm Hin) as (Hl & Hf & Hbs). done. }
  destruct (teleop_loop_inv _ _ _ _ _ _ _ _ Hloop) as (new2 & goals & -> & Hw2 & Hlen & _ & Hio2 & _).
  exists (new1 ++ new2), goals. split_and!.
  - unfold teleop_step. rewrite bind_run. unfold require_connected at 1. rewrite Hc.
    rewrite bind_run.
    match goal with
    | |- context [for_fold (leader_arms cfg) ?s ?b self] =>
        change (for_fold (leader_arms cfg) s b self)
          with (for_fold (leader_arms cfg) (∅ : gmap string (list f32)) (read_body hw leader) self)
    end.
    rewrite Hread. rewrite bind_run.
    match goal with
    | |- context [for_fold (follower_arms cfg) ?s ?b ?x] =>
        change (for_fold (follower_arms cfg) s b x)
          with (for_fold (follower_arms cfg) (∅ : gmap string (list f32))
                  (teleop_body hw cfg lp) x)
    end.
    rewrite Hloop. simpl. by rewrite extend_extend.
  - by rewrite writes_app, Hw1, Hw2.
  - done.
  - by apply Forall_app.
Qed.

(** ** The capture stage issues no writes *)

Section Capture.

Variable P : list call → Prop.
Hypothesis P_monoidal : monoidal P.
Hypothesis P_reads : ∀ c, writes [c] = [] → P [c].

Variable hw : Hardware.
Variable cfg : ManipulatorRobotConfig.

Lemma P_read_calls (l : list call) : writes l = [] → P l.
Proof.
  induction l as [|c l IH]; [intros _; apply P_monoidal|].
  intros H. change (c :: l) with ([c] ++ l) in *. rewrite writes_app in H.
  apply app_eq_nil in H as [H1 H2]. apply P_monoidal; auto.
Qed.

Lemma emits_read_follower_positions : emits P (read_follower_positions hw cfg).
Proof.
  unfold read_follower_positions. apply emits_for_fold; [done|]. intros s [name arm].
  apply emits_bind; [done| |intros; by apply emits_ret].
  apply emits_read_arm. intros v. by apply P_reads.
Qed.

Lemma emits_read_cameras : emits P (read_cameras hw cfg).
Proof.
  unfold read_cameras. apply emits_for_fold; [done|]. intros s [name cam].
  apply emits_bind; [done| |intros; by apply emits_ret].
  intros self self' r. rewrite bind_run, device_call_run.
  destruct (raises hw _ _); intros [= <- _]; exists [AsyncRead name];
    (split; [done|by apply P_reads]).
Qed.

Lemma emits_get_tactile_observation : emits P (_get_tactile_observation hw cfg).
Proof.
  intros self self' r. unfold _get_tactile_observation. rewrite bind_run.
  unfold read_tactile_sensors. simpl. intros [= <- _]. simpl.
  eexists. split; [done|]. apply P_read_calls.
  induction (tactile_sensors cfg).*1; [done|]. done.
Qed.

Lemma emits_set_log k v : emits P (set_log k v).
Proof.
  intros self self' r [= <- _]. exists []. simpl. rewrite app_nil_r.
  split; [done|apply P_monoidal].
Qed.

Lemma emits_check_tactile_errors : emits P (check_tactile_errors hw cfg).
Proof.
  unfold check_tactile_errors. apply emits_for_each; [done|]. intros [name sensor].
  destruct (has_has_critical_error sensor); [|by apply emits_ret].
  apply emits_bind; [done| |intros critical].
  { intros self self' r. unfold has_critical_error. rewrite bind_run, device_call_run.
    destruct (raises hw _ _); intros [= <- _]; eexists [_];
      (split; [done|by apply P_reads]). }
  destruct critical; [|by apply emits_ret].
  apply emits_bind; [done| |intros msg].
  { destruct (has_get_error_status sensor); [|by apply emits_ret].
    intros self self' r. unfold get_error_status. rewrite bind_run, device_call_run.
    destruct (raises hw _ _); intros [= <- _]; eexists [_];
      (split; [done|by apply P_reads]). }
  apply emits_bind; [done|apply emits_set_log|intros _; apply emits_set_log].
Qed.

End Capture.

Lemma assign_all_notin {V} (kvs : list (string * V)) acc k :
  k ∉ kvs.*1 → assign_all kvs acc !! k = acc !! k.
Proof.
  revert acc. induction kvs as [|[k' v] kvs IH]; intros acc Hk; [done|].
  simpl in *. apply not_elem_of_cons in Hk as [Hne Hk].
  unfold assign_all in *. simpl. rewrite IH by done. by rewrite lookup_insert_ne.
Qed.

Lemma per_follower_assign_all (arms : list (string * MotorsBus)) (goals : list (list f32)) :
  NoDup arms.*1 → length goals = length arms →
  ∀ acc : gmap string (list f32),
    omap (λ '(name, _), assign_all (zip arms.*1 goals) acc !! name) arms = goals.
Proof.
  revert goals. induction arms as [|[n arm] arms IH]; intros [|g goals] Hnd Hlen acc;
    simpl in *; try discriminate; [done|].
  apply NoDup_cons in Hnd as [Hn Hnd].
  change (assign_all ((n, g) :: zip arms.*1 goals) acc)
    with (assign_all (zip arms.*1 goals) (<[n := g]> acc)).
  rewrite assign_all_notin.
  - rewrite lookup_insert_eq. simpl. f_equal. apply IH; [done|lia].
  - intros Hin. apply Hn. rewrite fst_zip in Hin; [done|]. rewrite length_fmap. lia.
Qed.

(** C4.  When [teleop_step(record_data=True)] returns, it returns a pair whose
    action dictionary holds, under [action], the concatenation in registry
    order of the goals written to the followers' [Goal_Position] registers:
    there is exactly one such write per follower and no other write, and each
    goal is the pose read from the leader of the same name, capped by
    [ensure_safe_goal_position] against the present position read from the
    follower when a bound is configured. *)
Theorem teleop_step_action_is_sent hw cfg self self' r :
  NoDup (follower_arms cfg).*1 →
  teleop_step hw cfg true self = (self', Ok r) →
  ∃ obs new goals,
    r = Some (obs, {["action" := tensor_of_positions (concat goals)]})
    ∧ calls self' = calls self ++ new
    ∧ writes new = goal_writes (follower_arms cfg).*1 goals
    ∧ length goals = length (follower_arms cfg)
    ∧ Forall2 (λ name goal, ∃ leader_pose,
                 Read leader name "Present_Position" leader_pose ∈ new
                 ∧ capped_by cfg name leader_pose goal new)
              (follower_arms cfg).*1 goals.
Proof.
  intros Hnd H. unfold teleop_step in H.
  apply bind_ok_inv in H as (s0 & [] & Hreq & H).
  unfold require_connected in Hreq. destruct (is_connected self); [|discriminate].
  injection Hreq as <-.
  apply bind_ok_inv in H as (s1 & lp & Hlead & H).
  apply (read_loop_inv hw leader) in Hlead as (new1 & -> & Hw1 & _ & Hlp).
  apply bind_ok_inv in H as (s2 & fgp & Hloop & H).
  apply (teleop_loop_inv hw cfg lp) in Hloop
    as (new2 & goals & -> & Hw2 & Hlen & -> & _ & Hall).
  simpl in H.
  apply bind_ok_inv in H as (s3 & fp & Hfp & H).
  apply (emits_read_follower_positions _ monoidal_no_writes (λ c Hc, Hc)) in Hfp
    as (new3 & E3 & Hw3).
  apply bind_ok_inv in H as (s4 & state & Hstate & H).
  injection Hstate as <- _.
  apply bind_ok_inv in H as (s5 & action & Haction & H).
  injection Haction as <- Haction.
  apply bind_ok_inv in H as (s6 & images & Him & H).
  apply (emits_read_cameras _ monoidal_no_writes (λ c Hc, Hc)) in Him as (new4 & E4 & Hw4).
  apply bind_ok_inv in H as (s7 & tactile_obs & Htac & H).
  apply (emits_get_tactile_observation _ monoidal_no_writes (λ c Hc, Hc)) in Htac
    as (new5 & E5 & Hw5).
  apply bind_ok_inv in H as (s8 & [] & Hchk & H).
  apply (emits_check_tactile_errors _ monoidal_no_writes (λ c Hc, Hc)) in Hchk
    as (new6 & E6 & Hw6).
  apply bind_ok_inv in H as (s9 & obs & Hpop & H).
  injection Hpop as <- _. injection H as <- <-.
  unfold per_follower in Haction. rewrite per_follower_assign_all in Haction by done.
  assert (action = concat goals) as ->.
  { unfold torch_cat in Haction. destruct goals; [discriminate|]. by injection Haction. }
  exists obs, (new1 ++ new2 ++ new3 ++ new4 ++ new5 ++ new6), goals.
  split_and!.
  - done.
  - rewrite E6, E5, E4, E3. simpl. by rewrite <- !app_assoc.
  - rewrite !writes_app, Hw1, Hw2, Hw3, Hw4, Hw5, Hw6. by rewrite !app_nil_r.
  - done.
  - eapply Forall2_impl; [exact Hall|]. intros name goal (req & Hreq & Hcap).
    exists req. split.
    + destruct (decide (name ∈ (leader_arms cfg).*1)) as [Hin|Hnin].
      * destruct (proj1 (Hlp name) Hin) as (h & v & Hv & _ & Hread).
        rewrite Hreq in Hv. injection Hv as <-. set_solver.
      * rewrite (proj2 (Hlp name) Hnin) in Hreq. done.
    + by apply (capped_by_mono _ _ _ _ new1 new2 (new3 ++ new4 ++ new5 ++ new6)) in Hcap.
Qed.

(** ** Keys of [tactile_data] *)

Lemma list_ascii_of_string_app s1 s2 :
  list_ascii_of_string (s1 +:+ s2) = list_ascii_of_string s1 ++ list_ascii_of_string s2.
Proof. induction s1 as [|c s1 IH]; simpl; [done|]. by rewrite IH. Qed.

Lemma list_ascii_of_string_inj s1 s2 :
  list_ascii_of_string s1 = list_ascii_of_string s2 → s1 = s2.
Proof.
  intros H. rewrite <- (string_of_list_ascii_of_string s1),
              <- (string_of_list_ascii_of_string s2). by rewrite H.
Qed.

(** No suffix of [fields] ends with another one. *)
Lemma fields_suffix_free :
  Forall (λ f1, Forall (λ f2,
            list_ascii_of_string f1 `suffix_of` list_ascii_of_string f2 → f1 = f2) fields)
         fields.
Proof.
  apply (bool_decide_unpack _). vm_compute. exact I.
Qed.

Lemma field_key_inj n1 n2 f1 f2 :
  f1 ∈ fields → f2 ∈ fields → n1 +:+ f1 = n2 +:+ f2 → n1 = n2 ∧ f1 = f2.
Proof.
  intros H1 H2 Heq.
  apply (f_equal list_ascii_of_string) in Heq.
  rewrite !list_ascii_of_string_app in Heq.
  assert (f1 = f2) as ->.
  { destruct (suffix_weak_total (list_ascii_of_string f1) (list_ascii_of_string f2)
                (list_ascii_of_string n1 ++ list_ascii_of_string f1)) as [Hs|Hs].
    - by eexists.
    - rewrite Heq. by eexists.
    - pose proof fields_suffix_free as HF.
      rewrite Forall_forall in HF. specialize (HF f1 H1).
      rewrite Forall_forall in HF. by apply HF.
    - pose proof fields_suffix_free as HF.
      rewrite Forall_forall in HF. specialize (HF f2 H2).
      rewrite Forall_forall in HF. symmetry. by apply HF. }
  split; [|done]. apply app_inv_tail in Heq. by apply list_ascii_of_string_inj.
Qed.

(** ** Inversion in the [result] monad *)

Lemma result_bind_ok {A B} (r : result A) (k : A → result B) b :
  r ≫= k = Ok b → ∃ a, r = Ok a ∧ k a = Ok b.
Proof. destruct r as [a|e]; [eauto|discriminate]. Qed.


(** ** One sensor *)

Lemma sensor_features_schema name sensor :
  sensor_features name sensor =
    (λ '(f, d), (tactile_key (sensor_type_of sensor) name f, d)) <$> sensor_schema sensor.
Proof.
  unfold sensor_features, sensor_schema. simpl.
  repeat case_decide; reflexivity.
Qed.

Lemma process_sensor_failed name sensor data now :
  truthy data = None →
  process_sensor name sensor data now =
    Ok ((λ '(f, d), (name +:+ "_" +:+ f, placeholder d)) <$> sensor_schema sensor).
Proof.
  intros Hd. unfold process_sensor, sensor_schema, sensor_type_of. rewrite Hd.
  repeat case_decide; reflexivity.
Qed.

Lemma schema_fields sensor f d :
  (f, d) ∈ sensor_schema sensor → "_" +:+ f ∈ fields.
Proof.
  unfold sensor_schema. intros H. apply elem_of_app in H as [H|H].
  - set_unfold. destruct H as [[= -> _]|[[= -> _]|[[= -> _]|[[= -> _]|[]]]]]; simpl; tauto.
  - repeat case_decide; set_unfold; naive_solver.
Qed.

Lemma gelsight_image_keys name data kvs :
  gelsight_image name data = Ok kvs →
  kvs.*1 = [] ∨ kvs.*1 = [name +:+ "_tactile_image"].
Proof.
  unfold gelsight_image. repeat case_match; intros Hg; inv_ok; subst; auto.
Qed.

Lemma process_sensor_keys name sensor data now kvs :
  process_sensor name sensor data now = Ok kvs →
  Forall (key_of name) kvs.*1
  ∧ ∀ f d, (f, d) ∈ sensor_schema sensor →
       name +:+ "_" +:+ f ∈ kvs.*1
       ∨ (is_Some (truthy data)
          ∧ sensor_type_of sensor ≠ "tac3d" ∧ sensor_type_of sensor ≠ "digit").
Proof.
  destruct (truthy data) as [payload|] eqn:Hd.
  - unfold process_sensor, sensor_schema, sensor_type_of. rewrite Hd.
    repeat case_decide; intros Hp; inv_ok; subst; simpl.
    + split; [repeat (constructor; [solve_key_of|]); constructor|].
      intros f d Hin. left. set_unfold. naive_solver.
    + match goal with Hg : gelsight_image _ _ = Ok _ |- _ =>
        apply gelsight_image_keys in Hg as [Hk|Hk] end;
        change (list_fmap _ _ fst ?l) with (l.*1); rewrite Hk; simpl.
      * split; [repeat (constructor; [solve_key_of|]); constructor|].
        intros f d Hin. right. unfold sensor_type_of. split_and!; [eauto|congruence..].
      * split; [repeat (constructor; [solve_key_of|]); constructor|].
        intros f d Hin. left. set_unfold. naive_solver.
    + split; [repeat (constructor; [solve_key_of|]); constructor|].
      intros f d Hin. left. set_unfold. naive_solver.
    + split; [repeat (constructor; [solve_key_of|]); constructor|].
      intros f d Hin. right. unfold sensor_type_of. eauto.
  - intros Hk. rewrite process_sensor_failed in Hk by done.
    pose proof (schema_fields sensor) as Hl.
    remember (sensor_schema sensor) as l eqn:El. clear El.
    assert (kvs = (λ '(f, d), (name +:+ "_" +:+ f, placeholder d)) <$> l) as ->
      by congruence.
    clear Hk. split.
    + rewrite !Forall_fmap, Forall_forall. intros [f d] Hin. simpl.
      exists ("_" +:+ f). split; [eapply Hl, Hin|reflexivity].
    + intros f d Hin. left. apply list_elem_of_fmap.
      exists (name +:+ "_" +:+ f, placeholder d). split; [done|].
      apply list_elem_of_fmap. by exists (f, d).
Qed.


(** ** Assignments *)

Lemma assign_all_in {V} (kvs : list (string * V)) acc acc' k :
  k ∈ kvs.*1 → assign_all kvs acc !! k = assign_all kvs acc' !! k.
Proof.
  revert acc acc'. induction kvs as [|[k' v] kvs IH]; intros acc acc' Hk.
  - by apply elem_of_nil in Hk.
  - unfold assign_all in *. simpl in *.
    destruct (decide (k ∈ kvs.*1)) as [Hin|Hnin]; [by apply IH|].
    apply elem_of_cons in Hk as [->|?]; [|done].
    pose proof (assign_all_notin kvs (<[k' := v]> acc) k' Hnin) as E1.
    pose proof (assign_all_notin kvs (<[k' := v]> acc') k' Hnin) as E2.
    unfold assign_all in E1, E2. by rewrite E1, E2, !lookup_insert_eq.
Qed.

Lemma assign_all_is_Some {V} (kvs : list (string * V)) acc k :
  k ∈ kvs.*1 → is_Some (assign_all kvs acc !! k).
Proof.
  revert acc. induction kvs as [|[k' v] kvs IH]; intros acc Hk.
  - by apply elem_of_nil in Hk.
  - unfold assign_all in *. simpl in *.
    destruct (decide (k ∈ kvs.*1)) as [Hin|Hnin]; [by apply IH|].
    apply elem_of_cons in Hk as [->|?]; [|done].
    pose proof (assign_all_notin kvs (<[k' := v]> acc) k' Hnin) as E1.
    unfold assign_all in E1. rewrite E1, lookup_insert_eq. eauto.
Qed.


Lemma assign_all_nodup {V} (kvs : list (string * V)) acc k v :
  NoDup kvs.*1 → (k, v) ∈ kvs → assign_all kvs acc !! k = Some v.
Proof.
  revert acc. induction kvs as [|[k' v'] kvs IH]; intros acc Hnd Hin.
  - by apply elem_of_nil in Hin.
  - simpl in Hnd. apply NoDup_cons in Hnd as [Hk' Hnd].
    apply elem_of_cons in Hin as [[= -> ->]|Hin].
    + change (assign_all kvs (<[k' := v']> acc) !! k' = Some v').
      by rewrite assign_all_notin, lookup_insert_eq.
    + by apply IH.
Qed.

Lemma assign_all_app {V} (l1 l2 : list (string * V)) acc :
  assign_all (l1 ++ l2) acc = assign_all l2 (assign_all l1 acc).
Proof. unfold assign_all. apply foldl_app. Qed.

Lemma dom_assign_all {V} (kvs : list (string * V)) acc :
  dom (assign_all kvs acc) = dom acc ∪ list_to_set kvs.*1.
Proof.
  revert acc. induction kvs as [|[k v] kvs IH]; intros acc.
  - simpl. set_solver.
  - change (assign_all ((k, v) :: kvs) acc) with (assign_all kvs (<[k := v]> acc)).
    rewrite IH, dom_insert_L. simpl. set_solver.
Qed.

(** ** Stage 2 *)

Lemma key_of_inj n1 n2 k : key_of n1 k → key_of n2 k → n1 = n2.
Proof.
  intros (f1 & H1 & ->) (f2 & H2 & E). by destruct (field_key_inj _ _ _ _ H1 H2 E).
Qed.

Section Stage2.

Variable sensors : list (string * TactileSensor).
Variable outcome : string → raw_data.
Variable clock : nat → F64.t.
Hypothesis registry : NoDup sensors.*1.

Lemma stage2_ok order :
  NoDup order →
  ∀ start acc td,
    (∀ name k, name ∈ order → key_of name k → acc !! k = None) →
    fold_result_at start ((λ name, (name, outcome name)) <$> order) acc
      (stage2_body sensors clock) = Ok td →
    (∀ name sensor, name ∈ order → (name, sensor) ∈ sensors →
       ∃ i kvs, order !! i = Some name
                ∧ process_sensor name sensor (outcome name) (clock (start + i)) = Ok kvs
                ∧ ∀ k, key_of name k → td !! k = assign_all kvs ∅ !! k)
    ∧ (∀ k, (∀ name, name ∈ order → ¬ key_of name k) → td !! k = acc !! k).
Proof.
  induction order as [|n order IH]; intros Hnd start acc td Hacc Hfold.
  - injection Hfold as <-. split; [intros ?? []%elem_of_nil|done].
  - apply NoDup_cons in Hnd as [Hn Hnd]. simpl in Hfold.
    apply result_bind_ok in Hfold as (acc1 & Hbody & Hfold).
    unfold stage2_body in Hbody.
    apply result_bind_ok in Hbody as (s0 & Hget & Hbody).
    apply result_bind_ok in Hbody as (kvs0 & Hproc & Hbody).
    injection Hbody as <-.
    unfold getitem in Hget.
    destruct (list_to_map sensors !! n) as [s0'|] eqn:Hs0; [|discriminate].
    injection Hget as ->.
    destruct (process_sensor_keys _ _ _ _ _ Hproc) as [Hkeys _].
    rewrite Forall_forall in Hkeys.
    assert (Hother : ∀ name k, name ∈ order → key_of name k → k ∉ kvs0.*1).
    { intros name k Hin Hk Hk0. apply Hkeys in Hk0.
      pose proof (key_of_inj _ _ _ Hk Hk0). by subst. }
    destruct (IH Hnd (S start) (assign_all kvs0 acc) td) as [IHA IHB].
    { intros name k Hin Hk. rewrite assign_all_notin by eauto.
      apply (Hacc name); [by right|done]. }
    { done. }
    split.
    + intros name sensor Hin Hsensor.
      apply elem_of_cons in Hin as [->|Hin].
      2:{ destruct (IHA name sensor Hin Hsensor) as (i & kvs & Hi & Hp & Hk).
          exists (S i), kvs. split_and!; [done| |done]. by rewrite Nat.add_succ_r. }
      assert (sensor = s0) as ->.
      { apply (elem_of_list_to_map_1 (M := gmap string)) in Hsensor; [|done]. congruence. }
      exists 0%nat, kvs0. split_and!; [done|by rewrite Nat.add_0_r|]. intros k Hk.
      rewrite IHB.
      * destruct (decide (k ∈ kvs0.*1)) as [Hk0|Hk0].
        -- by apply assign_all_in.
        -- rewrite !assign_all_notin by done. rewrite lookup_empty.
           apply (Hacc n); [by left|done].
      * intros name Hin Hk'. pose proof (key_of_inj _ _ _ Hk Hk'). by subst.
    + intros k Hk. rewrite IHB.
      * apply assign_all_notin. intros Hk0. apply Hkeys in Hk0.
        apply (Hk n); [by left|done].
      * intros name Hin. apply Hk. by right.
Qed.


End Stage2.

(** ** Stage 3 *)

Lemma getitem_ok {V} (d : gmap string V) k v : getitem d k = Ok v → d !! k = Some v.
Proof. unfold getitem. destruct (d !! k); [congruence|discriminate]. Qed.


Lemma process_sensor_guarded name sensor data now kvs :
  process_sensor name sensor data now = Ok kvs →
  (sensor_type_of sensor = "digit" → name +:+ "_tactile_image" ∈ kvs.*1)
  ∧ (sensor_type_of sensor ≠ "tac3d" → sensor_type_of sensor ≠ "gelsight" →
     sensor_type_of sensor ≠ "digit" →
     name +:+ "_resultant_force" ∈ kvs.*1 ∧ name +:+ "_resultant_moment" ∈ kvs.*1).
Proof.
  unfold process_sensor, sensor_type_of.
  destruct (truthy data); repeat case_decide; intros Hp; inv_ok; subst; simpl;
    (split; [intros ?|intros ???; split]); try congruence;
    solve [repeat first [apply list_elem_of_here | apply list_elem_of_further]].
Qed.

Lemma collect_sensor_ok name sensor td kvs :
  collect_sensor name sensor td = Ok kvs →
  (sensor_type_of sensor = "digit" → is_Some (td !! (name +:+ "_tactile_image"))) →
  (sensor_type_of sensor ≠ "tac3d" → sensor_type_of sensor ≠ "gelsight" →
   sensor_type_of sensor ≠ "digit" →
   is_Some (td !! (name +:+ "_resultant_force"))
   ∧ is_Some (td !! (name +:+ "_resultant_moment"))) →
  Forall2 (collected (sensor_type_of sensor) name td) (sensor_schema sensor) kvs.
Proof.
  unfold collect_sensor, sensor_schema, sensor_type_of.
  intros Hc Hdigit Hunknown. inv_ok.
  repeat match goal with H : getitem _ _ = Ok _ |- _ => apply getitem_ok in H end.
  repeat case_decide; inv_ok;
    repeat match goal with H : getitem _ _ = Ok _ |- _ => apply getitem_ok in H end.
  - repeat (constructor; [by split|]). constructor.
  - repeat (constructor; [by split|]). constructor.
  - destruct Hdigit as [v Hv]; [done|]. rewrite Hv.
    repeat (constructor; [by split|]). constructor.
  - destruct Hunknown as [[v1 Hv1] [v2 Hv2]]; [done..|]. rewrite Hv1, Hv2.
    repeat (constructor; [by split|]). constructor.
Qed.


Lemma stage3_ok td sensors :
  ∀ acc obs,
    fold_result sensors acc (stage3_body td) = Ok obs →
    ∃ kvss,
      Forall2 (λ '(name, sensor) kvs, collect_sensor name sensor td = Ok kvs) sensors kvss
      ∧ obs = assign_all (concat kvss) acc.
Proof.
  induction sensors as [|[n s] sensors IH]; intros acc obs Hfold.
  - injection Hfold as <-. exists []. split; [constructor|done].
  - simpl in Hfold. apply result_bind_ok in Hfold as (acc1 & Hbody & Hfold).
    unfold stage3_body in Hbody. apply result_bind_ok in Hbody as (kvs & Hc & Hbody).
    injection Hbody as <-.
    apply IH in Hfold as (kvss & Hall & ->).
    exists (kvs :: kvss). split; [by constructor|].
    simpl. by rewrite assign_all_app.
Qed.


Lemma schedule_perm {A} (choices : list nat) (pending : list A) :
  schedule choices pending ≡ₚ pending.
Proof.
  revert pending. induction choices as [|c choices IH]; intros pending; simpl; [done|].
  destruct (pending !! _) as [x|] eqn:E; [|done].
  rewrite IH. symmetry. by apply delete_Permutation.
Qed.

Lemma collected_keys sensor_type name td schema kvs :
  Forall2 (collected sensor_type name td) schema kvs →
  kvs.*1 = ((λ '(f, d), (tactile_key sensor_type name f, d)) <$> schema).*1.
Proof.
  induction 1 as [|[f d] [k v] schema kvs [-> _] _ IH]; [done|].
  rewrite !fmap_cons. by f_equal.
Qed.

Lemma collected_lookup sensor_type name td schema kvs f d :
  Forall2 (collected sensor_type name td) schema kvs →
  (f, d) ∈ schema →
  ∃ v, (tactile_key sensor_type name f, v) ∈ kvs ∧ td !! (name +:+ "_" +:+ f) = Some v.
Proof.
  induction 1 as [|[f' d'] [k v] schema kvs [-> Hv] _ IH]; intros Hin.
  - by apply elem_of_nil in Hin.
  - apply elem_of_cons in Hin as [[= -> ->]|Hin].
    + exists v. split; [by left|done].
    + destruct (IH Hin) as (v' & ? & ?). exists v'. split; [by right|done].
Qed.

Lemma sensor_schema_nodup sensor : NoDup (sensor_schema sensor).*1.
Proof.
  unfold sensor_schema. repeat case_decide; simpl;
    apply (bool_decide_unpack _); vm_compute; exact I.
Qed.

Lemma string_app_inv_head (s s1 s2 : string) : s +:+ s1 = s +:+ s2 → s1 = s2.
Proof. induction s; simpl; [done|]. intros [= H]. auto. Qed.

Lemma placeholder_entries_nodup name (schema : list (string * feature)) :
  NoDup schema.*1 →
  NoDup ((λ '(f, d), (name +:+ "_" +:+ f, placeholder d)) <$> schema).*1.
Proof.
  induction schema as [|[f d] schema IH]; intros Hnd; [constructor|].
  rewrite !fmap_cons in *. apply NoDup_cons in Hnd as [Hf Hnd].
  apply NoDup_cons. split; [|by apply IH].
  intros Hin. apply Hf.
  apply list_elem_of_fmap in Hin as ([k v] & Hk & Hin).
  apply list_elem_of_fmap in Hin as ([f' d'] & [= -> ->] & Hin).
  simpl in Hk. apply string_app_inv_head in Hk. simplify_eq/=.
  apply list_elem_of_fmap. by exists (f', d').
Qed.

Lemma placeholder_entries_lookup name schema f d :
  NoDup schema.*1 → (f, d) ∈ schema →
  assign_all ((λ '(f, d), (name +:+ "_" +:+ f, placeholder d)) <$> schema) ∅
    !! (name +:+ "_" +:+ f) = Some (placeholder d).
Proof.
  intros Hnd Hin. apply assign_all_nodup.
  - by apply placeholder_entries_nodup.
  - apply list_elem_of_fmap. by exists (f, d).
Qed.

Lemma elem_of_concat {A} (x : A) l ls : x ∈ l → l ∈ ls → x ∈ concat ls.
Proof.
  intros Hx Hl. induction ls as [|l' ls IH]; [by apply elem_of_nil in Hl|].
  simpl. apply elem_of_app. apply elem_of_cons in Hl as [->|Hl]; auto.
Qed.

Lemma tactile_features_assign cfg :
  tactile_features cfg
  = assign_all (tactile_sensors cfg ≫= λ '(name, sensor), sensor_features name sensor) ∅.
Proof.
  unfold tactile_features. generalize (∅ : gmap string feature).
  induction (tactile_sensors cfg) as [|[n s] sensors IH]; intros acc; [done|].
  rewrite bind_cons, assign_all_app. simpl. by rewrite IH.
Qed.

Lemma tactile_keys_fst (sensors : list (string * TactileSensor)) :
  (sensors ≫= λ '(name, sensor), sensor_features name sensor).*1 = tactile_keys sensors.
Proof.
  unfold tactile_keys. induction sensors as [|[n s] sensors IH]; [done|].
  rewrite !bind_cons, fmap_app, IH. done.
Qed.

Lemma dom_tactile_features cfg :
  dom (tactile_features cfg) = list_to_set (tactile_keys (tactile_sensors cfg)).
Proof.
  rewrite tactile_features_assign, dom_assign_all.
  rewrite (tactile_keys_fst (tactile_sensors cfg)). set_solver.
Qed.

Lemma assign_all_lookup_inv {V} (kvs : list (string * V)) acc k v :
  assign_all kvs acc !! k = Some v → (k, v) ∈ kvs ∨ acc !! k = Some v.
Proof.
  revert acc. induction kvs as [|[k' v'] kvs IH]; intros acc H; [by right|].
  unfold assign_all in H. simpl in H. apply IH in H as [H|H]; [left; by right|].
  destruct (decide (k' = k)) as [->|Hne].
  - rewrite lookup_insert_eq in H. injection H as ->. left. by left.
  - rewrite lookup_insert_ne in H by done. by right.
Qed.

Lemma assign_all_lookup_Some {V} (kvs : list (string * V)) k v :
  assign_all kvs ∅ !! k = Some v → (k, v) ∈ kvs.
Proof.
  intros H. apply assign_all_lookup_inv in H as [H|H]; [done|].
  by rewrite lookup_empty in H.
Qed.

Section Normalise.

Variable sensors : list (string * TactileSensor).
Variable outcome : string → raw_data.
Variable clock : nat → F64.t.
Variable order : list string.
Hypothesis registry : NoDup sensors.*1.
Hypothesis completed : order ≡ₚ sensors.*1.


(** When stage 3 returns, the observation has the keys of the schema, and
    every declared entry of a sensor holds the value that the iteration of
    stage 2 for that sensor assigned. *)
Lemma normalise_tactile_lookup obs :
  normalise_tactile sensors ((λ name, (name, outcome name)) <$> order) clock = Ok obs →
  dom obs = list_to_set (tactile_keys sensors)
  ∧ (NoDup (tactile_keys sensors) →
     ∀ name sensor,
       (name, sensor) ∈ sensors →
       ∃ i kvs,
         order !! i = Some name
         ∧ process_sensor name sensor (outcome name) (clock i) = Ok kvs
         ∧ ∀ f d, (f, d) ∈ sensor_schema sensor →
             ∃ v, assign_all kvs ∅ !! (name +:+ "_" +:+ f) = Some v
                  ∧ obs !! tactile_key (sensor_type_of sensor) name f = Some v).
Proof.
  unfold normalise_tactile, process_raw. intros H.
  apply result_bind_ok in H as (td & Htd & H).
  destruct (stage2_ok sensors outcome clock registry order)
    with (start := 0%nat) (acc := (∅ : gmap string pyval)) (td := td) as [HT _].
  { by rewrite completed. }
  { intros. apply lookup_empty. }
  { exact Htd. }
  apply stage3_ok in H as (kvss & Hall & ->).
  assert (Hcollected :
    Forall2 (λ '(name, sensor) kvs,
               Forall2 (collected (sensor_type_of sensor) name td) (sensor_schema sensor) kvs)
            sensors kvss).
  { assert (Haux : ∀ l kvss,
      (∀ x, x ∈ l → x ∈ sensors) →
      Forall2 (λ '(name, sensor) kvs, collect_sensor name sensor td = Ok kvs) l kvss →
      Forall2 (λ '(name, sensor) kvs,
                 Forall2 (collected (sensor_type_of sensor) name td)
                         (sensor_schema sensor) kvs) l kvss);
      [|by apply Haux].
    clear Hall kvss. intros l kvss Hl Hall.
    induction Hall as [|[n s] kvs l kvss Hc _ IH]; [constructor|].
    constructor; [|apply IH; intros x Hx; apply Hl; by right].
    destruct (HT n s) as (i & kvs0 & _ & Hp & Hk).
    { rewrite completed. apply list_elem_of_fmap. exists (n, s). split; [done|].
      apply Hl. by left. }
    { apply Hl. by left. }
    destruct (process_sensor_guarded _ _ _ _ _ Hp) as [Hd Hu].
    apply collect_sensor_ok; [done|..].
    - intros Ht. rewrite Hk.
      + by apply assign_all_is_Some, Hd.
      + solve_key_of.
    - intros H1 H2 H3. destruct (Hu H1 H2 H3) as [Hf' Hm]. split.
      + rewrite Hk; [by apply assign_all_is_Some|]. solve_key_of.
      + rewrite Hk; [by apply assign_all_is_Some|]. solve_key_of. }
  assert (Hkeys : (concat kvss).*1 = tactile_keys sensors).
  { clear -Hcollected. unfold tactile_keys.
    induction Hcollected as [|[n s] kvs l kvss Hc _ IH]; [done|].
    change (concat (kvs :: kvss)) with (kvs ++ concat kvss).
    rewrite bind_cons, fmap_app, IH. f_equal.
    rewrite (collected_keys _ _ _ _ _ Hc). by rewrite sensor_features_schema. }
  split; [rewrite dom_assign_all, Hkeys; set_solver|].
  intros Hnd name sensor Hin.
  assert (∃ kvs, kvs ∈ kvss
            ∧ Forall2 (collected (sensor_type_of sensor) name td) (sensor_schema sensor) kvs)
    as (kvs & Hkvs & Hc).
  { clear -Hcollected Hin.
    induction Hcollected as [|[n s] kvs l kvss Hc _ IH]; [by apply elem_of_nil in Hin|].
    apply elem_of_cons in Hin as [[= -> ->]|Hin].
    - exists kvs. split; [by left|done].
    - destruct (IH Hin) as (kvs' & ? & ?). exists kvs'. split; [by right|done]. }
  destruct (HT name sensor) as (i & kvs0 & Hi & Hp & Hk); [|done|].
  { rewrite completed. apply list_elem_of_fmap. by exists (name, sensor). }
  exists i, kvs0. split_and!; [done|done|]. intros f d Hf.
  destruct (collected_lookup _ _ _ _ _ _ _ Hc Hf) as (v & Hv & Htd').
  rewrite Hk in Htd'.
  2:{ exists ("_" +:+ f). split; [by eapply schema_fields|done]. }
  exists v. split; [done|].
  apply assign_all_nodup.
  - by rewrite Hkeys.
  - by apply (elem_of_concat _ kvs).
Qed.

Lemma normalise_tactile_ok obs :
  normalise_tactile sensors ((λ name, (name, outcome name)) <$> order) clock = Ok obs →
  dom obs = list_to_set (tactile_keys sensors)
  ∧ (NoDup (tactile_keys sensors) →
     ∀ name sensor key d,
       (name, sensor) ∈ sensors → truthy (outcome name) = None →
       (key, d) ∈ sensor_features name sensor →
       obs !! key = Some (placeholder d)).
Proof.
  intros H. apply normalise_tactile_lookup in H as [Hdom Hlook].
  split; [done|]. intros Hnd name sensor key d Hin Hfail Hkey.
  rewrite sensor_features_schema in Hkey.
  apply list_elem_of_fmap in Hkey as ([f d'] & [= -> ->] & Hf).
  destruct (Hlook Hnd name sensor Hin) as (i & kvs & _ & Hp & Hfields).
  destruct (Hfields f d' Hf) as (v & Hv & ->).
  rewrite process_sensor_failed in Hp by done.
  assert (kvs = (λ '(f, d), (name +:+ "_" +:+ f, placeholder d))
                  <$> sensor_schema sensor) as -> by congruence.
  rewrite (placeholder_entries_lookup name (sensor_schema sensor) f d') in Hv
    by (apply sensor_schema_nodup || done).
  by injection Hv as <-.
Qed.

End Normalise.

Lemma get_tactile_observation_run hw cfg self :
  (_get_tactile_observation hw cfg self).2 =
    normalise_tactile (tactile_sensors cfg)
      ((λ name, (name, tactile_outcome hw (calls self) name))
         <$> schedule (completion hw (calls self)) (tactile_sensors cfg).*1)
      (time_time hw (calls self)).
Proof. reflexivity. Qed.

(** ** Fields that a payload lacks *)

Ltac split_in H :=
  repeat first [ apply elem_of_app in H as [H|H]
               | apply elem_of_cons in H as [H|H]
               | apply elem_of_nil in H; destruct H ].

Ltac key_eq H :=
  injection H; clear H; intros; subst;
  try match goal with
      | E : ?n +:+ _ = ?n +:+ _ |- _ =>
          exfalso; apply string_app_inv_head in E; discriminate E
      end.

Lemma gelsight_image_entries name data kvs k v :
  gelsight_image name data = Ok kvs → (k, v) ∈ kvs → k = name +:+ "_tactile_image".
Proof.
  unfold gelsight_image. intros H Hin.
  destruct (present data "tactile_image"); [|destruct (present data "image")];
    inv_ok; split_in Hin; congruence.
Qed.




Lemma tactile_observation_lookup hw cfg self obs :
  NoDup (tactile_sensors cfg).*1 →
  NoDup (tactile_keys (tactile_sensors cfg)) →
  (_get_tactile_observation hw cfg self).2 = Ok obs →
  ∀ name sensor,
    (name, sensor) ∈ tactile_sensors cfg →
    ∃ i kvs,
      schedule (completion hw (calls self)) (tactile_sensors cfg).*1 !! i = Some name
      ∧ process_sensor name sensor (tactile_outcome hw (calls self) name)
          (time_time hw (calls self) i) = Ok kvs
      ∧ ∀ f d, (f, d) ∈ sensor_schema sensor →
          ∃ v, (name +:+ "_" +:+ f, v) ∈ kvs
               ∧ obs !! tactile_key (sensor_type_of sensor) name f = Some v.
Proof.
  intros Hnames Hkeys Hobs name sensor Hin. rewrite get_tactile_observation_run in Hobs.
  apply normalise_tactile_lookup in Hobs as [_ Hlook]; [|done|apply schedule_perm].
  destruct (Hlook Hkeys name sensor Hin) as (i & kvs & Hi & Hp & Hfields).
  exists i, kvs. split_and!; [done|done|]. intros f d Hf.
  destruct (Hfields f d Hf) as (v & Hv & Hobs). exists v. split; [|done].
  by apply assign_all_lookup_Some.
Qed.

Lemma returned_ok r : succeeded r = true → r = Ok (returned r).
Proof. by destruct r. Qed.




(** A GelSight payload without an image makes stage 3 raise. *)
Lemma gelsight_payload_without_image_raises :
  (_get_tactile_observation (steady (RawDict {["frame_index" := PInt 7]}))
     (one_sensor ex_gelsight) (mk_robot true ∅ [])).2
  = Raise (KeyError "fingertip_tactile_image").
Proof. vm_compute. reflexivity. Qed.

(** A sensor of a type other than the three known ones that returns any
    payload makes stage 3 raise. *)
Lemma unknown_sensor_payload_raises :
  (_get_tactile_observation (steady (RawDict {["frame_index" := PInt 7]}))
     (one_sensor ex_generic) (mk_robot true ∅ [])).2
  = Raise (KeyError "fingertip_sensor_sn").
Proof. vm_compute. reflexivity. Qed.

(** ** Keys of the schema and of the observation *)

Lemma tactile_features_key cfg k d :
  tactile_features cfg !! k = Some d → ∃ rest, k = "observation.tactile." +:+ rest.
Proof.
  rewrite tactile_features_assign. intros H.
  destruct (decide (k ∈ (tactile_sensors cfg ≫= λ '(name, sensor), sensor_features name sensor).*1))
    as [Hin|Hnin].
  - apply list_elem_of_fmap in Hin as ([k' d'] & -> & Hin).
    apply list_elem_of_bind in Hin as ([n s] & Hin & _).
    rewrite sensor_features_schema in Hin.
    apply list_elem_of_fmap in Hin as ([f d''] & [= -> ->] & _).
    unfold tactile_key. eauto.
  - rewrite assign_all_notin in H by done. by rewrite lookup_empty in H.
Qed.

Lemma camera_features_key cfg k d :
  camera_features cfg !! k = Some d → ∃ name, k = "observation.images." +:+ name.
Proof.
  unfold camera_features.
  assert (∀ acc : gmap string feature,
            foldl (λ features '(name, camera),
                     <["observation.images." +:+ name :=
                         mk_feature "video" [height camera; width camera; channels camera]
                                    (Some ["height"; "width"; "channels"])]> features)
                  acc (cameras cfg) !! k = Some d →
            acc !! k = Some d ∨ ∃ name, k = "observation.images." +:+ name) as Haux.
  { induction (cameras cfg) as [|[n c] cams IH]; intros acc H; [by left|].
    simpl in H. apply IH in H as [H|H]; [|by right].
    destruct (decide (k = "observation.images." +:+ n)) as [->|Hne]; [eauto|].
    rewrite lookup_insert_ne in H by done. by left. }
  intros H. apply Haux in H as [H|H]; [by rewrite lookup_empty in H|done].
Qed.

Lemma collect_sensor_keys name sensor td kvs :
  collect_sensor name sensor td = Ok kvs →
  Forall (λ k, ∃ rest, k = "observation.tactile." +:+ rest) kvs.*1.
Proof.
  unfold collect_sensor, tactile_key. intros H. inv_ok.
  repeat case_decide; inv_ok; repeat case_match; simpl;
    repeat (constructor; [eauto|]); constructor.
Qed.

Lemma normalise_tactile_keys sensors raw clock obs k :
  normalise_tactile sensors raw clock = Ok obs → is_Some (obs !! k) →
  ∃ rest, k = "observation.tactile." +:+ rest.
Proof.
  unfold normalise_tactile. intros H Hk.
  apply result_bind_ok in H as (td & _ & H).
  apply stage3_ok in H as (kvss & Hall & ->).
  destruct (decide (k ∈ (concat kvss).*1)) as [Hin|Hnin].
  - clear Hk. induction Hall as [|[n s] kvs l kvss Hc _ IH]; [by apply elem_of_nil in Hin|].
    simpl in Hin. rewrite fmap_app in Hin. apply elem_of_app in Hin as [Hin|Hin]; [|auto].
    apply collect_sensor_keys in Hc. rewrite Forall_forall in Hc. auto.
  - rewrite assign_all_notin, lookup_empty in Hk by done. by destruct Hk.
Qed.

Lemma populate_state cfg state images tactile_obs obs :
  (∀ k, is_Some (tactile_obs !! k) → ∃ rest, k = "observation.tactile." +:+ rest) →
  populate cfg state images tactile_obs = Ok obs →
  obs !! "observation.state" = Some (tensor_of_positions state).
Proof.
  intros Htac H. unfold populate in H.
  apply result_bind_ok in H as (obs_dict & Hfold & H). injection H as <-.
  assert (obs_dict !! "observation.state" = Some (tensor_of_positions state)) as Hs.
  { revert Hfold. generalize (lookup_singleton_eq (M := gmap string) "observation.state"
                                (tensor_of_positions state)).
    generalize ({["observation.state" := tensor_of_positions state]} : gmap string pyval).
    induction (cameras cfg) as [|[n c] cams IH]; intros acc Hacc Hfold.
    - by injection Hfold as <-.
    - simpl in Hfold. apply result_bind_ok in Hfold as (acc1 & Hbody & Hfold).
      apply result_bind_ok in Hbody as (img & _ & Hbody). injection Hbody as <-.
      apply (IH (<["observation.images." +:+ n := img]> acc)); [|done].
      rewrite lookup_insert_ne; [done|discriminate]. }
  rewrite lookup_union_r; [done|].
  destruct (tactile_obs !! "observation.state") eqn:E; [|done].
  destruct (Htac "observation.state") as [rest Hrest]; [eauto|]. discriminate.
Qed.

Lemma length_get_motor_names arms :
  length (get_motor_names arms) = sum_list (motor_counts arms).
Proof.
  unfold get_motor_names.
  assert (∀ acc : list string,
            length (foldl (λ motor_names '(arm_name, arm), motor_names ++ (motors arm).*1)
                          acc arms)
            = (length acc + sum_list (motor_counts arms))%nat) as Haux.
  { induction arms as [|[n arm] arms IH]; intros acc; simpl; [lia|].
    rewrite IH, length_app. unfold motor_names. lia. }
  by rewrite Haux.
Qed.

Lemma length_per_follower (arms : list (string * MotorsBus))
    (positions : gmap string (list f32)) :
  (∀ name arm, (name, arm) ∈ arms →
     ∃ v, positions !! name = Some v ∧ length v = length (motor_names arm)) →
  length (concat (omap (λ '(name, _), positions !! name) arms))
  = sum_list (motor_counts arms).
Proof.
  induction arms as [|[n arm] arms IH]; intros H; [done|].
  destruct (H n arm) as (v & Hv & Hl); [by left|].
  assert (IH' := IH (λ name a Hin, H name a (list_elem_of_further _ _ _ Hin))).
  simpl. rewrite Hv. simpl. rewrite length_app, Hl. f_equal. exact IH'.
Qed.

Lemma per_follower_reads (arms : list (string * MotorsBus))
    (positions : gmap string (list f32)) (Q : string → list f32 → Prop) :
  (∀ name, name ∈ arms.*1 → ∃ v, positions !! name = Some v ∧ Q name v) →
  ∃ vs, omap (λ '(name, _), positions !! name) arms = vs ∧ Forall2 Q arms.*1 vs.
Proof.
  induction arms as [|[n a] arms IH]; intros H; [by exists []|].
  destruct (H n) as (v & Hv & HQ); [by left|].
  destruct IH as (vs & Hvs & Hall); [intros name Hin; apply H; by right|].
  exists (v :: vs). simpl. rewrite Hv. simpl. split; [by f_equal|by constructor].
Qed.

(** C10.  In the feature schema of every configuration [action] and
    [observation.state] have the same descriptor, float32 of shape [(n,)]
    named by the [n] motor names of the leader arms in order.  The
    [observation.state] that [capture_observation] returns is the
    concatenation, in the order of the follower registry, of the positions
    read from the followers during the call; it has one value per follower
    motor (each follower read returning one value per motor), so its length
    differs from the declared shape whenever leaders and followers declare
    different numbers of motors. *)
Theorem motor_features_from_leaders cfg :
  let names := get_motor_names (leader_arms cfg) in
  let declared := mk_feature "float32" [length names] (Some names) in
  features cfg !! "action" = Some declared
  ∧ features cfg !! "observation.state" = Some declared
  ∧ ∀ hw self self' obs,
      (∀ history name arm, (name, arm) ∈ follower_arms cfg →
         length (arm_read hw history follower name "Present_Position")
         = length (motor_names arm)) →
      capture_observation hw cfg self = (self', Ok obs) →
      ∃ new positions,
        calls self' = calls self ++ new
        ∧ Forall2 (λ name pos, Read follower name "Present_Position" pos ∈ new)
                  (follower_arms cfg).*1 positions
        ∧ obs !! "observation.state" = Some (tensor_of_positions (concat positions))
        ∧ length (concat positions) = length (get_motor_names (follower_arms cfg))
        ∧ (length names ≠ length (get_motor_names (follower_arms cfg)) →
           ft_shape declared ≠ [length (concat positions)]).
Proof.
  intros names declared.
  assert (Hfeat : ∀ k, k = "action" ∨ k = "observation.state" →
                       motor_features cfg !! k = Some declared →
                       features cfg !! k = Some declared).
  { intros k Hk Hm. unfold features.
    rewrite lookup_union_r.
    - rewrite lookup_union_r; [done|].
      destruct (camera_features cfg !! k) eqn:E; [|done].
      apply camera_features_key in E as [name ->]. by destruct Hk.
    - destruct (tactile_features cfg !! k) eqn:E; [|done].
      apply tactile_features_key in E as [rest ->]. by destruct Hk. }
  split_and!.
  - apply Hfeat; [by left|]. unfold motor_features.
    rewrite lookup_insert_ne by done. by rewrite lookup_insert_eq.
  - apply Hfeat; [by right|]. unfold motor_features. by rewrite lookup_insert_eq.
  - intros hw self self' obs Hcontract Hcap.
    unfold capture_observation in Hcap.
    apply bind_ok_inv in Hcap as (s0 & [] & Hreq & H).
    unfold require_connected in Hreq. destruct (is_connected self); [|discriminate].
    injection Hreq as <-.
    apply bind_ok_inv in H as (s1 & fp & Hfp & H).
    apply (read_loop_inv hw follower) in Hfp as (new1 & -> & _ & _ & Hpos).
    apply bind_ok_inv in H as (s2 & state & Hstate & H).
    injection Hstate as <- Hstate.
    apply bind_ok_inv in H as (s3 & images & Him & H).
    apply (emits_read_cameras (λ _, True)) in Him as (n3 & E3 & _); [|done..].
    apply bind_ok_inv in H as (s4 & tactile_obs & Htac & H).
    pose proof Htac as Htac'.
    apply (emits_get_tactile_observation (λ _, True)) in Htac' as (n4 & E4 & _); [|done..].
    apply bind_ok_inv in H as (s5 & [] & Hchk & H).
    apply (emits_check_tactile_errors (λ _, True)) in Hchk as (n5 & E5 & _); [|done..].
    injection H as <- Hpop.
    assert (state = concat (per_follower cfg fp)) as ->.
    { unfold torch_cat in Hstate. destruct (per_follower cfg fp); [discriminate|].
      by injection Hstate. }
    destruct (per_follower_reads (follower_arms cfg) fp
                (λ name pos, Read follower name "Present_Position" pos
                               ∈ new1 ++ n3 ++ n4 ++ n5))
      as (positions & Hper & Hall).
    { intros name Hin. destruct (proj1 (Hpos name) Hin) as (h & v & Hv & _ & Hread).
      exists v. split; [done|]. set_solver. }
    change (omap _ (follower_arms cfg)) with (per_follower cfg fp) in Hper. subst positions.
    assert (Hlen : length (concat (per_follower cfg fp))
                   = length (get_motor_names (follower_arms cfg))).
    { rewrite length_get_motor_names. apply length_per_follower.
      intros name arm Hin.
      destruct (proj1 (Hpos name)) as (h & v & Hv & -> & _).
      { apply list_elem_of_fmap. by exists (name, arm). }
      exists (arm_read hw h follower name "Present_Position"). split; [done|].
      by apply Hcontract. }
    exists (new1 ++ n3 ++ n4 ++ n5), (per_follower cfg fp). split_and!.
    + rewrite E5, E4, E3. simpl. by rewrite <- !app_assoc.
    + done.
    + eapply populate_state; [|exact Hpop].
      intros k Hk. unfold _get_tactile_observation in Htac.
      apply bind_ok_inv in Htac as (? & raw & _ & Htac).
      injection Htac as _ Htac. eapply normalise_tactile_keys; eauto.
    + done.
    + simpl. rewrite Hlen. intros Hne [=]. done.
Qed.

Lemma send_action_returns_sent_witness :
  ∃ new sent,
    send_action resting koch_like leader_pose connected = (extend connected new, Ok (concat sent))
    ∧ writes new = goal_writes ["main"] sent.
Proof.
  destruct (send_action_returns_sent resting koch_like connected leader_pose (λ _, follower_pose))
    as (new & sent & H1 & H2 & _).
  - reflexivity.
  - discriminate.
  - reflexivity.
  - reflexivity.
  - intros b [= <-] name arm Hin. apply list_elem_of_singleton in Hin as [= -> ->].
    split_and!; [reflexivity|reflexivity|exact I].
  - exists new, sent. split; assumption.
Defined.

Lemma teleop_step_without_recording_witness :
  ∃ new goals,
    teleop_step resting koch_like false connected = (extend connected new, Ok None)
    ∧ writes new = goal_writes ["main"] goals.
Proof.
  destruct (teleop_step_without_recording resting koch_like connected)
    as (new & goals & H1 & H2 & _).
  - reflexivity.
  - reflexivity.
  - intros x Hx. exact Hx.
  - intros b [= <-] name arm Hin. apply list_elem_of_singleton in Hin as [= -> ->].
    split_and!; [reflexivity|reflexivity|exact I].
  - exists new, goals. split; assumption.
Defined.

Lemma teleop_step_action_is_sent_witness :
  ∃ obs new goals,
    (teleop_step resting koch_like true connected).2
      = Ok (Some (obs, {["action" := tensor_of_positions (concat goals)]}))
    ∧ writes new = goal_writes ["main"] goals.
Proof.
  destruct (teleop_step resting koch_like true connected) as [self' [r|e]] eqn:E.
  - destruct (teleop_step_action_is_sent resting koch_like connected self' r)
      as (obs & new & goals & -> & _ & Hw & _).
    + apply NoDup_singleton.
    + exact E.
    + exists obs, new, goals. split; [reflexivity|exact Hw].
  - exfalso. vm_compute in E. discriminate E.
Defined.

Lemma lifecycle_errors_witness :
  connect resting koch_like connected = (connected, Raise RobotDeviceAlreadyConnectedError)
  ∧ send_action resting koch_like leader_pose (init [])
    = (init [], Raise RobotDeviceNotConnectedError).
Proof.
  destruct (lifecycle_errors resting koch_like connected) as (H1 & _).
  destruct (lifecycle_errors resting koch_like (init [])) as (_ & H2 & _).
  split.
  - apply H1. reflexivity.
  - apply (H2 eq_refl false leader_pose false).
Defined.

Lemma disconnect_total_witness :
  ∃ new,
    disconnect stuck_leader three_devices false connected
      = (mk_robot false ∅ new, Ok tt)
    ∧ disconnected new = [Arm follower "main"; Arm leader "main"; Cam "top"].
Proof.
  destruct (disconnect_total stuck_leader three_devices false connected) as (new & H1 & H2).
  - reflexivity.
  - exists new. split; assumption.
Defined.

Lemma tactile_features_digit_fingertip_witness :
  size (tactile_features (one_sensor ex_digit)) = 5%nat.
Proof.
  destruct (tactile_features_digit_fingertip (one_sensor ex_digit) ex_digit) as (_ & H & _).
  - reflexivity.
  - reflexivity.
  - exact H.
Defined.

Lemma motor_features_from_leaders_witness :
  ∃ state,
    features mismatched !! "observation.state"
      = Some (mk_feature "float32" [1%nat] (Some ["gripper"]))
    ∧ (capture_observation resting mismatched connected).2
        ≫= (λ obs, Ok (obs !! "observation.state")) = Ok (Some (tensor_of_positions state))
    ∧ length state = 2%nat.
Proof.
  destruct (motor_features_from_leaders mismatched) as (_ & Hs & Hcap).
  destruct (capture_observation resting mismatched connected) as [self' [obs|e]] eqn:E.
  - destruct (Hcap resting connected self' obs) as (new & positions & _ & _ & Hobs & Hlen & _).
    + intros history name arm Hin. apply list_elem_of_singleton in Hin as [= -> ->].
      reflexivity.
    + exact E.
    + exists (concat positions). split_and!; [exact Hs| |exact Hlen].
      simpl. rewrite Hobs. reflexivity.
  - exfalso. vm_compute in E. discriminate E.
Defined.

(** * Properties of the further parts *)

(** ** The clamp outside its intended domain *)

Lemma broadcast_vv_shape f xs ys :
  if broadcastable (length xs) (length ys)
  then ∃ l, broadcast_vv f xs ys = Ok l
            ∧ length l = broadcast_size (length xs) (length ys)
  else broadcast_vv f xs ys = Raise RuntimeError.
Proof.
  unfold broadcast_vv, broadcastable, broadcast_size.
  destruct (length xs =? length ys)%nat eqn:E; simpl.
  - apply Nat.eqb_eq in E. eexists. split; [done|].
    rewrite length_zip_with, <- E.
    destruct (length xs =? 1)%nat eqn:E1; [apply Nat.eqb_eq in E1|]; lia.
  - destruct xs as [|x [|x' xs]], ys as [|y [|y' ys]]; simpl in *;
      try discriminate; try done;
      eexists; (split; [done|]); simpl; by rewrite ?length_fmap.
Qed.

Lemma broadcast_vt_shape f xs b :
  let m := match b with Scalar _ => 1%nat | PerAxis ys => length ys end in
  if broadcastable (length xs) m
  then ∃ l, broadcast_vt f xs b = Ok l ∧ length l = broadcast_size (length xs) m
  else broadcast_vt f xs b = Raise RuntimeError.
Proof.
  destruct b as [y|ys]; simpl.
  - replace (broadcastable (length xs) 1) with true
      by (unfold broadcastable; by rewrite orb_true_r).
    eexists. split; [done|]. rewrite length_fmap. unfold broadcast_size.
    destruct (length xs =? 1)%nat eqn:E; [by apply Nat.eqb_eq in E|done].
  - apply broadcast_vv_shape.
Qed.

Lemma broadcast_arith n m k :
  broadcastable n m = true → broadcastable (broadcast_size n m) k = true →
  let s := broadcast_size (broadcast_size n m) k in
  broadcastable s k = true ∧ broadcast_size s k = s
  ∧ broadcastable m s = true ∧ broadcast_size m s = s.
Proof.
  unfold broadcastable, broadcast_size. intros H1 H2.
  repeat match goal with
         | H : context [(?a =? ?b)%nat] |- _ => destruct (Nat.eqb_spec a b)
         | |- context [(?a =? ?b)%nat] => destruct (Nat.eqb_spec a b)
         end; simpl in *; try discriminate; try lia; repeat split; try done; lia.
Qed.

(** X1.  [ensure_safe_goal_position] checks no shape itself: it returns
    exactly when torch can broadcast the goal with the present position and
    their difference with the bound (equal sizes, or one of them 1; a float
    bound always fits), the result then has the broadcast size, which is the
    size of the bound list when goal and present position have one element;
    in every other case it raises [RuntimeError]. *)
Theorem ensure_safe_goal_position_shapes goal_pos present_pos max_relative_target :
  let n := length goal_pos in
  let m := length present_pos in
  let k := match max_relative_target with
           | PyFloat _ => 1%nat
           | PyList bs => length bs
           end in
  if broadcastable n m && broadcastable (broadcast_size n m) k
  then ∃ safe_goal_pos,
         ensure_safe_goal_position goal_pos present_pos max_relative_target
           = Ok safe_goal_pos
         ∧ length safe_goal_pos = broadcast_size (broadcast_size n m) k
  else ensure_safe_goal_position goal_pos present_pos max_relative_target
         = Raise RuntimeError.
Proof.
  intros n m k. unfold ensure_safe_goal_position.
  pose proof (broadcast_vv_shape F32.sub goal_pos present_pos) as Hd.
  fold n m in Hd. destruct (broadcastable n m) eqn:Hnm; simpl; [|by rewrite Hd].
  destruct Hd as (diff & -> & Hdiff). simpl.
  set (t := torch_tensor max_relative_target).
  assert (Hk : match t with Scalar _ => 1%nat | PerAxis ys => length ys end = k).
  { unfold t, k. destruct max_relative_target; simpl; [done|by rewrite length_fmap]. }
  assert (Hk' : match neg_target t with Scalar _ => 1%nat | PerAxis ys => length ys end = k).
  { rewrite <- Hk. destruct t; simpl; [done|by rewrite length_map]. }
  pose proof (broadcast_vt_shape F32.minimum diff t) as H1. simpl in H1.
  rewrite Hk, Hdiff in H1.
  destruct (broadcastable (broadcast_size n m) k) eqn:Hdk; [|by rewrite H1].
  destruct H1 as (sd1 & -> & Hsd1). simpl.
  destruct (broadcast_arith n m k Hnm Hdk) as (A1 & A2 & A3 & A4).
  pose proof (broadcast_vt_shape F32.maximum sd1 (neg_target t)) as H2. simpl in H2.
  rewrite Hk', Hsd1, A1, A2 in H2. destruct H2 as (sd2 & -> & Hsd2). simpl.
  pose proof (broadcast_vv_shape F32.add present_pos sd2) as H3.
  fold m in H3. rewrite Hsd2, A3, A4 in H3. exact H3.
Qed.

Lemma clamp_axis_nan d b :
  F32.is_nan d = true → F32.maximum (F32.minimum d b) (F32.neg b) = f32_nan.
Proof. by destruct d. Qed.

Lemma add_nan p : F32.add p f32_nan = f32_nan.
Proof. by destruct p. Qed.

(** The result of the clamp on one axis, whatever the bound. *)
Lemma ensure_safe_goal_position_axis goal present b i g p bi :
  length goal = length present →
  match b with PyList bs => length bs = length goal | PyFloat _ => True end →
  goal !! i = Some g → present !! i = Some p →
  bound_at (torch_tensor b) i = Some bi →
  ∃ safe_goal_pos,
    ensure_safe_goal_position goal present b = Ok safe_goal_pos
    ∧ safe_goal_pos !! i
      = Some (F32.add p (F32.maximum (F32.minimum (F32.sub g p) bi) (F32.neg bi))).
Proof.
  intros Hlen Hb Hg Hp Hbi.
  rewrite ensure_safe_goal_position_zip by done.
  eexists. split; [done|].
  rewrite lookup_zip_with, Hp. simpl.
  erewrite safe_diffs_lookup; [done| |done].
  by rewrite lookup_zip_with, Hg, Hp.
Qed.

Lemma bound_at_defined b (goal : list f32) i g :
  match b with PyList bs => length bs = length goal | PyFloat _ => True end →
  goal !! i = Some g → is_Some (bound_at (torch_tensor b) i).
Proof.
  intros Hb Hg. destruct b as [x|bs]; simpl; [eauto|].
  apply lookup_lt_is_Some. rewrite length_fmap, Hb. by eapply lookup_lt_Some.
Qed.

(** X2.  The clamp does not sanitise NaN.  On an axis where the requested
    delta [goal - present] is NaN (a NaN goal, a NaN present position, or two
    infinities of the same sign), the returned goal position is NaN, whatever
    the bound. *)
Theorem ensure_safe_goal_position_nan goal present b i g p :
  length goal = length present →
  match b with PyList bs => length bs = length goal | PyFloat _ => True end →
  goal !! i = Some g → present !! i = Some p →
  F32.is_nan (F32.sub g p) = true →
  ∃ safe_goal_pos,
    ensure_safe_goal_position goal present b = Ok safe_goal_pos
    ∧ safe_goal_pos !! i = Some f32_nan.
Proof.
  intros Hlen Hb Hg Hp Hnan.
  destruct (bound_at_defined b goal i g Hb Hg) as [bi Hbi].
  destruct (ensure_safe_goal_position_axis goal present b i g p bi)
    as (safe & Hsafe & Hi); try done.
  exists safe. split; [done|].
  by rewrite Hi, clamp_axis_nan, add_nan.
Qed.

Lemma clamp_axis_negative d b :
  F32.is_nan d = false → F32.ltb b F32.zero = true →
  F32.maximum (F32.minimum d b) (F32.neg b) = F32.neg b.
Proof.
  intros Hd Hb.
  assert (Hnb : F32.is_nan b = false) by by destruct b.
  assert (Hnn : F32.is_nan (F32.neg b) = false) by by rewrite is_nan_neg.
  unfold F32.minimum. rewrite Hd, Hnb. simpl.
  set (m := if F32.ltb b d then b else d).
  assert (Hm : F32.is_nan m = false) by (unfold m; by destruct (F32.ltb b d)).
  assert (Hmb : F32.leb m b = true).
  { unfold m. destruct (F32.ltb b d) eqn:E; [by apply leb_refl|by apply ltb_false_leb]. }
  unfold F32.maximum. rewrite Hm, Hnn. simpl.
  replace (F32.ltb m (F32.neg b)) with true; [done|].
  clear -Hmb Hb. symmetry.
  destruct b as [[]|[]| |[] mb eb]; try done;
    destruct m as [[]|[]| |[] mm em]; try done.
Qed.

Lemma clamp_axis_zero d s :
  F32.is_nan d = false →
  ∃ s', F32.maximum (F32.minimum d (S754_zero s)) (F32.neg (S754_zero s)) = S754_zero s'.
Proof.
  intros Hd. destruct d as [sd|[]| |[] md ed]; try done; destruct s; simpl; eauto.
Qed.

Lemma add_zero_eqb p s : F32.is_nan p = false → f32_eqb (F32.add p (S754_zero s)) p = true.
Proof.
  intros Hp. destruct p as [[]|[]| |[] mp ep]; try done; destruct s; try done;
    unfold f32_eqb, SFeqb; simpl; by rewrite Z.compare_refl, Pos.compare_cont_refl.
Qed.

Lemma sub_not_nan_r g p : F32.is_nan (F32.sub g p) = false → F32.is_nan p = false.
Proof. destruct p; try done. by destruct g. Qed.

(** X3.  A bound that is not positive makes the clamp ignore the goal.  For
    equal sizes, on every axis whose delta [goal - present] is not NaN: a
    negative bound [b] yields [present + (-b)], a step of [|b|] upwards
    whatever was requested, and a zero bound yields a position that compares
    equal to the present one. *)
Theorem ensure_safe_goal_position_nonpositive_bound goal present b :
  length goal = length present →
  match b with PyList bs => length bs = length goal | PyFloat _ => True end →
  ∃ safe_goal_pos,
    ensure_safe_goal_position goal present b = Ok safe_goal_pos
    ∧ ∀ i g p bi,
        goal !! i = Some g → present !! i = Some p →
        bound_at (torch_tensor b) i = Some bi →
        F32.is_nan (F32.sub g p) = false →
        (F32.ltb bi F32.zero = true → safe_goal_pos !! i = Some (F32.add p (F32.neg bi)))
        ∧ (∀ s, bi = S754_zero s →
             ∃ r, safe_goal_pos !! i = Some r ∧ f32_eqb r p = true).
Proof.
  intros Hlen Hb. rewrite ensure_safe_goal_position_zip by done.
  eexists. split; [done|]. intros i g p bi Hg Hp Hbi Hd.
  assert (Hi : zip_with F32.add present
                 (safe_diffs (zip_with F32.sub goal present) (torch_tensor b)) !! i
               = Some (F32.add p (F32.maximum (F32.minimum (F32.sub g p) bi) (F32.neg bi)))).
  { rewrite lookup_zip_with, Hp. simpl.
    erewrite safe_diffs_lookup; [done| |done].
    by rewrite lookup_zip_with, Hg, Hp. }
  split.
  - intros Hneg. by rewrite Hi, clamp_axis_negative.
  - intros s ->. destruct (clamp_axis_zero (F32.sub g p) s Hd) as [s' Hs'].
    rewrite Hi, Hs'. eexists. split; [done|].
    apply add_zero_eqb. by eapply sub_not_nan_r.
Qed.

Lemma ensure_safe_goal_position_nan_witness :
  ∃ safe_goal_pos,
    ensure_safe_goal_position [f32_nan] [f32_100] (PyFloat py_0_3) = Ok safe_goal_pos
    ∧ safe_goal_pos !! 0%nat = Some f32_nan.
Proof.
  apply (ensure_safe_goal_position_nan [f32_nan] [f32_100] (PyFloat py_0_3)
           0 f32_nan f32_100); reflexivity || exact I.
Defined.

Lemma ensure_safe_goal_position_nonpositive_bound_witness :
  ∃ safe_goal_pos,
    ensure_safe_goal_position [f32_150] [f32_100] (PyFloat py_minus_0_3) = Ok safe_goal_pos
    ∧ ∀ i g p bi,
        [f32_150] !! i = Some g → [f32_100] !! i = Some p →
        bound_at (torch_tensor (PyFloat py_minus_0_3)) i = Some bi →
        F32.is_nan (F32.sub g p) = false →
        (F32.ltb bi F32.zero = true → safe_goal_pos !! i = Some (F32.add p (F32.neg bi)))
        ∧ (∀ s, bi = S754_zero s →
             ∃ r, safe_goal_pos !! i = Some r ∧ f32_eqb r p = true).
Proof.
  apply (ensure_safe_goal_position_nonpositive_bound
           [f32_150] [f32_100] (PyFloat py_minus_0_3)); reflexivity || exact I.
Defined.

(** ** Shape and dtype of what stage 2 builds *)

Lemma forallb_NInt (zs : list Z) : forallb (num_of_dtype int64) (NInt <$> zs) = true.
Proof. by induction zs. Qed.

Lemma forallb_num_to_float64 (l : list num) :
  forallb (num_of_dtype float64) (num_to_float64 <$> l) = true.
Proof. induction l as [|[] l IH]; simpl; auto. Qed.

Lemma torch_tensor_int64_ok v t :
  torch_tensor_int64 v = Ok t →
  ∃ a, t = PTensor a ∧ nd_dtype a = int64
       ∧ forallb (num_of_dtype int64) (nd_data a) = true
       ∧ (is_array v = false → nd_shape a = [1%nat] ∧ length (nd_data a) = 1%nat).
Proof.
  unfold torch_tensor_int64. intros H.
  destruct v; inv_ok; try discriminate;
    eexists; (split; [reflexivity|]); simpl; split_and!;
    try done; apply forallb_NInt.
Qed.

Lemma torch_tensor_float64_ok v t :
  torch_tensor_float64 v = Ok t →
  ∃ a, t = PTensor a ∧ nd_dtype a = float64
       ∧ forallb (num_of_dtype float64) (nd_data a) = true
       ∧ (is_array v = false → nd_shape a = [1%nat] ∧ length (nd_data a) = 1%nat).
Proof.
  unfold torch_tensor_float64. intros H.
  destruct v; inv_ok; try discriminate;
    eexists; (split; [reflexivity|]); simpl; split_and!;
    try done; apply forallb_num_to_float64.
Qed.

Lemma tensor3_ok a i j k t names :
  tensor3 a i j k = Ok t → conforms (mk_feature "float64" [3%nat] names) t = true.
Proof.
  unfold tensor3.
  destruct (nd_data a !! i) as [x|], (nd_data a !! j) as [y|], (nd_data a !! k) as [z|];
    try discriminate.
  intros [= <-]. by destruct x, y, z.
Qed.

Lemma resultant_ok data k t names :
  resultant data k = Ok t → conforms (mk_feature "float64" [3%nat] names) t = true.
Proof.
  unfold resultant. intros H.
  repeat match type of H with
         | context [match ?x with _ => _ end] => destruct x eqn:?
         end;
    try discriminate; try (by injection H as <-); by eapply tensor3_ok.
Qed.

Lemma scalar_metadata_get data d k dflt :
  scalar_metadata data = true → truthy data = Some d → k ∈ metadata_keys →
  is_array dflt = false → is_array (dict_get d k dflt) = false.
Proof.
  unfold scalar_metadata, dict_get. intros Hs Ht Hk Hd. rewrite Ht in Hs.
  rewrite forallb_forall in Hs. apply list_elem_of_In in Hk. specialize (Hs k Hk).
  destruct (d !! k) as [v|]; [|done]. simpl in *. by apply negb_true_iff.
Qed.

Lemma process_sensor_conforms name sensor data now kvs f d v :
  process_sensor name sensor data now = Ok kvs →
  (f, d) ∈ sensor_schema sensor → f ∈ checked_fields →
  f ∈ ["resultant_force"; "resultant_moment"] ∨ scalar_metadata data = true →
  (name +:+ "_" +:+ f, v) ∈ kvs →
  conforms d v = true.
Proof.
  unfold process_sensor, sensor_schema, sensor_type_of, checked_fields.
  intros Hp Hd Hf Hcase Hv.
  destruct (truthy data) as [payload|] eqn:Ht; repeat case_decide; inv_ok;
    repeat match goal with
           | H : torch_tensor_int64 _ = Ok _ |- _ =>
               apply torch_tensor_int64_ok in H as (? & -> & ? & ? & ?)
           | H : torch_tensor_float64 _ = Ok _ |- _ =>
               apply torch_tensor_float64_ok in H as (? & -> & ? & ? & ?)
           | H : resultant _ _ = Ok _ |- _ =>
               apply (resultant_ok _ _ _ (Some ["x"; "y"; "z"])) in H
           end.
  all: split_in Hf; subst f; split_in Hd; simplify_eq.
  all: simpl in Hv; split_in Hv.
  all: try (key_eq Hv; done).
  all: try match goal with
           | E : gelsight_image _ _ = Ok ?l, Hin : (_, _) ∈ ?l |- _ =>
               apply (gelsight_image_entries _ _ _ _ _ E) in Hin;
               apply string_app_inv_head in Hin; discriminate Hin
           end.
  all: key_eq Hv.
  all: destruct Hcase as [Hcase|Hcase]; [split_in Hcase; discriminate|].
  all: match goal with
       | Hdt : nd_dtype ?x = _, Hall : forallb _ (nd_data ?x) = true,
         Hsh : is_array _ = false → nd_shape ?x = _ ∧ _ |- conforms _ (PTensor ?x) = true =>
           destruct Hsh as [Hs Hl];
           [|unfold conforms, nd_size; rewrite Hdt, Hs, Hl, Hall; reflexivity]
       end.
  all: repeat first
         [ reflexivity
         | apply (scalar_metadata_get data payload _ _ Hcase Ht);
           [unfold metadata_keys;
            solve [repeat first [apply list_elem_of_here | apply list_elem_of_further]]|] ].
Qed.

Lemma conforms_dtype d v :
  conforms d v = true →
  ∃ a, v = PTensor a ∧ dtype_eqb (dtype_named (ft_dtype d)) (nd_dtype a) = true.
Proof.
  destruct v; try discriminate. simpl. intros H.
  repeat (apply andb_prop in H as [H ?]). eauto.
Qed.

Lemma process_sensor_dtype name sensor data now kvs f d v :
  process_sensor name sensor data now = Ok kvs →
  (f, d) ∈ sensor_schema sensor → f ∈ checked_fields →
  (name +:+ "_" +:+ f, v) ∈ kvs →
  ∃ a, v = PTensor a ∧ dtype_eqb (dtype_named (ft_dtype d)) (nd_dtype a) = true.
Proof.
  unfold process_sensor, sensor_schema, sensor_type_of, checked_fields.
  intros Hp Hd Hf Hv.
  destruct (truthy data) as [payload|] eqn:Ht; repeat case_decide; inv_ok;
    repeat match goal with
           | H : torch_tensor_int64 _ = Ok _ |- _ =>
               apply torch_tensor_int64_ok in H as (? & -> & ? & _ & _)
           | H : torch_tensor_float64 _ = Ok _ |- _ =>
               apply torch_tensor_float64_ok in H as (? & -> & ? & _ & _)
           | H : resultant _ _ = Ok _ |- _ =>
               apply (resultant_ok _ _ _ (Some ["x"; "y"; "z"])) in H;
               apply conforms_dtype in H as (? & -> & ?)
           end.
  all: split_in Hf; subst f; split_in Hd; simplify_eq.
  all: simpl in Hv; split_in Hv.
  all: try (key_eq Hv; fail).
  all: try match goal with
           | E : gelsight_image _ _ = Ok ?l, Hin : (_, _) ∈ ?l |- _ =>
               apply (gelsight_image_entries _ _ _ _ _ E) in Hin;
               apply string_app_inv_head in Hin; discriminate Hin
           end.
  all: key_eq Hv; eexists; (split; [reflexivity|]); simpl;
    first [done | by match goal with Hdt : nd_dtype _ = _ |- _ => rewrite Hdt end].
Qed.

Lemma process_sensor_timestamps name sensor data now kvs v1 v2 :
  process_sensor name sensor data now = Ok kvs →
  sensor_type_of sensor ≠ "tac3d"
  ∨ (∀ d, truthy data = Some d → d !! "sendTimestamp" = None) →
  (name +:+ "_send_timestamp", v1) ∈ kvs →
  (name +:+ "_recv_timestamp", v2) ∈ kvs →
  v1 = v2.
Proof.
  unfold process_sensor, sensor_type_of.
  intros Hp Hcase H1 H2.
  destruct (truthy data) as [d|] eqn:Ht; repeat case_decide; inv_ok.
  all: try (destruct Hcase as [Hcase|Hcase]; [done|];
            specialize (Hcase d eq_refl);
            match goal with
            | E : torch_tensor_float64 _ = _ |- _ => rewrite Hcase in E
            end).
  all: split_in H1; try (key_eq H1; fail); split_in H2; try (key_eq H2; fail).
  all: try (key_eq H1; key_eq H2; congruence).
  all: match goal with
       | E : gelsight_image _ _ = Ok ?l, Hin : (_, _) ∈ ?l |- _ =>
           apply (gelsight_image_entries _ _ _ _ _ E) in Hin;
           apply string_app_inv_head in Hin; discriminate Hin
       end.
Qed.

Lemma digit_image_shape data v :
  digit_image data = Ok v → ∃ a h w, v = PTensor a ∧ nd_shape a = [h; w; 3%nat].
Proof.
  unfold digit_image, torch_from_numpy. intros H.
  repeat match type of H with
         | context [match ?x with _ => _ end] => destruct x eqn:?
         end;
    injection H as <-;
    first [ by eexists _, _, _; split; [reflexivity|eassumption]
          | by eexists _, _, _; split; reflexivity ].
Qed.

Lemma process_sensor_digit_image name sensor data now kvs v :
  process_sensor name sensor data now = Ok kvs →
  sensor_type_of sensor = "digit" →
  (name +:+ "_tactile_image", v) ∈ kvs →
  ∃ a h w, v = PTensor a ∧ nd_shape a = [h; w; 3%nat].
Proof.
  unfold process_sensor, sensor_type_of.
  intros Hp Ht Hv.
  destruct (truthy data) as [d|]; repeat case_decide; try congruence; inv_ok.
  all: split_in Hv; try (key_eq Hv; fail).
  - key_eq Hv. by eapply digit_image_shape.
  - key_eq Hv. by eexists _, _, _; split; reflexivity.
Qed.

Lemma tactile_features_lookup cfg name sensor f d :
  NoDup (tactile_keys (tactile_sensors cfg)) →
  (name, sensor) ∈ tactile_sensors cfg → (f, d) ∈ sensor_schema sensor →
  tactile_features cfg !! tactile_key (sensor_type_of sensor) name f = Some d.
Proof.
  intros Hkeys Hin Hf. rewrite tactile_features_assign.
  apply assign_all_nodup; [by rewrite tactile_keys_fst|].
  apply list_elem_of_bind. exists (name, sensor). split; [|done].
  rewrite sensor_features_schema. apply list_elem_of_fmap. by exists (f, d).
Qed.

(** X4.  Whenever [_get_tactile_observation] returns, for every sensor the
    frame index, the two timestamps and, where the schema declares them, the
    resultant force and moment are tensors of the dtype that
    [tactile_features] declares under the same key, whatever the sensor
    returned.  The resultant force and moment also have the declared shape
    whatever the sensor returned; the frame index and the timestamps have it
    when the payload gives none of them as an array (sensor names and schema
    keys distinct). *)
Theorem tactile_observation_conforms hw cfg self obs :
  NoDup (tactile_sensors cfg).*1 →
  NoDup (tactile_keys (tactile_sensors cfg)) →
  (_get_tactile_observation hw cfg self).2 = Ok obs →
  ∀ name sensor f d,
    (name, sensor) ∈ tactile_sensors cfg →
    (f, d) ∈ sensor_schema sensor → f ∈ checked_fields →
    tactile_features cfg !! tactile_key (sensor_type_of sensor) name f = Some d
    ∧ ∃ a, obs !! tactile_key (sensor_type_of sensor) name f = Some (PTensor a)
           ∧ dtype_eqb (dtype_named (ft_dtype d)) (nd_dtype a) = true
           ∧ (f ∈ ["resultant_force"; "resultant_moment"]
              ∨ scalar_metadata (tactile_outcome hw (calls self) name) = true →
              conforms d (PTensor a) = true).
Proof.
  intros Hnames Hkeys Hobs name sensor f d Hin Hf Hchecked.
  split; [by apply tactile_features_lookup|].
  destruct (tactile_observation_lookup hw cfg self obs Hnames Hkeys Hobs name sensor Hin)
    as (i & kvs & _ & Hp & Hfields).
  destruct (Hfields f d Hf) as (v & Hv & Hobsv).
  destruct (process_sensor_dtype _ _ _ _ _ _ _ _ Hp Hf Hchecked Hv) as (a & -> & Hdt).
  exists a. split_and!; [done|done|]. intros Hcase. by eapply process_sensor_conforms.
Qed.

(** X5.  In the observation the send and the receive timestamp of a sensor
    are the same tensor unless the sensor is a Tac3D whose payload carries
    [sendTimestamp]: GelSight and DIGIT payloads have one timestamp, and a
    Tac3D payload without [sendTimestamp] falls back to [recvTimestamp]. *)
Theorem tactile_timestamps_coincide hw cfg self obs :
  NoDup (tactile_sensors cfg).*1 →
  NoDup (tactile_keys (tactile_sensors cfg)) →
  (_get_tactile_observation hw cfg self).2 = Ok obs →
  ∀ name sensor,
    (name, sensor) ∈ tactile_sensors cfg →
    sensor_type_of sensor ≠ "tac3d"
    ∨ (∀ d, truthy (tactile_outcome hw (calls self) name) = Some d →
            d !! "sendTimestamp" = None) →
    ∃ v, obs !! tactile_key (sensor_type_of sensor) name "send_timestamp" = Some v
         ∧ obs !! tactile_key (sensor_type_of sensor) name "recv_timestamp" = Some v.
Proof.
  intros Hnames Hkeys Hobs name sensor Hin Hcase.
  destruct (tactile_observation_lookup hw cfg self obs Hnames Hkeys Hobs name sensor Hin)
    as (i & kvs & _ & Hp & Hfields).
  destruct (Hfields "send_timestamp" (mk_feature "float64" [1%nat] None))
    as (v1 & Hv1 & Hobs1).
  { unfold sensor_schema. apply elem_of_app. left.
    repeat first [apply list_elem_of_here | apply list_elem_of_further]. }
  destruct (Hfields "recv_timestamp" (mk_feature "float64" [1%nat] None))
    as (v2 & Hv2 & Hobs2).
  { unfold sensor_schema. apply elem_of_app. left.
    repeat first [apply list_elem_of_here | apply list_elem_of_further]. }
  exists v1. split; [done|].
  by rewrite (process_sensor_timestamps _ _ _ _ _ v1 v2 Hp Hcase Hv1 Hv2).
Qed.

(** X6.  The tactile image of a DIGIT sensor in the observation is always a
    tensor of three dimensions whose last one is 3, whatever the payload
    held under [tactile_image] or [image]. *)
Theorem tactile_digit_image_channels hw cfg self obs :
  NoDup (tactile_sensors cfg).*1 →
  NoDup (tactile_keys (tactile_sensors cfg)) →
  (_get_tactile_observation hw cfg self).2 = Ok obs →
  ∀ name sensor,
    (name, sensor) ∈ tactile_sensors cfg → sensor_type_of sensor = "digit" →
    ∃ a h w, obs !! tactile_key "digit" name "tactile_image" = Some (PTensor a)
             ∧ nd_shape a = [h; w; 3%nat].
Proof.
  intros Hnames Hkeys Hobs name sensor Hin Ht.
  destruct (tactile_observation_lookup hw cfg self obs Hnames Hkeys Hobs name sensor Hin)
    as (i & kvs & _ & Hp & Hfields).
  destruct (Hfields "tactile_image"
              (mk_feature "uint8" [240; 320; 3]%nat (Some ["height"; "width"; "channel"])))
    as (v & Hv & Hobsv).
  { unfold sensor_schema. rewrite Ht. apply elem_of_app. right. simpl.
    apply list_elem_of_here. }
  destruct (process_sensor_digit_image _ _ _ _ _ _ Hp Ht Hv) as (a & h & w & -> & Hshape).
  exists a, h, w. by rewrite <- Ht.
Qed.

(** ** The order in which the reads complete *)

Lemma key_of_data_keys names k :
  k ∈ data_keys names ↔ ∃ name, name ∈ names ∧ key_of name k.
Proof.
  unfold data_keys, key_of. rewrite list_elem_of_bind. split.
  - intros (name & Hk & Hin). apply list_elem_of_fmap in Hk as (f & -> & Hf). eauto.
  - intros (name & Hin & f & Hf & ->). exists name. split; [|done].
    apply list_elem_of_fmap. eauto.
Qed.

Lemma process_sensor_stamped name sensor data now1 now2 :
  (∀ payload, truthy data = Some payload →
     sensor_type_of sensor = "gelsight" ∨ sensor_type_of sensor = "digit" →
     is_Some (payload !! "timestamp")) →
  process_sensor name sensor data now1 = process_sensor name sensor data now2.
Proof.
  unfold process_sensor, sensor_type_of. intros H.
  destruct (truthy data) as [payload|]; [|done].
  repeat case_decide; try done.
  all: destruct (H payload eq_refl) as [v Hv]; [auto|].
  all: unfold dict_get; by rewrite !Hv.
Qed.

Section Reordered.

Variable sensors : list (string * TactileSensor).
Variable outcome : string → raw_data.
Variable clock : nat → F64.t.
Hypothesis registry : NoDup sensors.*1.
Hypothesis stamped :
  ∀ name sensor payload,
    (name, sensor) ∈ sensors → truthy (outcome name) = Some payload →
    sensor_type_of sensor = "gelsight" ∨ sensor_type_of sensor = "digit" →
    is_Some (payload !! "timestamp").

Lemma stage2_total order :
  (∀ name, name ∈ order →
     ∃ sensor kvs, (name, sensor) ∈ sensors
       ∧ ∀ now, process_sensor name sensor (outcome name) now = Ok kvs) →
  ∀ start acc, ∃ td,
    fold_result_at start ((λ name, (name, outcome name)) <$> order) acc
      (stage2_body sensors clock) = Ok td.
Proof.
  induction order as [|n order IH]; intros Hall start acc; [by eexists|].
  destruct (Hall n) as (sensor & kvs & Hin & Hp); [by left|].
  simpl. unfold stage2_body at 1. unfold getitem.
  rewrite (elem_of_list_to_map_1 (M := gmap string) sensors n sensor) by done.
  simpl. rewrite Hp. simpl. apply IH. intros name Hname. apply Hall. by right.
Qed.

Lemma process_raw_reorder order1 order2 td :
  order1 ≡ₚ sensors.*1 → order2 ≡ₚ sensors.*1 →
  process_raw sensors ((λ name, (name, outcome name)) <$> order1) clock = Ok td →
  process_raw sensors ((λ name, (name, outcome name)) <$> order2) clock = Ok td.
Proof.
  unfold process_raw. intros Hp1 Hp2 H1.
  destruct (stage2_ok sensors outcome clock registry order1)
    with (start := 0%nat) (acc := (∅ : gmap string pyval)) (td := td) as [HT1 HO1];
    [by rewrite Hp1|intros; apply lookup_empty|done|].
  destruct (stage2_total order2) with (start := 0%nat) (acc := (∅ : gmap string pyval))
    as [td2 H2].
  { intros name Hname. rewrite Hp2 in Hname.
    apply list_elem_of_fmap in Hname as ([n sensor] & -> & Hin). simpl.
    destruct (HT1 n sensor) as (i & kvs & _ & Hkvs & _); [|done|].
    { rewrite Hp1. apply list_elem_of_fmap. by exists (n, sensor). }
    exists sensor, kvs. split; [done|]. intros now. rewrite <- Hkvs.
    apply process_sensor_stamped. intros payload. by apply stamped. }
  destruct (stage2_ok sensors outcome clock registry order2)
    with (start := 0%nat) (acc := (∅ : gmap string pyval)) (td := td2) as [HT2 HO2];
    [by rewrite Hp2|intros; apply lookup_empty|done|].
  rewrite H2. f_equal. apply map_eq. intros k.
  destruct (decide (k ∈ data_keys sensors.*1)) as [Hk|Hk].
  - apply key_of_data_keys in Hk as (name & Hname & Hk).
    pose proof Hname as Hname'.
    apply list_elem_of_fmap in Hname' as ([n sensor] & -> & Hin). simpl in *.
    destruct (HT1 n sensor) as (i1 & kvs1 & _ & Hkvs1 & Hl1); [by rewrite Hp1|done|].
    destruct (HT2 n sensor) as (i2 & kvs2 & _ & Hkvs2 & Hl2); [by rewrite Hp2|done|].
    rewrite Hl1, Hl2 by done.
    rewrite (process_sensor_stamped n sensor (outcome n) _ (clock i1)) in Hkvs2.
    + congruence.
    + intros payload. by apply stamped.
  - rewrite HO1, HO2; [done|..].
    + intros name Hname Hkey. apply Hk, key_of_data_keys.
      exists name. split; [by rewrite <- Hp2|done].
    + intros name Hname Hkey. apply Hk, key_of_data_keys.
      exists name. split; [by rewrite <- Hp1|done].
Qed.

End Reordered.

(** X7.  When every GelSight and DIGIT sensor that returned a payload put a
    [timestamp] in it, so that no field falls back on [time.time()], the
    observation does not depend on the order in which the parallel reads of
    stage 1 complete: if [_get_tactile_observation] returns under one
    scheduling of the reading threads, it returns the same dictionary under
    any other (sensor names distinct). *)
Theorem tactile_observation_order_independent hw cfg self completion obs :
  NoDup (tactile_sensors cfg).*1 →
  (∀ name sensor payload,
     (name, sensor) ∈ tactile_sensors cfg →
     truthy (tactile_outcome hw (calls self) name) = Some payload →
     sensor_type_of sensor = "gelsight" ∨ sensor_type_of sensor = "digit" →
     is_Some (payload !! "timestamp")) →
  (_get_tactile_observation hw cfg self).2 = Ok obs →
  (_get_tactile_observation (with_completion hw completion) cfg self).2 = Ok obs.
Proof.
  intros Hnames Hstamped. rewrite !get_tactile_observation_run. unfold normalise_tactile.
  intros H. apply result_bind_ok in H as (td & Htd & H).
  change (tactile_outcome (with_completion hw completion))
    with (tactile_outcome hw).
  change (time_time (with_completion hw completion)) with (time_time hw).
  erewrite process_raw_reorder;
    [exact H|done|done|apply schedule_perm|apply schedule_perm|done].
Qed.

Lemma truthy_lacks data (k : string) :
  from_option (λ d : gmap string pyval, bool_decide (d !! k = None)) true (truthy data) = true →
  ∀ d, truthy data = Some d → d !! k = None.
Proof. intros H d Hd. rewrite Hd in H. simpl in H. by apply bool_decide_eq_true in H. Qed.

Lemma truthy_has data (k : string) :
  from_option (λ d : gmap string pyval, bool_decide (is_Some (d !! k))) true (truthy data)
  = true →
  ∀ d, truthy data = Some d → is_Some (d !! k).
Proof. intros H d Hd. rewrite Hd in H. simpl in H. by apply bool_decide_eq_true in H. Qed.

Lemma tactile_observation_conforms_witness :
  ∃ obs,
    (_get_tactile_observation (steady tac3d_payload) (one_sensor ex_tac3d) connected).2
      = Ok obs
    ∧ ∀ name sensor f d,
        (name, sensor) ∈ tactile_sensors (one_sensor ex_tac3d) →
        (f, d) ∈ sensor_schema sensor → f ∈ checked_fields →
        ∃ v, obs !! tactile_key (sensor_type_of sensor) name f = Some v
             ∧ conforms d v = true.
Proof.
  pose proof (returned_ok
                (_get_tactile_observation (steady tac3d_payload) (one_sensor ex_tac3d)
                   connected).2 eq_refl) as Hrun.
  eexists. split; [exact Hrun|].
  intros name sensor f d Hin Hf Hchecked.
  assert (Hkeys : NoDup (tactile_keys (tactile_sensors (one_sensor ex_tac3d)))).
  { apply (bool_decide_unpack _). vm_compute. exact I. }
  destruct (tactile_observation_conforms (steady tac3d_payload) (one_sensor ex_tac3d)
              connected _ (NoDup_singleton _) Hkeys Hrun name sensor f d Hin Hf Hchecked)
    as (_ & a & Hobs & _ & Hconf).
  exists (PTensor a). split; [exact Hobs|]. apply Hconf. right. reflexivity.
Defined.

Lemma tactile_timestamps_coincide_witness :
  ∃ obs,
    (_get_tactile_observation (steady tac3d_payload) (one_sensor ex_tac3d) connected).2
      = Ok obs
    ∧ ∃ v, obs !! "observation.tactile.tac3d.fingertip.send_timestamp" = Some v
           ∧ obs !! "observation.tactile.tac3d.fingertip.recv_timestamp" = Some v.
Proof.
  eexists. split; [apply returned_ok; vm_compute; reflexivity|].
  apply (tactile_timestamps_coincide (steady tac3d_payload) (one_sensor ex_tac3d) connected)
    with (name := "fingertip") (sensor := ex_tac3d).
  - apply NoDup_singleton.
  - apply (bool_decide_unpack _). vm_compute. exact I.
  - apply returned_ok. vm_compute. reflexivity.
  - apply list_elem_of_here.
  - right. apply truthy_lacks. vm_compute. reflexivity.
Defined.

Lemma tactile_digit_image_channels_witness :
  ∃ obs,
    (_get_tactile_observation (steady image_payload) (one_sensor ex_digit) connected).2
      = Ok obs
    ∧ ∃ a h w,
        obs !! tactile_key "digit" "fingertip" "tactile_image" = Some (PTensor a)
        ∧ nd_shape a = [h; w; 3%nat].
Proof.
  eexists. split; [apply returned_ok; vm_compute; reflexivity|].
  apply (tactile_digit_image_channels (steady image_payload) (one_sensor ex_digit) connected _
           (NoDup_singleton _)) with (sensor := ex_digit).
  - apply (bool_decide_unpack _). vm_compute. exact I.
  - apply returned_ok. vm_compute. reflexivity.
  - apply list_elem_of_here.
  - reflexivity.
Defined.

Lemma tactile_observation_order_independent_witness :
  schedule [1%nat] (tactile_sensors two_fingers).*1
  ≠ schedule [] (tactile_sensors two_fingers).*1
  ∧ ∃ obs,
      (_get_tactile_observation (steady stamped_payload) two_fingers connected).2 = Ok obs
      ∧ (_get_tactile_observation (with_completion (steady stamped_payload) (λ _, [1%nat]))
           two_fingers connected).2 = Ok obs.
Proof.
  split; [discriminate|].
  eexists. split; [apply returned_ok; vm_compute; reflexivity|].
  apply (tactile_observation_order_independent (steady stamped_payload) two_fingers
           connected).
  - apply (bool_decide_unpack _). vm_compute. exact I.
  - intros name sensor payload _ Ht _.
    apply (truthy_has stamped_payload "timestamp"); [vm_compute; reflexivity|exact Ht].
  - apply returned_ok. vm_compute. reflexivity.
Defined.

(** ** Keys of an observation *)

Lemma dom_camera_features cfg :
  dom (camera_features cfg)
  = list_to_set ((λ name, "observation.images." +:+ name) <$> (cameras cfg).*1).
Proof.
  unfold camera_features.
  assert (G : ∀ acc : gmap string feature,
    dom (foldl (λ features '(name, camera),
                  <["observation.images." +:+ name :=
                      mk_feature "video" [height camera; width camera; channels camera]
                        (Some ["height"; "width"; "channels"])]> features)
               acc (cameras cfg))
    = dom acc ∪ list_to_set ((λ name, "observation.images." +:+ name) <$> (cameras cfg).*1)).
  { induction (cameras cfg) as [|[n c] l IH]; intros acc; simpl; [set_solver|].
    rewrite IH, dom_insert_L. set_solver. }
  rewrite G, dom_empty_L. set_solver.
Qed.

Lemma dom_motor_features cfg :
  dom (motor_features cfg) = {[ "observation.state"; "action" ]}.
Proof. unfold motor_features. rewrite !dom_insert_L, dom_empty_L. set_solver. Qed.

Lemma dom_populate cfg state images tactile_obs obs :
  populate cfg state images tactile_obs = Ok obs →
  dom obs = dom tactile_obs ∪ {[ "observation.state" ]}
            ∪ list_to_set ((λ name, "observation.images." +:+ name) <$> (cameras cfg).*1).
Proof.
  unfold populate. intros H. apply result_bind_ok in H as (obs_dict & Hfold & [= <-]).
  assert (G : ∀ acc obs_dict : gmap string pyval,
    fold_result (cameras cfg) acc
      (λ obs_dict '(name, _),
         image ← getitem images name;
         Ok (<["observation.images." +:+ name := image]> obs_dict)) = Ok obs_dict →
    dom obs_dict = dom acc
      ∪ list_to_set ((λ name, "observation.images." +:+ name) <$> (cameras cfg).*1)).
  { clear. induction (cameras cfg) as [|[n c] l IH]; intros acc obs_dict H; simpl in *.
    - injection H as <-. set_solver.
    - apply result_bind_ok in H as (acc1 & Hbody & H).
      apply result_bind_ok in Hbody as (image & _ & [= <-]).
      rewrite (IH _ _ H), dom_insert_L. set_solver. }
  rewrite dom_union_L, (G _ _ Hfold), dom_singleton_L. set_solver.
Qed.

Lemma action_not_image_key (names : list string) :
  "action" ∉ (λ name, "observation.images." +:+ name) <$> names.
Proof. intros H. apply list_elem_of_fmap in H as (n & H & _). discriminate H. Qed.

Lemma action_not_tactile_key cfg : "action" ∉ dom (tactile_features cfg).
Proof.
  intros H. apply elem_of_dom in H as [d H].
  apply tactile_features_key in H as [rest H]. discriminate H.
Qed.

Lemma observation_keys cfg state images tactile_obs obs :
  dom tactile_obs = dom (tactile_features cfg) →
  populate cfg state images tactile_obs = Ok obs →
  dom obs = dom (features cfg) ∖ {[ "action" ]}.
Proof.
  intros Htac Hpop. rewrite (dom_populate _ _ _ _ _ Hpop), Htac.
  unfold features. rewrite !dom_union_L, dom_camera_features, dom_motor_features.
  pose proof (action_not_tactile_key cfg) as H1.
  pose proof (action_not_image_key (cameras cfg).*1) as H2.
  rewrite <- (elem_of_list_to_set (C := gset string)) in H2.
  revert H1 H2.
  generalize (dom (tactile_features cfg)).
  generalize (list_to_set ((λ name, "observation.images." +:+ name) <$> (cameras cfg).*1) : gset string).
  intros C T H1 H2. set_solver.
Qed.

Lemma tactile_observation_dom hw cfg self obs :
  NoDup (tactile_sensors cfg).*1 →
  (_get_tactile_observation hw cfg self).2 = Ok obs →
  dom obs = dom (tactile_features cfg).
Proof.
  intros Hnames Hobs. rewrite get_tactile_observation_run in Hobs.
  rewrite dom_tactile_features.
  eapply normalise_tactile_ok; [done|apply schedule_perm|done].
Qed.

Lemma run_snd {A} (m : M A) self self' (r : result A) : m self = (self', r) → (m self).2 = r.
Proof. by intros ->. Qed.

(** X8.  Every frame has exactly the keys of the feature schema.  When
    [capture_observation] returns, the keys of the observation are the keys
    of [features] without ["action"]; when [teleop_step(record_data=True)]
    returns, its observation has the same keys and its action dictionary has
    the single key ["action"] (sensor names distinct). *)
Theorem observation_keys_match_features hw cfg self :
  NoDup (tactile_sensors cfg).*1 →
  (∀ self' obs,
     capture_observation hw cfg self = (self', Ok obs) →
     dom obs = dom (features cfg) ∖ {[ "action" ]})
  ∧ (∀ self' r,
       teleop_step hw cfg true self = (self', Ok r) →
       ∃ obs action,
         r = Some (obs, action)
         ∧ dom obs = dom (features cfg) ∖ {[ "action" ]}
         ∧ dom action = {[ "action" ]}
         ∧ dom obs ∪ dom action = dom (features cfg)).
Proof.
  intros Hnames. split.
  - intros self' obs H. unfold capture_observation in H.
    apply bind_ok_inv in H as (s0 & [] & _ & H).
    apply bind_ok_inv in H as (s1 & fp & _ & H).
    apply bind_ok_inv in H as (s2 & state & _ & H).
    apply bind_ok_inv in H as (s3 & images & _ & H).
    apply bind_ok_inv in H as (s4 & tactile_obs & Htac & H).
    apply bind_ok_inv in H as (s5 & [] & _ & H).
    injection H as _ Hpop.
    eapply observation_keys; [|exact Hpop].
    eapply tactile_observation_dom; [done|]. by erewrite run_snd.
  - intros self' r H. unfold teleop_step in H.
    apply bind_ok_inv in H as (s0 & [] & _ & H).
    apply bind_ok_inv in H as (s1 & lp & _ & H).
    apply bind_ok_inv in H as (s2 & fgp & _ & H).
    simpl in H.
    apply bind_ok_inv in H as (s3 & fp & _ & H).
    apply bind_ok_inv in H as (s4 & state & _ & H).
    apply bind_ok_inv in H as (s5 & action & _ & H).
    apply bind_ok_inv in H as (s6 & images & _ & H).
    apply bind_ok_inv in H as (s7 & tactile_obs & Htac & H).
    apply bind_ok_inv in H as (s8 & [] & _ & H).
    apply bind_ok_inv in H as (s9 & obs & Hpop & H).
    injection Hpop as _ Hpop. injection H as _ <-.
    assert (Hobs : dom obs = dom (features cfg) ∖ {[ "action" ]}).
    { eapply observation_keys; [|exact Hpop].
      eapply tactile_observation_dom; [done|]. by erewrite run_snd. }
    eexists _, _. split; [done|]. split; [done|].
    rewrite dom_singleton_L. split; [done|].
    rewrite Hobs.
    assert ("action" ∈ dom (features cfg)).
    { unfold features. rewrite !dom_union_L, dom_motor_features. set_solver. }
    apply set_eq. intros k. rewrite elem_of_union, elem_of_difference, elem_of_singleton.
    destruct (decide (k = "action")) as [->|]; tauto.
Qed.

Lemma run_returned (m : M (gmap string pyval)) self :
  succeeded (m self).2 = true → m self = ((m self).1, Ok (returned (m self).2)).
Proof. destruct (m self) as [self' []]; [done|discriminate]. Qed.

Lemma observation_keys_match_features_witness :
  ∃ self' obs,
    capture_observation bench bench_robot connected = (self', Ok obs)
    ∧ dom obs = dom (features bench_robot) ∖ {[ "action" ]}.
Proof.
  eexists _, _. split; [apply run_returned; vm_compute; reflexivity|].
  eapply (proj1 (observation_keys_match_features bench bench_robot connected
                   (NoDup_singleton _))).
  apply run_returned. vm_compute. reflexivity.
Defined.

(** ** Capturing only reads *)

Lemma monoidal_read_only : monoidal (Forall (λ c, read_only c = true)).
Proof. split; [constructor|]. intros l1 l2 H1 H2. by apply Forall_app. Qed.

Lemma read_only_writes l : Forall (λ c, read_only c = true) l → writes l = [].
Proof. induction 1 as [|c l Hc _ IH]; [done|]. by destruct c. Qed.

Lemma capture_observation_emits_queries hw cfg :
  emits (Forall (λ c, read_only c = true)) (capture_observation hw cfg).
Proof.
  pose proof monoidal_read_only as HP.
  assert (Hcall : ∀ c, read_only c = true → emits (Forall (λ c, read_only c = true))
                                              (device_call hw c)).
  { intros c Hc. apply emits_device_call. by repeat constructor. }
  unfold capture_observation.
  apply emits_bind; [done|by apply emits_require_connected|intros _].
  apply emits_bind; [done| |intros follower_pos].
  { apply emits_for_fold; [done|]. intros s [name arm].
    apply emits_bind; [done| |intros; by apply emits_ret].
    apply emits_read_arm. intros v. by repeat constructor. }
  apply emits_bind; [done|by apply emits_lift|intros state].
  apply emits_bind; [done| |intros images].
  { apply emits_for_fold; [done|]. intros s [name cam].
    apply emits_bind; [done| |intros; by apply emits_ret].
    intros self self' r. rewrite bind_run, device_call_run.
    destruct (raises hw _ _); intros [= <- _]; exists [AsyncRead name];
      (split; [done|by repeat constructor]). }
  apply emits_bind; [done| |intros tactile_obs].
  { intros self self' r. unfold _get_tactile_observation. rewrite bind_run.
    unfold read_tactile_sensors. simpl. intros [= <- _]. simpl.
    eexists. split; [done|]. apply Forall_fmap. by apply Forall_true. }
  apply emits_bind; [done| |intros _; by apply emits_lift].
  unfold check_tactile_errors. apply emits_for_each; [done|]. intros [name sensor].
  destruct (has_has_critical_error sensor); [|by apply emits_ret].
  apply emits_bind; [done| |intros critical].
  { intros self self' r. unfold has_critical_error. rewrite bind_run, device_call_run.
    destruct (raises hw _ _); intros [= <- _]; eexists [_];
      (split; [done|by repeat constructor]). }
  destruct critical; [|by apply emits_ret].
  apply emits_bind; [done| |intros msg].
  { destruct (has_get_error_status sensor); [|by apply emits_ret].
    intros self self' r. unfold get_error_status. rewrite bind_run, device_call_run.
    destruct (raises hw _ _); intros [= <- _]; eexists [_];
      (split; [done|by repeat constructor]). }
  apply emits_bind; [done| |intros _]; by apply emits_set_log.
Qed.

(** X9.  Capturing an observation commands nothing.  Whatever the devices
    return or raise, and whether or not the call succeeds, the device calls
    [capture_observation] adds are register reads, frame reads, tactile
    reads and error queries: it writes no register and connects or
    disconnects no device. *)
Theorem capture_observation_only_reads hw cfg self :
  ∃ new,
    calls (capture_observation hw cfg self).1 = calls self ++ new
    ∧ Forall (λ c, read_only c = true) new
    ∧ writes new = [] ∧ disconnected new = [].
Proof.
  destruct (capture_observation hw cfg self) as [self' r] eqn:E.
  apply capture_observation_emits_queries in E as (new & Hcalls & Hnew).
  exists new. split_and!; [done|done|by apply read_only_writes|].
  clear -Hnew. induction Hnew as [|c l Hc _ IH]; [done|]. by destruct c.
Qed.

(** ** Actions of any length *)

Lemma concat_segments_take {A} (sizes : list nat) (l : list A) :
  concat (segments sizes l) = take (sum_list sizes) l.
Proof.
  revert l. induction sizes as [|n sizes IH]; intros l; simpl; [by rewrite take_0|].
  by rewrite IH, take_take_drop.
Qed.

Section SendAnyLength.

Variable hw : Hardware.
Variable cfg : ManipulatorRobotConfig.
Variable action : list f32.

Hypothesis reliable : ∀ history c, arm_io c = true → raises hw history c = false.
Hypothesis unbounded : max_relative_target cfg = None.

Lemma send_loop_unbounded arms :
  ∀ idx sent self,
    ∃ new,
      for_fold arms (idx, idx, sent) (send_body hw cfg action) self
        = (extend self new,
           Ok ((idx + sum_list (motor_counts arms))%nat,
               (idx + sum_list (motor_counts arms))%nat,
               sent ++ segments (motor_counts arms) (drop idx action)))
      ∧ writes new = goal_writes arms.*1 (segments (motor_counts arms) (drop idx action)).
Proof.
  induction arms as [|[name arm] arms IH]; intros idx sent self.
  - exists []. simpl. by rewrite extend_nil, app_nil_r, Nat.add_0_r.
  - set (goal := take (length (motor_names arm)) (drop idx action)).
    assert (Hseg : slice action idx (idx + length (motor_names arm)) = goal).
    { unfold slice, goal. f_equal. lia. }
    destruct (IH (idx + length (motor_names arm))%nat (sent ++ [goal])
                (extend self [Write follower name "Goal_Position" goal]))
      as (new2 & Hloop & Hw2).
    exists (Write follower name "Goal_Position" goal :: new2). split.
    + simpl. rewrite bind_run. unfold send_body at 1. rewrite bind_run.
      rewrite Hseg, cap_goal_position_run, unbounded. rewrite bind_run. unfold write_arm.
      rewrite device_call_run, reliable by done.
      unfold mret at 1, M_ret at 1.
      etrans; [exact Hloop|]. rewrite !extend_extend. f_equal.
      rewrite <- !app_assoc. simpl. rewrite drop_drop. do 3 f_equal; lia.
    + simpl. rewrite Hw2, drop_drop. done.
Qed.

End SendAnyLength.

(** X11.  [send_action] never checks the length of the action.  On a
    connected robot with at least one follower, no configured bound and
    register writes that do not raise, it cuts any action by the followers'
    motor counts as Python slices do, writes each (possibly short or empty)
    segment to its follower, and returns the first [n] values of the action,
    [n] being the total number of follower motors: excess values are dropped
    silently and a short action is returned as it is. *)
Theorem send_action_any_length hw cfg self action :
  is_connected self = true →
  follower_arms cfg ≠ [] →
  max_relative_target cfg = None →
  (∀ history c, arm_io c = true → raises hw history c = false) →
  ∃ new,
    send_action hw cfg action self
      = (extend self new,
         Ok (take (sum_list (motor_counts (follower_arms cfg))) action))
    ∧ writes new = goal_writes (follower_arms cfg).*1
                     (segments (motor_counts (follower_arms cfg)) action).
Proof.
  intros Hc Hne Hnone Hrel.
  destruct (send_loop_unbounded hw cfg action Hrel Hnone (follower_arms cfg) 0%nat [] self)
    as (new & Hloop & Hw).
  rewrite drop_0 in Hloop, Hw. exists new. split; [|done].
  unfold send_action. rewrite bind_run. unfold require_connected at 1. rewrite Hc.
  rewrite bind_run.
  match goal with
  | |- context [for_fold ?l ?s ?b self] =>
      change (for_fold l s b self)
        with (for_fold l (0%nat, 0%nat, []) (send_body hw cfg action) self)
  end.
  rewrite Hloop. simpl. unfold lift, torch_cat.
  rewrite <- concat_segments_take.
  destruct (follower_arms cfg) as [|[n a] l]; [done|]. done.
Qed.

Lemma send_action_any_length_witness :
  ∃ new,
    send_action bench bench_robot (leader_pose ++ leader_pose) connected
      = (extend connected new,
         Ok (take (sum_list (motor_counts (follower_arms bench_robot)))
                  (leader_pose ++ leader_pose)))
    ∧ writes new = goal_writes (follower_arms bench_robot).*1
                     (segments (motor_counts (follower_arms bench_robot))
                               (leader_pose ++ leader_pose)).
Proof.
  apply (send_action_any_length bench bench_robot connected (leader_pose ++ leader_pose));
    reflexivity || discriminate.
Defined.

(** ** A follower without a leader *)

Lemma for_fold_app {A S} (l1 l2 : list A) (body : S → A → M S) :
  ∀ s self,
    for_fold (l1 ++ l2) s body self
    = match for_fold l1 s body self with
      | (self', Ok s') => for_fold l2 s' body self'
      | (self', Raise e) => (self', Raise e)
      end.
Proof.
  induction l1 as [|x l1 IH]; intros s self; simpl; [done|].
  rewrite !bind_run. destruct (body s x self) as [self1 [s1|e]]; [apply IH|done].
Qed.

(** X12.  [teleop_step] pairs followers with leaders by name and checks
    nothing beforehand.  If a follower has no leader of its name, the call
    raises [KeyError] with that name when the loop reaches it, after the
    followers listed before it have been sent their goals; those writes are
    not undone (register accesses do not raise; with a bound, the followers
    before it and their leaders report positions of the arm's size). *)
Theorem teleop_step_missing_leader hw cfg self record_data pre name arm post :
  is_connected self = true →
  (∀ history c, arm_io c = true → raises hw history c = false) →
  follower_arms cfg = pre ++ (name, arm) :: post →
  name ∉ (leader_arms cfg).*1 →
  pre.*1 ⊆ (leader_arms cfg).*1 →
  (∀ b, max_relative_target cfg = Some b →
     ∀ n a, (n, a) ∈ pre →
       (∀ history, length (arm_read hw history leader n "Present_Position")
                   = length (motor_names a))
       ∧ (∀ history, length (arm_read hw history follower n "Present_Position")
                     = length (motor_names a))
       ∧ match b with
         | PyList bs => length bs = length (motor_names a)
         | PyFloat _ => True
         end) →
  ∃ new goals,
    teleop_step hw cfg record_data self = (extend self new, Raise (KeyError name))
    ∧ writes new = goal_writes pre.*1 goals
    ∧ length goals = length pre.
Proof.
  intros Hc Hrel Hf Hname Hpre Hsize.
  destruct (read_loop_ok hw leader (leader_arms cfg) Hrel ∅ self) as (s1 & lp & Hlead).
  pose proof Hlead as Hlead'.
  apply (read_loop_inv hw leader) in Hlead' as (new1 & -> & Hw1 & _ & Hlp).
  destruct (teleop_loop_ok hw cfg lp pre Hrel) with (acc := (∅ : gmap string (list f32)))
    (self := extend self new1) as (s2 & fgp & Hloop).
  { intros n a Hin.
    assert (Hn : n ∈ (leader_arms cfg).*1).
    { apply Hpre. apply list_elem_of_fmap. by exists (n, a). }
    destruct (proj1 (Hlp n) Hn) as (h & v & Hv & -> & _).
    eexists. split; [exact Hv|]. intros b Hb.
    destruct (Hsize b Hb n a Hin) as (H1 & H2 & H3). done. }
  pose proof Hloop as Hloop'.
  apply (teleop_loop_inv hw cfg lp) in Hloop'
    as (new2 & goals & -> & Hw2 & Hlen & _ & _ & _).
  exists (new1 ++ new2), goals. split_and!; [|by rewrite writes_app, Hw1|done].
  unfold teleop_step. rewrite bind_run. unfold require_connected at 1. rewrite Hc.
  rewrite bind_run, Hlead. rewrite bind_run, Hf, for_fold_app, Hloop.
  simpl. rewrite bind_run. unfold teleop_body at 1. rewrite bind_run.
  unfold lift, getitem. rewrite (proj2 (Hlp name) Hname), lookup_empty.
  by rewrite extend_extend.
Qed.

Lemma teleop_step_missing_leader_witness :
  ∃ new goals,
    teleop_step bench unpaired false connected
      = (extend connected new, Raise (KeyError "right"))
    ∧ writes new = goal_writes ["left"] goals
    ∧ length goals = 1%nat.
Proof.
  apply (teleop_step_missing_leader bench unpaired connected false
           [("left", arm2)] "right" arm2 []).
  - reflexivity.
  - reflexivity.
  - reflexivity.
  - apply (bool_decide_unpack _). vm_compute. exact I.
  - intros x Hx. exact Hx.
  - discriminate.
Defined.

(** ** What an observation holds *)

Lemma read_cameras_inv hw (cams : list (string * Camera)) :
  ∀ (acc : gmap string pyval) self self' (images : gmap string pyval),
    for_fold cams acc (λ (images : gmap string pyval) '(name, _),
      image ← ((λ self, (_ ← device_call hw (AsyncRead name);
                          lift (torch_from_numpy (camera_frame hw (calls self) name))) self)
               : M pyval);
      (mret (<[name := image]> images) : M (gmap string pyval))) self = (self', Ok images) →
    ∃ new,
      calls self' = calls self ++ new
      ∧ ∀ name,
          (name ∈ cams.*1 →
           ∃ before after a,
             new = before ++ AsyncRead name :: after
             ∧ camera_frame hw (calls self ++ before) name = PArray a
             ∧ images !! name = Some (PTensor a))
          ∧ (name ∉ cams.*1 → images !! name = acc !! name).
Proof.
  induction cams as [|[n c] cams IH]; intros acc self self' images H.
  - injection H as <- <-. exists []. rewrite app_nil_r. split; [done|].
    intros name. split; [by intros ?%elem_of_nil|done].
  - simpl in H. apply bind_ok_inv in H as (s1 & acc1 & Hbody & H).
    apply bind_ok_inv in Hbody as (s0 & image & Hread & Hret).
    injection Hret as <- <-.
    rewrite bind_run, device_call_run in Hread.
    destruct (raises hw _ _); [discriminate|].
    unfold lift, torch_from_numpy in Hread.
    destruct (camera_frame hw (calls self) n) as [| | | | |a|] eqn:Hframe; try discriminate.
    injection Hread as <- <-.
    destruct (IH _ _ _ _ H) as (rest & Hcalls & Hrest).
    exists (AsyncRead n :: rest). split.
    { rewrite Hcalls. simpl. by rewrite <- app_assoc. }
    intros name. destruct (Hrest name) as [IH1 IH2]. split.
    + intros Hin. destruct (decide (name ∈ cams.*1)) as [Hin'|Hnin].
      * destruct (IH1 Hin') as (before & after & a' & -> & Hframe' & Hlook).
        exists (AsyncRead n :: before), after, a'. split_and!; [done| |done].
        simpl in Hframe'. by rewrite <- app_assoc in Hframe'.
      * apply elem_of_cons in Hin as [->|Hin]; [|done].
        exists [], rest, a. rewrite app_nil_r. split_and!; [done|done|].
        by rewrite (IH2 Hnin), lookup_insert_eq.
    + intros Hnin. apply not_elem_of_cons in Hnin as [Hne Hnin].
      by rewrite (IH2 Hnin), lookup_insert_ne.
Qed.

Lemma populate_images cfg state images tactile_obs obs name :
  (∀ k, is_Some (tactile_obs !! k) → ∃ rest, k = "observation.tactile." +:+ rest) →
  populate cfg state images tactile_obs = Ok obs →
  name ∈ (cameras cfg).*1 →
  obs !! ("observation.images." +:+ name) = images !! name.
Proof.
  intros Htac H Hin. unfold populate in H.
  apply result_bind_ok in H as (obs_dict & Hfold & [= <-]).
  rewrite lookup_union_r.
  2:{ destruct (tactile_obs !! _) eqn:E; [|done].
      destruct (Htac _ (mk_is_Some _ _ E)) as [rest Hk]. discriminate Hk. }
  assert (G : ∀ (cams : list (string * Camera)) (acc obs_dict : gmap string pyval),
    fold_result cams acc
      (λ obs_dict '(name, _),
         image ← getitem images name;
         Ok (<["observation.images." +:+ name := image]> obs_dict)) = Ok obs_dict →
    name ∈ cams.*1 → obs_dict !! ("observation.images." +:+ name) = images !! name).
  { clear. induction cams as [|[n c] cams IH]; intros acc obs_dict H Hin;
      [by apply elem_of_nil in Hin|].
    simpl in H. apply result_bind_ok in H as (acc1 & Hbody & H).
    apply result_bind_ok in Hbody as (image & Hget & [= <-]).
    destruct (decide (name ∈ cams.*1)) as [Hin'|Hnin]; [by eapply IH|].
    apply elem_of_cons in Hin as [Heq|Hin]; [simpl in Heq; subst n|done].
    apply getitem_ok in Hget. rewrite Hget. clear IH.
    assert (K : ∀ (cams : list (string * Camera)) (acc obs_dict : gmap string pyval),
      fold_result cams acc
        (λ obs_dict '(name, _),
           image ← getitem images name;
           Ok (<["observation.images." +:+ name := image]> obs_dict)) = Ok obs_dict →
      name ∉ cams.*1 →
      obs_dict !! ("observation.images." +:+ name)
      = acc !! ("observation.images." +:+ name)).
    { clear. induction cams as [|[m c] cams IH]; intros acc obs_dict H Hnin.
      - by injection H as <-.
      - simpl in H. apply result_bind_ok in H as (acc1 & Hbody & H).
        apply result_bind_ok in Hbody as (image & _ & [= <-]).
        apply not_elem_of_cons in Hnin as [Hne Hnin].
        rewrite (IH _ _ H Hnin), lookup_insert_ne; [done|].
        intros E. apply string_app_inv_head in E. simpl in Hne. congruence. }
    by rewrite (K _ _ _ H Hnin), lookup_insert_eq. }
  by eapply G.
Qed.

(** X13.  What [capture_observation] returns is what the devices returned
    to this very call: [observation.state] is the concatenation, in the
    order of the follower registry, of the [Present_Position] values read
    from the followers during the call, and the entry of every camera is the
    frame that camera returned to a read of this call, unchanged. *)
Theorem capture_observation_returns_reads hw cfg self self' obs :
  capture_observation hw cfg self = (self', Ok obs) →
  ∃ new positions,
    calls self' = calls self ++ new
    ∧ Forall2 (λ name pos, Read follower name "Present_Position" pos ∈ new)
              (follower_arms cfg).*1 positions
    ∧ obs !! "observation.state" = Some (tensor_of_positions (concat positions))
    ∧ ∀ name, name ∈ (cameras cfg).*1 →
        ∃ before after a,
          new = before ++ AsyncRead name :: after
          ∧ camera_frame hw (calls self ++ before) name = PArray a
          ∧ obs !! ("observation.images." +:+ name) = Some (PTensor a).
Proof.
  intros H. unfold capture_observation in H.
  apply bind_ok_inv in H as (s0 & [] & Hreq & H).
  unfold require_connected in Hreq. destruct (is_connected self); [|discriminate].
  injection Hreq as <-.
  apply bind_ok_inv in H as (s1 & fp & Hfp & H).
  apply (read_loop_inv hw follower) in Hfp as (new1 & -> & _ & _ & Hpos).
  apply bind_ok_inv in H as (s2 & state & Hstate & H).
  injection Hstate as <- Hstate.
  apply bind_ok_inv in H as (s3 & images & Him & H).
  destruct (read_cameras_inv hw _ _ _ _ _ Him) as (n3 & E3 & Himages).
  apply bind_ok_inv in H as (s4 & tactile_obs & Htac & H).
  pose proof Htac as Htac'.
  apply (emits_get_tactile_observation (λ _, True)) in Htac' as (n4 & E4 & _); [|done..].
  apply bind_ok_inv in H as (s5 & [] & Hchk & H).
  pose proof Hchk as Hchk'.
  apply (emits_check_tactile_errors (λ _, True)) in Hchk' as (n5 & E5 & _); [|done..].
  injection H as <- Hpop.
  assert (Hnew : calls s5 = calls self ++ new1 ++ n3 ++ n4 ++ n5).
  { rewrite E5, E4, E3. simpl. by rewrite <- !app_assoc. }
  destruct (per_follower_reads (follower_arms cfg) fp
              (λ name pos, Read follower name "Present_Position" pos
                             ∈ new1 ++ n3 ++ n4 ++ n5))
    as (positions & Hper & Hall).
  { intros name Hin. destruct (proj1 (Hpos name) Hin) as (h & v & Hv & _ & Hread).
    exists v. split; [done|]. set_solver. }
  exists (new1 ++ n3 ++ n4 ++ n5), positions. split_and!; [done|done| |].
  - assert (state = concat positions) as ->.
    { unfold per_follower in Hstate. rewrite Hper in Hstate. unfold torch_cat in Hstate.
      destruct positions; [discriminate|]. by injection Hstate. }
    eapply populate_state; [|exact Hpop].
    intros k Hk. eapply normalise_tactile_keys; [|exact Hk].
    rewrite <- get_tactile_observation_run. by erewrite run_snd.
  - intros name Hin.
    destruct (proj1 (Himages name) Hin) as (before & after & a & -> & Hframe & Hlook).
    exists (new1 ++ before), (after ++ n4 ++ n5), a. split_and!.
    + by rewrite <- !app_assoc.
    + simpl in Hframe. by rewrite app_assoc.
    + erewrite populate_images; [done| |exact Hpop|done].
      intros k Hk. eapply normalise_tactile_keys; [|exact Hk].
      rewrite <- get_tactile_observation_run. by erewrite run_snd.
Qed.

Lemma capture_observation_returns_reads_witness :
  ∃ self' obs new positions,
    capture_observation bench bench_robot connected = (self', Ok obs)
    ∧ calls self' = calls connected ++ new
    ∧ Forall2 (λ name pos, Read follower name "Present_Position" pos ∈ new)
              (follower_arms bench_robot).*1 positions
    ∧ obs !! "observation.state" = Some (tensor_of_positions (concat positions))
    ∧ ∀ name, name ∈ (cameras bench_robot).*1 →
        ∃ before after a,
          new = before ++ AsyncRead name :: after
          ∧ camera_frame bench (calls connected ++ before) name = PArray a
          ∧ obs !! ("observation.images." +:+ name) = Some (PTensor a).
Proof.
  assert (H : capture_observation bench bench_robot connected
              = ((capture_observation bench bench_robot connected).1,
                 Ok (returned (capture_observation bench bench_robot connected).2)))
    by (apply run_returned; vm_compute; reflexivity).
  destruct (capture_observation_returns_reads bench bench_robot connected _ _ H)
    as (new & positions & H1 & H2 & H3 & H4).
  exists (capture_observation bench bench_robot connected).1,
         (returned (capture_observation bench bench_robot connected).2), new, positions.
  exact (conj H (conj H1 (conj H2 (conj H3 H4)))).
Defined.

(** ** Connecting and disconnecting *)

Lemma for_each_calls {A} hw (f : A → call) (l : list A) self :
  (∀ history x, raises hw history (f x) = false) →
  for_each l (λ x, device_call hw (f x)) self = (extend self (f <$> l), Ok tt).
Proof.
  intros Hok. revert self. induction l as [|x l IH]; intros self; simpl.
  - unfold mret, M_ret. by rewrite extend_nil.
  - rewrite bind_run, device_call_run, Hok, IH, extend_extend. done.
Qed.

Lemma for_each_fst {A B} (l : list (A * B)) (body : A → M unit) self :
  for_each l (λ '(a, _), body a) self = for_each l.*1 body self.
Proof.
  revert self. induction l as [|[a b] l IH]; intros self; simpl; [done|].
  rewrite !bind_run. destruct (body a self) as [s [[]|e]]; [apply IH|done].
Qed.

Lemma connect_run hw cfg self :
  is_connected self = false →
  leader_arms cfg ≠ [] ∨ follower_arms cfg ≠ [] ∨ cameras cfg ≠ [] →
  (∀ history c, setup c = true → raises hw history c = false) →
  connect hw cfg self
  = (mk_robot true (logs self) (calls self ++ connect_calls cfg), Ok tt).
Proof.
  intros Hc Hdev Hok. unfold connect. rewrite Hc.
  assert (bool_decide (leader_arms cfg = []) && bool_decide (follower_arms cfg = [])
          && bool_decide (cameras cfg = []) = false) as ->.
  { apply not_true_is_false. intros H.
    apply andb_true_iff in H as [H H3]. apply andb_true_iff in H as [H1 H2].
    apply bool_decide_eq_true in H1, H2, H3. tauto. }
  rewrite bind_run, (for_each_fst _ (λ name, device_call hw (Connect (Arm leader name)))),
    (for_each_calls hw (λ name, Connect (Arm leader name))) by (intros; by apply Hok).
  rewrite bind_run, (for_each_fst _ (λ name, device_call hw (Connect (Arm follower name)))),
    (for_each_calls hw (λ name, Connect (Arm follower name))) by (intros; by apply Hok).
  rewrite bind_run, (for_each_fst _ (λ name, device_call hw (Connect (Cam name)))),
    (for_each_calls hw (λ name, Connect (Cam name))) by (intros; by apply Hok).
  rewrite bind_run, (for_each_fst _ (λ name, device_call hw (Connect (Tactile name)))),
    (for_each_calls hw (λ name, Connect (Tactile name))) by (intros; by apply Hok).
  rewrite bind_run. unfold activate_calibration at 1.
  rewrite bind_run, (for_each_fst _ (λ name, device_call hw (SetCalibration follower name))),
    (for_each_calls hw (SetCalibration follower)) by (intros; by apply Hok).
  rewrite (for_each_fst _ (λ name, device_call hw (SetCalibration leader name))),
    (for_each_calls hw (SetCalibration leader)) by (intros; by apply Hok).
  rewrite bind_run.
  assert (∀ s, set_robot_preset hw cfg s = (extend s (preset_calls cfg), Ok tt)) as ->.
  { intros s. unfold set_robot_preset, preset_calls.
    repeat case_decide; rewrite ?preset_call_run, ?Hok by done; try done.
    unfold mret, M_ret. by rewrite extend_nil. }
  unfold set_connected, extend, connect_calls. simpl. by rewrite <- !app_assoc.
Qed.

(** ** A robot without follower arms *)

(** X10.  A robot without follower arms can be connected, yet it can neither
    observe nor act.  With a leader or a camera and set-up calls that do not
    raise, [connect] returns; once the robot is connected,
    [capture_observation] and [send_action] raise [RuntimeError] (from
    [torch.cat] of no tensor) before any device is called. *)
Theorem no_follower_no_observation hw cfg self :
  is_connected self = true → follower_arms cfg = [] →
  capture_observation hw cfg self = (self, Raise RuntimeError)
  ∧ (∀ action, send_action hw cfg action self = (self, Raise RuntimeError))
  ∧ (leader_arms cfg ≠ [] ∨ cameras cfg ≠ [] →
     (∀ history c, setup c = true → raises hw history c = false) →
     ∀ history, ∃ self',
       connect hw cfg (init history) = (self', Ok tt)
       ∧ capture_observation hw cfg self' = (self', Raise RuntimeError)).
Proof.
  intros Hc Hf.
  assert (Hcap : ∀ s, is_connected s = true →
                      capture_observation hw cfg s = (s, Raise RuntimeError)).
  { intros s Hs.
    unfold capture_observation, require_connected, read_follower_positions, per_follower.
    rewrite Hf. rewrite bind_run, Hs. reflexivity. }
  split_and!.
  - by apply Hcap.
  - intros action. unfold send_action, require_connected.
    rewrite Hf. rewrite bind_run, Hc. reflexivity.
  - intros Hdev Hok history. eexists. split.
    + apply connect_run; [done|tauto|done].
    + by apply Hcap.
Qed.

Lemma no_follower_no_observation_witness :
  capture_observation bench camera_only connected = (connected, Raise RuntimeError)
  ∧ (∀ action, send_action bench camera_only action connected
               = (connected, Raise RuntimeError))
  ∧ ∀ history, ∃ self',
      connect bench camera_only (init history) = (self', Ok tt)
      ∧ capture_observation bench camera_only self' = (self', Raise RuntimeError).
Proof.
  destruct (no_follower_no_observation bench camera_only connected eq_refl eq_refl)
    as (H1 & H2 & H3).
  split_and!; [exact H1|exact H2|].
  apply H3; [right; discriminate|intros; reflexivity].
Defined.

Lemma for_each_run {A} (body : A → M unit) (P : list call → Prop) l :
  monoidal P →
  (∀ x self, ∃ new, body x self = (extend self new, Ok tt) ∧ P new) →
  ∀ self, ∃ new, for_each l body self = (extend self new, Ok tt) ∧ P new.
Proof.
  intros [P0 Papp] Hbody. induction l as [|x l IH]; intros self.
  - exists []. simpl. split; [|done]. unfold mret, M_ret. by rewrite extend_nil.
  - destruct (Hbody x self) as (new & Hx & HP).
    destruct (IH (extend self new)) as (new' & Hl & HP').
    exists (new ++ new'). split; [|by apply Papp].
    simpl. rewrite bind_run, Hx, Hl. by rewrite extend_extend.
Qed.

Lemma monoidal_teardown : monoidal (Forall (λ c, teardown c = true)).
Proof. split; [constructor|]. intros l1 l2 H1 H2. by apply Forall_app. Qed.

(** The calls of one [disconnect], with the devices it releases. *)
Lemma disconnect_run hw cfg force self :
  is_connected self = true →
  ∃ new,
    disconnect hw cfg force self = (mk_robot false (logs self) (calls self ++ new), Ok tt)
    ∧ disconnected new = registered_devices cfg
    ∧ Forall (λ c, teardown c = true) new.
Proof.
  intros Hc. unfold disconnect.
  rewrite bind_run. unfold require_connected at 1. rewrite Hc.
  set (Q := λ (ds : list device) (new : list call),
              disconnected new = ds ∧ Forall (λ c, teardown c = true) new).
  assert (Hloop : ∀ {A} (l : list (string * A)) (mk : string → device)
                    (body : string * A → M unit),
    (∀ x self, ∃ new, body x self = (extend self new, Ok tt) ∧ Q [mk x.1] new) →
    ∀ self, ∃ new, for_each l body self = (extend self new, Ok tt) ∧ Q (mk <$> l.*1) new).
  { intros A l mk body Hbody. induction l as [|x l IH]; intros s.
    - exists []. simpl. split; [|by split]. unfold mret, M_ret. by rewrite extend_nil.
    - destruct (Hbody x s) as (new & Hx & Hd & Ht).
      destruct (IH (extend s new)) as (new' & Hl & Hd' & Ht').
      exists (new ++ new'). split; [|split].
      + simpl. rewrite bind_run, Hx, Hl. by rewrite extend_extend.
      + rewrite disconnected_app, Hd, Hd'. done.
      + by apply Forall_app. }
  destruct (Hloop _ (follower_arms cfg) (Arm follower)
              (λ '(name, _), try_except (device_call hw (Disconnect (Arm follower name)))
                               (mret tt))) with (self := self) as (n1 & E1 & D1 & T1).
  { intros [name arm] s. exists [Disconnect (Arm follower name)].
    unfold try_except. rewrite device_call_run.
    split; [by destruct (raises hw _ _)|]. split; [done|by repeat constructor]. }
  rewrite bind_run, E1.
  destruct (Hloop _ (leader_arms cfg) (Arm leader)
              (λ '(name, _), try_except (device_call hw (Disconnect (Arm leader name)))
                               (mret tt))) with (self := extend self n1)
    as (n2 & E2 & D2 & T2).
  { intros [name arm] s. exists [Disconnect (Arm leader name)].
    unfold try_except. rewrite device_call_run.
    split; [by destruct (raises hw _ _)|]. split; [done|by repeat constructor]. }
  rewrite bind_run, E2.
  destruct (Hloop _ (cameras cfg) Cam
              (λ '(name, _), try_except (device_call hw (Disconnect (Cam name))) (mret tt)))
    with (self := extend (extend self n1) n2) as (n3 & E3 & D3 & T3).
  { intros [name cam] s. exists [Disconnect (Cam name)].
    unfold try_except. rewrite device_call_run.
    split; [by destruct (raises hw _ _)|]. split; [done|by repeat constructor]. }
  rewrite bind_run, E3.
  destruct (Hloop _ (tactile_sensors cfg) Tactile
              (λ '(name, sensor), try_except (device_call hw (Disconnect (Tactile name)))
                                    (force_cleanup hw name sensor)))
    with (self := extend (extend (extend self n1) n2) n3) as (n4 & E4 & D4 & T4).
  { intros [name sensor] s. unfold try_except. rewrite device_call_run.
    destruct (raises hw (calls s) (Disconnect (Tactile name))).
    - unfold force_cleanup, try_except.
      destruct (decide (default "unknown" (type (config sensor)) = "gelsight")).
      + exists [Disconnect (Tactile name); KillCaptureProcess name; ResetSensorHandle name].
        rewrite bind_run, device_call_run. simpl.
        destruct (raises hw _ (KillCaptureProcess name)); simpl;
          rewrite device_call_run; simpl;
          destruct (raises hw _ (ResetSensorHandle name)); simpl;
          rewrite ?extend_extend; (split; [done|split; [done|by repeat constructor]]).
      + exists [Disconnect (Tactile name); ResetSensorHandle name].
        rewrite bind_run. simpl. rewrite device_call_run. simpl.
        destruct (raises hw _ (ResetSensorHandle name)); simpl;
          rewrite ?extend_extend; (split; [done|split; [done|by repeat constructor]]).
    - exists [Disconnect (Tactile name)]. split; [done|]. split; [done|by repeat constructor]. }
  rewrite bind_run, E4.
  exists (n1 ++ n2 ++ n3 ++ n4). split_and!.
  - unfold set_connected, extend. simpl. by rewrite <- !app_assoc.
  - rewrite !disconnected_app, D1, D2, D3, D4. done.
  - by repeat apply Forall_app_2.
Qed.

Lemma connected_devices_app l1 l2 :
  connected_devices (l1 ++ l2) = connected_devices l1 ++ connected_devices l2.
Proof. unfold connected_devices. apply omap_app. Qed.

Lemma connected_devices_connect {A} (f : A → device) (l : list A) :
  connected_devices ((λ x, Connect (f x)) <$> l) = f <$> l.
Proof. induction l as [|x l IH]; [done|]. csimpl. by f_equal. Qed.

Lemma connected_devices_none l :
  Forall (λ c, match c with Connect _ => False | _ => True end) l →
  connected_devices l = [].
Proof. induction 1 as [|c l Hc _ IH]; [done|]. by destruct c. Qed.

Lemma connected_devices_connect_calls cfg :
  connected_devices (connect_calls cfg)
  = (Arm leader <$> (leader_arms cfg).*1) ++ (Arm follower <$> (follower_arms cfg).*1)
    ++ (Cam <$> (cameras cfg).*1) ++ (Tactile <$> (tactile_sensors cfg).*1).
Proof.
  unfold connect_calls. rewrite !connected_devices_app.
  rewrite (connected_devices_connect (Arm leader)),
    (connected_devices_connect (Arm follower)),
    (connected_devices_connect Cam), (connected_devices_connect Tactile).
  rewrite !(connected_devices_none (_ <$> _)), (connected_devices_none (preset_calls cfg)).
  - by rewrite !app_nil_r.
  - unfold preset_calls. repeat case_decide; by repeat constructor.
  - apply Forall_fmap. by apply Forall_true.
  - apply Forall_fmap. by apply Forall_true.
Qed.

Lemma setup_connect_calls cfg : Forall (λ c, setup c = true) (connect_calls cfg).
Proof.
  unfold connect_calls. repeat apply Forall_app_2;
    try (apply Forall_fmap; by apply Forall_true).
  unfold preset_calls. repeat case_decide; by repeat constructor.
Qed.

Lemma disconnected_setup l : Forall (λ c, setup c = true) l → disconnected l = [].
Proof. induction 1 as [|c l Hc _ IH]; [done|]. by destruct c. Qed.

(** X14.  [connect] followed by [disconnect] is a round trip.  From a robot
    that is not connected, with at least one arm or camera and devices whose
    set-up calls do not raise, [connect] connects the leaders, the followers,
    the cameras and the tactile sensors in this order, calibrates the
    followers and then the leaders, applies the preset of the robot type (none
    for a type other than aloha, koch, koch_bimanual and so100) and sets
    [is_connected]; [disconnect] then releases exactly the devices that were
    connected, followers first, whatever they do, and clears
    [is_connected]. *)
Theorem connect_disconnect_round_trip hw cfg force self :
  is_connected self = false →
  leader_arms cfg ≠ [] ∨ follower_arms cfg ≠ [] ∨ cameras cfg ≠ [] →
  (∀ history c, setup c = true → raises hw history c = false) →
  ∃ up down,
    connect hw cfg self = (mk_robot true (logs self) (calls self ++ up), Ok tt)
    ∧ disconnect hw cfg force (mk_robot true (logs self) (calls self ++ up))
      = (mk_robot false (logs self) (calls self ++ up ++ down), Ok tt)
    ∧ up = connect_calls cfg
    ∧ disconnected up = [] ∧ connected_devices down = []
    ∧ disconnected down = registered_devices cfg
    ∧ connected_devices up ≡ₚ disconnected down.
Proof.
  intros Hc Hdev Hok.
  destruct (disconnect_run hw cfg force
              (mk_robot true (logs self) (calls self ++ connect_calls cfg)) eq_refl)
    as (down & Hdown & Hd & Ht).
  exists (connect_calls cfg), down. split_and!.
  - by apply connect_run.
  - rewrite Hdown. simpl. by rewrite <- app_assoc.
  - done.
  - apply disconnected_setup, setup_connect_calls.
  - apply connected_devices_none. eapply Forall_impl; [exact Ht|]. by intros [].
  - done.
  - rewrite Hd, connected_devices_connect_calls. unfold registered_devices.
    rewrite !app_assoc. apply Permutation_app; [|done]. apply Permutation_app; [|done].
    apply Permutation_app_comm.
Qed.

(** ** A [connect] that fails *)

Lemma keeps_flag_call hw c : keeps_flag (device_call hw c).
Proof. intros self self' r. rewrite device_call_run. by intros [= <- _]. Qed.

Lemma keeps_flag_preset hw robot_type : keeps_flag (preset_call hw robot_type).
Proof. intros self self' r. rewrite preset_call_run. by intros [= <- _]. Qed.

Lemma keeps_flag_ret {A} (a : A) : keeps_flag (mret a : M A).
Proof. by intros self self' r [= <- _]. Qed.

Lemma keeps_flag_bind {A B} (m : M A) (k : A → M B) :
  keeps_flag m → (∀ a, keeps_flag (k a)) → keeps_flag (m ≫= k).
Proof.
  intros Hm Hk self self' r. rewrite bind_run.
  destruct (m self) as [s1 [a|e]] eqn:E.
  - intros H. rewrite (Hk _ _ _ _ H). by eapply Hm.
  - intros [= <- _]. by eapply Hm.
Qed.

Lemma keeps_flag_for_each {A} (l : list A) (body : A → M unit) :
  (∀ x, keeps_flag (body x)) → keeps_flag (for_each l body).
Proof.
  intros Hbody. induction l as [|x l IH]; simpl; [apply keeps_flag_ret|].
  apply keeps_flag_bind; [apply Hbody|by intros _].
Qed.

Lemma keeps_flag_on_raise_bind {A B} (m : M A) (k : A → M B) :
  keeps_flag m → (∀ a, keeps_flag_on_raise (k a)) → keeps_flag_on_raise (m ≫= k).
Proof.
  intros Hm Hk self self' e. rewrite bind_run.
  destruct (m self) as [s1 [a|e1]] eqn:E.
  - intros H. rewrite (Hk _ _ _ _ H). by eapply Hm.
  - intros [= <- _]. by eapply Hm.
Qed.

Lemma connect_keeps_flag_on_raise hw cfg : keeps_flag_on_raise (connect hw cfg).
Proof.
  intros self self' e. unfold connect.
  destruct (is_connected self) eqn:Hc; [by intros [= <- _]|].
  destruct (_ && _); [by intros [= <- _]|].
  intros H. rewrite <- Hc. revert H.
  apply (keeps_flag_on_raise_bind
           (for_each (leader_arms cfg)
              (λ '(name, _), device_call hw (Connect (Arm leader name))))).
  { apply keeps_flag_for_each. intros [??]. apply keeps_flag_call. }
  intros _. apply keeps_flag_on_raise_bind.
  { apply keeps_flag_for_each. intros [??]. apply keeps_flag_call. }
  intros _. apply keeps_flag_on_raise_bind.
  { apply keeps_flag_for_each. intros [??]. apply keeps_flag_call. }
  intros _. apply keeps_flag_on_raise_bind.
  { apply keeps_flag_for_each. intros [??]. apply keeps_flag_call. }
  intros _. apply keeps_flag_on_raise_bind.
  { unfold activate_calibration. apply keeps_flag_bind; [|intros _];
      apply keeps_flag_for_each; intros [??]; apply keeps_flag_call. }
  intros _. apply keeps_flag_on_raise_bind.
  { unfold set_robot_preset. repeat case_decide;
      first [apply keeps_flag_preset | apply keeps_flag_ret]. }
  intros _ s s' e'. discriminate.
Qed.

Lemma monoidal_setup : monoidal (Forall (λ c, setup c = true)).
Proof. split; [constructor|]. intros l1 l2 H1 H2. by apply Forall_app. Qed.

Lemma connect_emits_setup hw cfg : emits (Forall (λ c, setup c = true)) (connect hw cfg).
Proof.
  pose proof monoidal_setup as HP.
  assert (Hnil : ∀ self : robot, ∃ new, calls self = calls self ++ new
                                        ∧ Forall (λ c, setup c = true) new).
  { intros self. exists []. by rewrite app_nil_r. }
  intros self self' r. unfold connect.
  destruct (is_connected self); [intros [= <- _]; apply Hnil|].
  destruct (_ && _); [intros [= <- _]; apply Hnil|].
  revert self self' r.
  change (emits (Forall (λ c, setup c = true))
    (_ ← for_each (leader_arms cfg) (λ '(name, _), device_call hw (Connect (Arm leader name)));
     _ ← for_each (follower_arms cfg) (λ '(name, _), device_call hw (Connect (Arm follower name)));
     _ ← for_each (cameras cfg) (λ '(name, _), device_call hw (Connect (Cam name)));
     _ ← for_each (tactile_sensors cfg) (λ '(name, _), device_call hw (Connect (Tactile name)));
     _ ← activate_calibration hw cfg;
     _ ← set_robot_preset hw cfg;
     set_connected true)).
  assert (Hcall : ∀ c, setup c = true →
                       emits (Forall (λ c, setup c = true)) (device_call hw c)).
  { intros c Hc. apply emits_device_call. by repeat constructor. }
  do 4 (apply emits_bind;
          [done|apply emits_for_each; [done|]; intros [??]; by apply Hcall|intros _]).
  apply emits_bind; [done| |intros _].
  { unfold activate_calibration. apply emits_bind; [done| |intros _];
      apply emits_for_each; try done; intros [??]; by apply Hcall. }
  apply emits_bind; [done| |intros _].
  { unfold set_robot_preset. repeat case_decide;
      first [apply emits_preset_call; by repeat constructor | by apply emits_ret]. }
  intros self self' r [= <- _]. simpl. exists []. by rewrite app_nil_r.
Qed.

(** X15.  A [connect] that fails is not rolled back.  If [connect] raises on
    a robot that is not connected, [is_connected] stays false and no device is
    disconnected: the devices connected before the failure stay connected,
    and they cannot be released through the robot either, since [disconnect]
    then raises the not-connected error without calling any device. *)
Theorem connect_failure_not_rolled_back hw cfg self self' e :
  is_connected self = false →
  connect hw cfg self = (self', Raise e) →
  is_connected self' = false
  ∧ (∃ new, calls self' = calls self ++ new
            ∧ Forall (λ c, setup c = true) new ∧ disconnected new = [])
  ∧ ∀ force, disconnect hw cfg force self' = (self', Raise RobotDeviceNotConnectedError).
Proof.
  intros Hc H.
  assert (Hc' : is_connected self' = false).
  { by rewrite (connect_keeps_flag_on_raise hw cfg _ _ _ H). }
  split_and!; [done| |].
  - apply connect_emits_setup in H as (new & Hcalls & Hnew).
    exists new. split_and!; [done|done|by apply disconnected_setup].
  - intros force. unfold disconnect. rewrite bind_run.
    unfold require_connected at 1. by rewrite Hc'.
Qed.

Lemma connect_disconnect_round_trip_witness :
  ∃ up down,
    connect bench bench_robot (init []) = (mk_robot true ∅ ([] ++ up), Ok tt)
    ∧ disconnect bench bench_robot false (mk_robot true ∅ ([] ++ up))
      = (mk_robot false ∅ ([] ++ up ++ down), Ok tt)
    ∧ up = connect_calls bench_robot
    ∧ disconnected up = [] ∧ connected_devices down = []
    ∧ disconnected down = registered_devices bench_robot
    ∧ connected_devices up ≡ₚ disconnected down.
Proof.
  apply (connect_disconnect_round_trip bench bench_robot false (init [])).
  - reflexivity.
  - left. discriminate.
  - reflexivity.
Defined.

Lemma connect_failure_not_rolled_back_witness :
  connect dead_camera three_devices (init []) = (half_connected, Raise (DeviceError "device"))
  ∧ is_connected half_connected = false
  ∧ (∃ new, calls half_connected = [] ++ new
            ∧ Forall (λ c, setup c = true) new ∧ disconnected new = [])
  ∧ ∀ force, disconnect dead_camera three_devices force half_connected
             = (half_connected, Raise RobotDeviceNotConnectedError).
Proof.
  assert (H : connect dead_camera three_devices (init [])
              = (half_connected, Raise (DeviceError "device"))) by reflexivity.
  split; [exact H|].
  exact (connect_failure_not_rolled_back dead_camera three_devices (init []) half_connected
           (DeviceError "device") eq_refl H).
Defined.

(** ** The three groups of the feature schema *)

Lemma motor_features_key cfg k d :
  motor_features cfg !! k = Some d → k = "observation.state" ∨ k = "action".
Proof.
  intros H. apply (mk_is_Some _ d), elem_of_dom in H.
  rewrite dom_motor_features in H. set_solver.
Qed.

Lemma features_groups_disjoint cfg :
  camera_features cfg ##ₘ motor_features cfg
  ∧ tactile_features cfg ##ₘ camera_features cfg ∪ motor_features cfg.
Proof.
  split.
  - apply map_disjoint_spec. intros k d1 d2 H1 H2.
    apply camera_features_key in H1 as [name ->].
    apply motor_features_key in H2 as [H2|H2]; discriminate H2.
  - apply map_disjoint_spec. intros k d1 d2 H1 H2.
    apply tactile_features_key in H1 as [rest ->].
    apply lookup_union_Some_raw in H2 as [H2|[_ H2]].
    + apply camera_features_key in H2 as [name H2]. discriminate H2.
    + apply motor_features_key in H2 as [H2|H2]; discriminate H2.
Qed.

Lemma camera_features_kept cfg k d :
  camera_features cfg !! k = Some d → features cfg !! k = Some d.
Proof.
  destruct (features_groups_disjoint cfg) as [H1 H2]. unfold features.
  intros H. apply lookup_union_Some; [done|]. right.
  apply lookup_union_Some; [done|]. by left.
Qed.

(** X16.  The motor, camera and tactile entries of [features] never shadow
    one another, whatever the names of the cameras and sensors: every entry
    of each group is an entry of [features], and [features] has two motor
    entries plus as many entries as the camera and the tactile group have
    together. *)
Theorem features_groups_do_not_shadow cfg :
  (∀ k d, motor_features cfg !! k = Some d → features cfg !! k = Some d)
  ∧ (∀ k d, camera_features cfg !! k = Some d → features cfg !! k = Some d)
  ∧ (∀ k d, tactile_features cfg !! k = Some d → features cfg !! k = Some d)
  ∧ size (features cfg)
    = (2 + size (camera_features cfg) + size (tactile_features cfg))%nat.
Proof.
  destruct (features_groups_disjoint cfg) as [H1 H2]. unfold features. split_and!.
  - intros k d H. apply lookup_union_Some; [done|]. right.
    apply lookup_union_Some; [done|]. by right.
  - intros k d H. apply lookup_union_Some; [done|]. right.
    apply lookup_union_Some; [done|]. by left.
  - intros k d H. apply lookup_union_Some; [done|]. by left.
  - rewrite !map_size_disj_union by done.
    assert (size (motor_features cfg) = 2%nat) as ->; [|lia].
    unfold motor_features. rewrite !map_size_insert, lookup_insert_ne by done.
    by rewrite lookup_empty, map_size_empty.
Qed.

(** ** Cameras in the schema *)

Lemma camera_features_assign cfg :
  camera_features cfg
  = assign_all ((λ '(name, camera),
                   ("observation.images." +:+ name,
                    mk_feature "video" [height camera; width camera; channels camera]
                      (Some ["height"; "width"; "channels"])))
                <$> cameras cfg) ∅.
Proof.
  unfold camera_features, assign_all. generalize (∅ : gmap string feature).
  induction (cameras cfg) as [|[n c] l IH]; intros acc; [done|]. simpl. by rewrite IH.
Qed.

Lemma image_keys_nodup (cams : list (string * Camera)) :
  NoDup cams.*1 →
  NoDup ((λ '(name, camera),
            ("observation.images." +:+ name,
             mk_feature "video" [height camera; width camera; channels camera]
               (Some ["height"; "width"; "channels"]))) <$> cams).*1.
Proof.
  induction cams as [|[n c] cams IH]; intros Hnd; [constructor|].
  rewrite !fmap_cons in *. apply NoDup_cons in Hnd as [Hn Hnd].
  apply NoDup_cons. split; [|by apply IH].
  intros Hin. apply Hn.
  apply list_elem_of_fmap in Hin as ([k v] & Hk & Hin).
  apply list_elem_of_fmap in Hin as ([n' c'] & [= -> ->] & Hin).
  simpl in Hk. apply string_app_inv_head in Hk. subst n'.
  apply list_elem_of_fmap. by exists (n, c').
Qed.

(** X17.  With distinct camera names the schema has exactly one entry per
    camera ([num_cameras] of them, and some entry exactly when [has_camera]),
    of dtype [video] and of the camera's height, width and channels as shape,
    under [observation.images.<name>] in [features]. *)
Theorem camera_features_entries cfg :
  NoDup (cameras cfg).*1 →
  size (camera_features cfg) = num_cameras cfg
  ∧ (has_camera cfg = true ↔ ∃ k d, camera_features cfg !! k = Some d)
  ∧ ∀ name camera,
      (name, camera) ∈ cameras cfg →
      features cfg !! ("observation.images." +:+ name)
      = Some (mk_feature "video" [height camera; width camera; channels camera]
                (Some ["height"; "width"; "channels"])).
Proof.
  intros Hnd. pose proof (image_keys_nodup _ Hnd) as Hkeys.
  assert (Hsize : size (camera_features cfg) = num_cameras cfg).
  { rewrite <- size_dom, camera_features_assign, dom_assign_all, dom_empty_L.
    rewrite (left_id_L ∅ (∪)), size_list_to_set by done.
    unfold num_cameras. by rewrite !length_fmap. }
  split_and!; [done| |].
  - unfold has_camera. rewrite <- Hsize, Nat.ltb_lt. split.
    + intros H. destruct (map_choose (camera_features cfg)) as (k & d & Hk); [|by eauto].
      intros E. rewrite E in H. rewrite map_size_empty in H. lia.
    + intros (k & d & Hk).
      assert (size (camera_features cfg) ≠ 0%nat); [|lia].
      apply map_size_non_empty_iff. intros E. by rewrite E, lookup_empty in Hk.
  - intros name camera Hin.
    apply camera_features_kept.
    rewrite camera_features_assign. apply assign_all_nodup; [done|].
    apply list_elem_of_fmap. by exists (name, camera).
Qed.

Lemma camera_features_entries_witness :
  size (camera_features two_sensors) = num_cameras two_sensors
  ∧ (has_camera two_sensors = true ↔ ∃ k d, camera_features two_sensors !! k = Some d)
  ∧ ∀ name camera,
      (name, camera) ∈ cameras two_sensors →
      features two_sensors !! ("observation.images." +:+ name)
      = Some (mk_feature "video" [height camera; width camera; channels camera]
                (Some ["height"; "width"; "channels"])).
Proof.
  apply (camera_features_entries two_sensors).
  apply (bool_decide_unpack _). vm_compute. exact I.
Defined.

(** ** Tactile sensors in the schema *)

Lemma length_sensor_features name sensor :
  length (sensor_features name sensor) = entries_of_type (sensor_type_of sensor).
Proof. unfold sensor_features, entries_of_type. by repeat case_decide. Qed.

Lemma length_tactile_keys (sensors : list (string * TactileSensor)) :
  length (tactile_keys sensors)
  = sum_list ((λ '(_, sensor), entries_of_type (sensor_type_of sensor)) <$> sensors).
Proof.
  unfold tactile_keys. induction sensors as [|[n s] sensors IH]; [done|].
  rewrite bind_cons, length_app, IH, length_fmap, length_sensor_features. done.
Qed.

(** X18.  With distinct schema keys, [tactile_features] declares nine
    entries for every Tac3D sensor, five for every GelSight or DIGIT sensor
    and six for a sensor of any other type; the image of a GelSight sensor is
    declared with the height and width of its configuration (240 and 320
    where the configuration has none), and a sensor whose configuration has
    no [type] is filed under the type [unknown]. *)
Theorem tactile_features_count cfg :
  NoDup (tactile_keys (tactile_sensors cfg)) →
  size (tactile_features cfg)
  = sum_list ((λ '(_, sensor), entries_of_type (sensor_type_of sensor))
                <$> tactile_sensors cfg)
  ∧ (∀ name sensor,
       (name, sensor) ∈ tactile_sensors cfg →
       type (config sensor) = Some "gelsight" →
       tactile_features cfg !! tactile_key "gelsight" name "tactile_image"
       = Some (mk_feature "uint8"
                 [default 240%nat (imgh (config sensor));
                  default 320%nat (imgw (config sensor)); 3%nat]
                 (Some ["height"; "width"; "channel"])))
  ∧ (∀ name sensor,
       (name, sensor) ∈ tactile_sensors cfg →
       type (config sensor) = None →
       tactile_features cfg !! tactile_key "unknown" name "resultant_force"
       = Some (mk_feature "float64" [3%nat] (Some ["x"; "y"; "z"]))).
Proof.
  intros Hkeys. split_and!.
  - rewrite <- size_dom, dom_tactile_features, size_list_to_set by done.
    apply length_tactile_keys.
  - intros name sensor Hin Ht.
    pose proof (tactile_features_lookup cfg name sensor "tactile_image"
                  (mk_feature "uint8"
                     [default 240%nat (imgh (config sensor));
                      default 320%nat (imgw (config sensor)); 3%nat]
                     (Some ["height"; "width"; "channel"])) Hkeys Hin) as H.
    unfold sensor_type_of in H. rewrite Ht in H. apply H.
    unfold sensor_schema, sensor_type_of. rewrite Ht. apply elem_of_app. right.
    simpl. apply list_elem_of_here.
  - intros name sensor Hin Ht.
    pose proof (tactile_features_lookup cfg name sensor "resultant_force"
                  (mk_feature "float64" [3%nat] (Some ["x"; "y"; "z"])) Hkeys Hin) as H.
    unfold sensor_type_of in H. rewrite Ht in H. apply H.
    unfold sensor_schema, sensor_type_of. rewrite Ht. apply elem_of_app. right.
    simpl. apply list_elem_of_here.
Qed.

Lemma tactile_features_count_witness :
  size (tactile_features two_sensors) = 11%nat
  ∧ tactile_features two_sensors !! "observation.tactile.gelsight.thumb.tactile_image"
    = Some (mk_feature "uint8" [24; 32; 3]%nat (Some ["height"; "width"; "channel"]))
  ∧ tactile_features two_sensors !! "observation.tactile.unknown.palm.resultant_force"
    = Some (mk_feature "float64" [3%nat] (Some ["x"; "y"; "z"])).
Proof.
  assert (Hkeys : NoDup (tactile_keys (tactile_sensors two_sensors)))
    by (apply (bool_decide_unpack _); vm_compute; exact I).
  destruct (tactile_features_count two_sensors Hkeys) as (H1 & H2 & H3).
  split_and!.
  - exact H1.
  - apply (H2 "thumb" small_gelsight); [apply list_elem_of_here|reflexivity].
  - apply (H3 "palm" ex_generic);
      [apply list_elem_of_further, list_elem_of_here|reflexivity].
Defined.

(** ** Error queries *)

Section ErrorQueries.

Variable hw : Hardware.
Variable critical : string → bool.

Hypothesis answers : ∀ history name, raises hw history (HasCriticalError name) = false.
Hypothesis reports : ∀ history name, raises hw history (GetErrorStatus name) = false.
Hypothesis stable : ∀ history name, critical_error hw history name = critical name.

Lemma has_critical_error_run name self :
  has_critical_error hw name self = (extend self [HasCriticalError name], Ok (critical name)).
Proof.
  unfold has_critical_error. rewrite bind_run, device_call_run.
  by rewrite answers, stable.
Qed.

Lemma get_error_status_run name self :
  get_error_status hw name self
  = (extend self [GetErrorStatus name], Ok (error_message hw (calls self) name)).
Proof.
  unfold get_error_status. rewrite bind_run, device_call_run.
  by rewrite reports.
Qed.

Lemma any_critical_error_none sensors self :
  Forall (λ '(name, sensor), has_has_critical_error sensor && critical name = false) sensors →
  any_critical_error hw sensors self = (extend self (error_queries sensors), Ok false).
Proof.
  intros H. revert self. induction H as [|[n s] sensors Hx _ IH]; intros self; simpl.
  - unfold mret, M_ret. by rewrite extend_nil.
  - destruct (has_has_critical_error s); simpl in *; [|apply IH].
    rewrite bind_run, has_critical_error_run, Hx, IH, extend_extend. done.
Qed.

Lemma any_critical_error_first pre name sensor post self :
  Forall (λ '(name, sensor), has_has_critical_error sensor && critical name = false) pre →
  has_has_critical_error sensor = true → critical name = true →
  any_critical_error hw (pre ++ (name, sensor) :: post) self
  = (extend self (error_queries pre ++ [HasCriticalError name]), Ok true).
Proof.
  intros H Hs Hc. revert self. induction H as [|[n s] pre Hx _ IH]; intros self; simpl.
  - by rewrite Hs, bind_run, has_critical_error_run, Hc.
  - destruct (has_has_critical_error s); simpl in *; [|apply IH].
    rewrite bind_run, has_critical_error_run, Hx, IH, extend_extend. done.
Qed.

Lemma error_summary_loop sensors :
  ∀ (acc : gmap string error_status) self,
    ∃ new errors,
      for_fold sensors acc (λ errors '(name, sensor),
        if has_has_critical_error sensor then
          critical ← has_critical_error hw name;
          if critical : bool then
            if has_get_error_status sensor then
              status ← get_error_status hw name;
              mret (<[name := SensorStatus status]> errors)
            else mret (<[name := CriticalErrorDetected]> errors)
          else mret errors
        else mret errors) self = (extend self new, Ok errors)
      ∧ ∀ name, is_Some (errors !! name) ↔
          is_Some (acc !! name)
          ∨ ∃ sensor, (name, sensor) ∈ sensors
                      ∧ has_has_critical_error sensor = true ∧ critical name = true.
Proof.
  induction sensors as [|[n s] sensors IH]; intros acc self.
  - exists [], acc. simpl. unfold mret, M_ret. rewrite extend_nil. split; [done|].
    intros name. split; [by left|]. intros [H|(? & []%elem_of_nil & _)]. done.
  - simpl. rewrite bind_run.
    destruct (has_has_critical_error s) eqn:Hs.
    + rewrite bind_run, has_critical_error_run.
      destruct (critical n) eqn:Hc.
      * assert (∃ st, (if has_get_error_status s
                       then status ← get_error_status hw n;
                            mret (<[n := SensorStatus status]> acc)
                       else mret (<[n := CriticalErrorDetected]> acc))
                        (extend self [HasCriticalError n])
                      = (extend self (HasCriticalError n ::
                                      if has_get_error_status s then [GetErrorStatus n] else []),
                         Ok (<[n := st]> acc))) as [st ->].
        { destruct (has_get_error_status s).
          - eexists. rewrite bind_run, get_error_status_run, extend_extend. done.
          - by eexists. }
        destruct (IH (<[n := st]> acc)
                    (extend self (HasCriticalError n ::
                                  if has_get_error_status s then [GetErrorStatus n] else [])))
          as (new & errors & Hrun & Hdom).
        eexists _, errors. split; [etrans; [exact Hrun|]; by rewrite extend_extend|].
        intros name. rewrite Hdom, lookup_insert_is_Some. split.
        -- intros [[->|[_ H]]|(sensor & Hin & H1 & H2)].
           ++ right. exists s. split; [by left|done].
           ++ by left.
           ++ right. exists sensor. split; [by right|done].
        -- intros [H|(sensor & Hin & H1 & H2)].
           ++ left. destruct (decide (n = name)); [by left|by right].
           ++ apply elem_of_cons in Hin as [[= -> ->]|Hin]; [left; by left|].
              right. by exists sensor.
      * destruct (IH acc (extend self [HasCriticalError n])) as (new & errors & Hrun & Hdom).
        eexists _, errors. split; [etrans; [exact Hrun|]; by rewrite extend_extend|].
        intros name. rewrite Hdom. split.
        -- intros [H|(sensor & Hin & H1 & H2)]; [by left|].
           right. exists sensor. split; [by right|done].
        -- intros [H|(sensor & Hin & H1 & H2)]; [by left|].
           apply elem_of_cons in Hin as [[= -> ->]|Hin]; [congruence|].
           right. by exists sensor.
    + destruct (IH acc self) as (new & errors & Hrun & Hdom).
      exists new, errors. split; [exact Hrun|].
      intros name. rewrite Hdom. split.
      * intros [H|(sensor & Hin & H1 & H2)]; [by left|].
        right. exists sensor. split; [by right|done].
      * intros [H|(sensor & Hin & H1 & H2)]; [by left|].
        apply elem_of_cons in Hin as [[= -> ->]|Hin]; [congruence|].
        right. by exists sensor.
Qed.

End ErrorQueries.

Lemma first_erroring (critical : string → bool) (sensors : list (string * TactileSensor)) :
  Forall (λ '(name, sensor), has_has_critical_error sensor && critical name = false) sensors
  ∨ ∃ pre name sensor post,
      sensors = pre ++ (name, sensor) :: post
      ∧ Forall (λ '(name, sensor), has_has_critical_error sensor && critical name = false) pre
      ∧ has_has_critical_error sensor = true ∧ critical name = true.
Proof.
  induction sensors as [|[n s] sensors IH]; [by left|].
  destruct (has_has_critical_error s && critical n) eqn:E.
  - right. exists [], n, s, sensors. apply andb_true_iff in E as [??]. by split_and!.
  - destruct IH as [IH|(pre & name & sensor & post & -> & Hpre & H1 & H2)].
    + left. by constructor.
    + right. exists ((n, s) :: pre), name, sensor, post. split_and!; try done.
      by constructor.
Qed.

(** X19.  The two error queries agree and need no connection.  On any
    robot, connected or not, with sensors that answer the queries and report
    the same critical-error state throughout, [has_tactile_critical_errors]
    returns [True] exactly when the summary of [get_tactile_error_summary] is
    not empty, and the summary has an entry for exactly the sensors that offer
    [has_critical_error] and report an error. *)
Theorem tactile_error_queries_agree hw cfg (critical : string → bool) self :
  (∀ history name,
     raises hw history (HasCriticalError name) = false
     ∧ raises hw history (GetErrorStatus name) = false) →
  (∀ history name, critical_error hw history name = critical name) →
  ∃ seen asked b errors,
    has_tactile_critical_errors hw cfg self = (extend self seen, Ok b)
    ∧ get_tactile_error_summary hw cfg self = (extend self asked, Ok errors)
    ∧ (b = true ↔ errors ≠ ∅)
    ∧ ∀ name, is_Some (errors !! name) ↔
        ∃ sensor, (name, sensor) ∈ tactile_sensors cfg
                  ∧ has_has_critical_error sensor = true ∧ critical name = true.
Proof.
  intros Hans Hst.
  assert (Hans1 : ∀ history name, raises hw history (HasCriticalError name) = false)
    by (intros; apply Hans).
  assert (Hans2 : ∀ history name, raises hw history (GetErrorStatus name) = false)
    by (intros; apply Hans).
  destruct (error_summary_loop hw critical Hans1 Hans2 Hst (tactile_sensors cfg) ∅ self)
    as (asked & errors & Hsum & Hdom).
  assert (Hdom' : ∀ name, is_Some (errors !! name) ↔
            ∃ sensor, (name, sensor) ∈ tactile_sensors cfg
                      ∧ has_has_critical_error sensor = true ∧ critical name = true).
  { intros name. rewrite Hdom, lookup_empty. split; [|by right].
    intros [[? [=]]|H]. done. }
  unfold has_tactile_critical_errors.
  destruct (first_erroring critical (tactile_sensors cfg))
    as [Hnone|(pre & name & sensor & post & Hsplit & Hpre & H1 & H2)].
  - exists (error_queries (tactile_sensors cfg)), asked, false, errors.
    split_and!; [by apply (any_critical_error_none hw critical Hans1 Hst)|done| |done].
    split; [done|]. intros Hne. exfalso. apply Hne. apply map_empty. intros name.
    apply eq_None_not_Some. rewrite Hdom'. intros (s & Hin & Hs & Hc).
    rewrite Forall_forall in Hnone. specialize (Hnone _ Hin). simpl in Hnone.
    by rewrite Hs, Hc in Hnone.
  - exists (error_queries pre ++ [HasCriticalError name]), asked, true, errors.
    split_and!; [rewrite Hsplit; by apply (any_critical_error_first hw critical Hans1 Hst)
                |done| |done].
    split; [|done]. intros _ E.
    assert (is_Some (errors !! name)) as [? Hx]; [|by rewrite E, lookup_empty in Hx].
    apply Hdom'. exists sensor. split; [|done]. rewrite Hsplit. set_solver.
Qed.

(** X20.  [has_tactile_critical_errors] stops at the first error.  With
    sensors that answer and report a stable state, when a sensor reports a
    critical error and none listed before it does, the call returns [True]
    after having asked the sensors before it that offer [has_critical_error]
    and that sensor: no sensor listed after it is asked, and no sensor is
    asked for its error status.  With no error it asks every such sensor once
    and returns [False]. *)
Theorem has_tactile_critical_errors_stops_at_first
    hw cfg (critical : string → bool) self pre name sensor post :
  (∀ history name, raises hw history (HasCriticalError name) = false) →
  (∀ history name, critical_error hw history name = critical name) →
  tactile_sensors cfg = pre ++ (name, sensor) :: post →
  Forall (λ '(name, sensor), has_has_critical_error sensor && critical name = false) pre →
  (has_has_critical_error sensor = true → critical name = true →
   has_tactile_critical_errors hw cfg self
   = (extend self (error_queries pre ++ [HasCriticalError name]), Ok true))
  ∧ (Forall (λ '(name, sensor), has_has_critical_error sensor && critical name = false)
       ((name, sensor) :: post) →
     has_tactile_critical_errors hw cfg self
     = (extend self (error_queries (tactile_sensors cfg)), Ok false)).
Proof.
  intros Hans Hst Hsplit Hpre.
  unfold has_tactile_critical_errors. rewrite Hsplit. split.
  - intros H1 H2. by apply (any_critical_error_first hw critical Hans Hst).
  - intros Hpost. apply (any_critical_error_none hw critical Hans Hst).
    by apply Forall_app.
Qed.

(** ** Critical errors in the logs *)

Lemma string_app_inv_tail (s1 s2 s : string) : s1 +:+ s = s2 +:+ s → s1 = s2.
Proof.
  intros H. apply list_ascii_of_string_inj.
  apply (f_equal list_ascii_of_string) in H.
  rewrite !list_ascii_of_string_app in H. by apply app_inv_tail in H.
Qed.

Lemma error_keys_distinct n1 n2 : critical_error_key n1 ≠ error_message_key n2.
Proof.
  unfold critical_error_key, error_message_key. intros H.
  apply string_app_inv_head in H.
  apply (f_equal list_ascii_of_string) in H.
  rewrite !list_ascii_of_string_app in H.
  change (list_ascii_of_string "_critical_error")
    with (list_ascii_of_string "_critical_erro" ++ ["r"%char]) in H.
  change (list_ascii_of_string "_error_message")
    with (list_ascii_of_string "_error_messag" ++ ["e"%char]) in H.
  rewrite !app_assoc in H. apply app_inj_tail in H as [_ H]. discriminate H.
Qed.

Lemma error_message_key_inj n1 n2 : error_message_key n1 = error_message_key n2 → n1 = n2.
Proof.
  unfold error_message_key. intros H. apply string_app_inv_head in H.
  by apply string_app_inv_tail in H.
Qed.

Lemma critical_error_key_inj n1 n2 : critical_error_key n1 = critical_error_key n2 → n1 = n2.
Proof.
  unfold critical_error_key. intros H. apply string_app_inv_head in H.
  by apply string_app_inv_tail in H.
Qed.

Lemma registry_lookup {A} (l : list (string * A)) name x y :
  NoDup l.*1 → (name, x) ∈ l → (name, y) ∈ l → x = y.
Proof.
  intros Hnd Hx Hy.
  apply (elem_of_list_to_map_1 (M := gmap string)) in Hx, Hy; try done. congruence.
Qed.

Section CheckLogs.

Variable hw : Hardware.
Variable critical : string → bool.
Variable message : string → option string.

Hypothesis stable : ∀ history name, critical_error hw history name = critical name.
Hypothesis stable_message : ∀ history name, error_message hw history name = message name.

Lemma has_critical_error_inv name self self' c :
  has_critical_error hw name self = (self', Ok c) →
  logs self' = logs self ∧ c = critical name.
Proof.
  unfold has_critical_error. rewrite bind_run, device_call_run.
  destruct (raises hw _ _); [discriminate|]. intros [= <- <-]. by rewrite stable.
Qed.

Lemma get_error_status_inv name self self' m :
  get_error_status hw name self = (self', Ok m) →
  logs self' = logs self ∧ m = message name.
Proof.
  unfold get_error_status. rewrite bind_run, device_call_run.
  destruct (raises hw _ _); [discriminate|]. intros [= <- <-]. by rewrite stable_message.
Qed.

Lemma logged_error_insert name sensor n s logs :
  (n = name → s = sensor) →
  logged_error message name sensor logs ∨ n = name →
  logged_error message name sensor
    (<[error_message_key n :=
         PStr (default "Unknown critical error"
                 (if has_get_error_status s then message n else None))]>
       (<[critical_error_key n := PBool true]> logs)).
Proof.
  intros Hsame H. unfold logged_error.
  destruct (decide (n = name)) as [->|Hne].
  - rewrite (Hsame eq_refl). split.
    + rewrite lookup_insert_ne by (intros E; by apply (error_keys_distinct name name)).
      by rewrite lookup_insert_eq.
    + by rewrite lookup_insert_eq.
  - destruct H as [[H1 H2]|H]; [|done]. split.
    + rewrite lookup_insert_ne by (intros E; by apply (error_keys_distinct name n)).
      rewrite lookup_insert_ne; [done|]. intros E. by apply critical_error_key_inj in E.
    + rewrite lookup_insert_ne by (intros E; by apply error_message_key_inj in E).
      rewrite lookup_insert_ne; [done|]. intros E. by apply (error_keys_distinct n name).
Qed.

Lemma check_tactile_errors_inv (registry l : list (string * TactileSensor)) :
  NoDup registry.*1 → l ⊆ registry →
  ∀ self self',
    for_each l (λ '(name, sensor),
      if has_has_critical_error sensor then
        critical ← has_critical_error hw name;
        if critical : bool then
          error_message ←
            (if has_get_error_status sensor then get_error_status hw name else mret None);
          let error_msg := default "Unknown critical error" error_message in
          _ ← set_log ("tactile_sensor_" +:+ name +:+ "_critical_error") (PBool true);
          set_log ("tactile_sensor_" +:+ name +:+ "_error_message") (PStr error_msg)
        else mret tt
      else mret tt) self = (self', Ok tt) →
    ∀ name sensor,
      (name, sensor) ∈ registry →
      logged_error message name sensor (logs self)
      ∨ ((name, sensor) ∈ l ∧ has_has_critical_error sensor = true ∧ critical name = true) →
      logged_error message name sensor (logs self').
Proof.
  intros Hnd. induction l as [|[n s] l IH]; intros Hsub self self' H name sensor Hin Hcase.
  - injection H as <-. destruct Hcase as [?|[[]%elem_of_nil _]]. done.
  - simpl in H. apply bind_ok_inv in H as (s1 & [] & Hbody & H).
    assert (Hns : (n, s) ∈ registry) by (apply Hsub; by left).
    assert (Hsame : n = name → s = sensor).
    { intros ->. by eapply registry_lookup. }
    assert (Hstep : logged_error message name sensor (logs self)
                    ∨ (n = name ∧ has_has_critical_error s = true ∧ critical n = true) →
                    logged_error message name sensor (logs s1)).
    { intros Hpre. destruct (has_has_critical_error s) eqn:Hs.
      - apply bind_ok_inv in Hbody as (s2 & c & Hc & Hbody).
        apply has_critical_error_inv in Hc as [Hl2 ->].
        destruct (critical n) eqn:Hcn.
        + apply bind_ok_inv in Hbody as (s3 & m & Hm & Hbody).
          assert (logs s3 = logs s2
                  ∧ m = if has_get_error_status s then message n else None) as [Hl3 ->].
          { destruct (has_get_error_status s).
            - by apply get_error_status_inv in Hm.
            - by injection Hm as <- <-. }
          apply bind_ok_inv in Hbody as (s4 & [] & Hset1 & Hset2).
          injection Hset1 as <-. injection Hset2 as <-. simpl.
          rewrite Hl3, Hl2. apply logged_error_insert; [done|]. tauto.
        + injection Hbody as <-. rewrite Hl2.
          destruct Hpre as [?|(_ & _ & [=])]. done.
      - injection Hbody as <-. destruct Hpre as [?|(_ & [=] & _)]. done. }
    apply (IH (λ x Hx, Hsub x (list_elem_of_further _ _ _ Hx)) s1 self' H name sensor Hin).
    destruct Hcase as [Hlog|(Hin' & H1 & H2)]; [left; by apply Hstep; left|].
    apply elem_of_cons in Hin' as [[= -> ->]|Hin']; [|by right].
    left. apply Hstep. by right.
Qed.

End CheckLogs.

(** X21.  Critical errors reach the logs.  With distinct sensor names and
    sensors that report a stable error state and message, when
    [capture_observation] or [teleop_step(record_data=True)] returns, the logs
    hold, for every sensor that offers [has_critical_error] and reports a
    critical error, [True] under [tactile_sensor_<name>_critical_error] and
    under [tactile_sensor_<name>_error_message] the message of the sensor, or
    [Unknown critical error] when the sensor has no [get_error_status] or its
    status has no message. *)
Theorem critical_errors_are_logged hw cfg critical message self :
  NoDup (tactile_sensors cfg).*1 →
  (∀ history name, critical_error hw history name = critical name) →
  (∀ history name, error_message hw history name = message name) →
  (∀ self' obs,
     capture_observation hw cfg self = (self', Ok obs) →
     ∀ name sensor,
       (name, sensor) ∈ tactile_sensors cfg →
       has_has_critical_error sensor = true → critical name = true →
       logged_error message name sensor (logs self'))
  ∧ (∀ self' r,
       teleop_step hw cfg true self = (self', Ok r) →
       ∀ name sensor,
         (name, sensor) ∈ tactile_sensors cfg →
         has_has_critical_error sensor = true → critical name = true →
         logged_error message name sensor (logs self')).
Proof.
  intros Hnd Hst Hmsg. split.
  - intros self' obs H name sensor Hin Hs Hc. unfold capture_observation in H.
    apply bind_ok_inv in H as (s0 & [] & _ & H).
    apply bind_ok_inv in H as (s1 & fp & _ & H).
    apply bind_ok_inv in H as (s2 & state & _ & H).
    apply bind_ok_inv in H as (s3 & images & _ & H).
    apply bind_ok_inv in H as (s4 & tactile_obs & _ & H).
    apply bind_ok_inv in H as (s5 & [] & Hchk & H).
    injection H as <- _.
    eapply (check_tactile_errors_inv hw critical message Hst Hmsg
              (tactile_sensors cfg) (tactile_sensors cfg) Hnd (λ x Hx, Hx) _ _ Hchk);
      [done|by right].
  - intros self' r H name sensor Hin Hs Hc. unfold teleop_step in H.
    apply bind_ok_inv in H as (s0 & [] & _ & H).
    apply bind_ok_inv in H as (s1 & lp & _ & H).
    apply bind_ok_inv in H as (s2 & fgp & _ & H).
    simpl in H.
    apply bind_ok_inv in H as (s3 & fp & _ & H).
    apply bind_ok_inv in H as (s4 & state & _ & H).
    apply bind_ok_inv in H as (s5 & action & _ & H).
    apply bind_ok_inv in H as (s6 & images & _ & H).
    apply bind_ok_inv in H as (s7 & tactile_obs & _ & H).
    apply bind_ok_inv in H as (s8 & [] & Hchk & H).
    apply bind_ok_inv in H as (s9 & obs & Hpop & H).
    injection Hpop as <- _. injection H as <- _.
    eapply (check_tactile_errors_inv hw critical message Hst Hmsg
              (tactile_sensors cfg) (tactile_sensors cfg) Hnd (λ x Hx, Hx) _ _ Hchk);
      [done|by right].
Qed.

Lemma tactile_error_queries_agree_witness :
  ∃ seen asked b errors,
    has_tactile_critical_errors thumb_fails three_sensors (init []) = (extend (init []) seen, Ok b)
    ∧ get_tactile_error_summary thumb_fails three_sensors (init [])
      = (extend (init []) asked, Ok errors)
    ∧ (b = true ↔ errors ≠ ∅)
    ∧ ∀ name, is_Some (errors !! name) ↔
        ∃ sensor, (name, sensor) ∈ tactile_sensors three_sensors
                  ∧ has_has_critical_error sensor = true
                  ∧ bool_decide (name = "thumb") = true.
Proof.
  apply (tactile_error_queries_agree thumb_fails three_sensors
           (λ name, bool_decide (name = "thumb")) (init [])).
  - intros history name. split; reflexivity.
  - reflexivity.
Defined.

Lemma has_tactile_critical_errors_stops_at_first_witness :
  has_tactile_critical_errors thumb_fails three_sensors connected
  = (extend connected [HasCriticalError "palm"; HasCriticalError "thumb"], Ok true).
Proof.
  apply (has_tactile_critical_errors_stops_at_first thumb_fails three_sensors
           (λ name, bool_decide (name = "thumb")) connected
           [("palm", ex_tac3d)] "thumb" ex_tac3d [("index", ex_tac3d)]).
  - reflexivity.
  - reflexivity.
  - reflexivity.
  - repeat constructor.
  - reflexivity.
  - reflexivity.
Defined.

Lemma critical_errors_are_logged_witness :
  ∃ self' obs,
    capture_observation thumb_fails three_sensors connected = (self', Ok obs)
    ∧ logged_error (λ _, Some "overheated") "thumb" ex_tac3d (logs self').
Proof.
  assert (H : capture_observation thumb_fails three_sensors connected
              = ((capture_observation thumb_fails three_sensors connected).1,
                 Ok (returned (capture_observation thumb_fails three_sensors connected).2)))
    by (apply run_returned; vm_compute; reflexivity).
  eexists _, _. split; [exact H|].
  apply (proj1 (critical_errors_are_logged thumb_fails three_sensors
                  (λ name, bool_decide (name = "thumb")) (λ _, Some "overheated") connected
                  ltac:(apply (bool_decide_unpack _); vm_compute; exact I)
                  (λ _ _, eq_refl) (λ _ _, eq_refl))
           _ _ H "thumb" ex_tac3d).
  - apply list_elem_of_further, list_elem_of_here.
  - reflexivity.
  - reflexivity.
Defined.

(** ** Clean-up handlers *)

Lemma disconnect_if_connected_run hw cfg self :
  ∃ new,
    disconnect_if_connected hw cfg self
    = (mk_robot false (logs self) (calls self ++ new), Ok tt)
    ∧ (is_connected self = true → disconnected new = registered_devices cfg)
    ∧ (is_connected self = false → new = []).
Proof.
  unfold disconnect_if_connected. destruct (is_connected self) eqn:Hc.
  - destruct (disconnect_run hw cfg false self Hc) as (new & -> & Hd & _).
    exists new. by split_and!.
  - exists []. rewrite app_nil_r. split_and!; [|done|done].
    destruct self; simpl in *; by subst.
Qed.

(** X22.  The clean-up of [atexit] and of the destructor cannot fail.  On
    any robot [_cleanup_at_exit] and [__del__] return normally and leave it
    not connected: a connected robot is disconnected, every registered
    device being released once whatever the devices do, and a robot that is
    not connected is left alone, so that running the clean-up again, or after
    [disconnect], calls no device.  The forced release in the handler of
    [__del__] is never reached, whatever it would do. *)
Theorem cleanup_cannot_fail hw cfg self :
  ∃ new,
    _cleanup_at_exit hw cfg self = (mk_robot false (logs self) (calls self ++ new), Ok tt)
    ∧ (∀ last_resort,
         __del__ hw cfg last_resort self
         = (mk_robot false (logs self) (calls self ++ new), Ok tt))
    ∧ (is_connected self = true → disconnected new = registered_devices cfg)
    ∧ (is_connected self = false → new = [])
    ∧ _cleanup_at_exit hw cfg (mk_robot false (logs self) (calls self ++ new))
      = (mk_robot false (logs self) (calls self ++ new), Ok tt).
Proof.
  destruct (disconnect_if_connected_run hw cfg self) as (new & Hrun & H1 & H2).
  exists new. unfold _cleanup_at_exit, __del__, try_except. rewrite Hrun.
  split_and!; done.
Qed.

(** X23.  A signal disconnects the robot and ends the handler by an
    exception.  After [__init__] has installed the handler for [SIGINT] and
    [SIGTERM], the handler leaves the robot not connected (releasing every
    registered device if it was connected), puts back the handler that was
    installed before for the signal received, and only for that one, and
    never returns: it raises [KeyboardInterrupt] for [SIGINT] and exits with
    status 1 for any other signal. *)
Theorem signal_handler_disconnects hw cfg d self signum :
  let saved := (register_signal_handlers d).1 in
  let installed := (register_signal_handlers d).2 in
  let after := _signal_handler hw cfg saved signum (self, installed) in
  is_connected after.1.1 = false
  ∧ (∃ new, calls after.1.1 = calls self ++ new
            ∧ (is_connected self = true → disconnected new = registered_devices cfg)
            ∧ (is_connected self = false → new = []))
  ∧ (signum = SIGINT →
     after.2 = KeyboardInterrupt
     ∧ on_sigint after.1.2 = on_sigint d ∧ on_sigterm after.1.2 = OfRobot)
  ∧ (signum = SIGTERM →
     after.2 = SystemExit 1
     ∧ on_sigterm after.1.2 = on_sigterm d ∧ on_sigint after.1.2 = OfRobot)
  ∧ (signum ≠ SIGINT → after.2 = SystemExit 1).
Proof.
  intros saved installed after. unfold after, _signal_handler.
  destruct (disconnect_if_connected_run hw cfg self) as (new & Hrun & H1 & H2).
  unfold try_except. rewrite Hrun. simpl. split_and!.
  - done.
  - by exists new.
  - by intros ->.
  - by intros ->.
  - intros Hne. destruct (Z.eqb_spec signum SIGINT); done.
Qed.

(** ** The presets *)

Section PresetProperties.

Import Preset.

Variable buses : Buses.

Lemma bus_bind_run {A A'} (m : B A) (k : A → B A') trace :
  (m ≫= k) trace =
    match m trace with
    | (trace', Ok a) => k a trace'
    | (trace', Raise e) => (trace', Raise e)
    end.
Proof. reflexivity. Qed.

Lemma access_bus_run c trace :
  access_bus buses c trace
  = (trace ++ [c], if bus_raises buses trace c then Raise (DeviceError "bus") else Ok tt).
Proof. unfold access_bus. by destruct (bus_raises buses trace c). Qed.

Section Adds.

Variable P : list access → Prop.
Hypothesis P_closed : closed P.

Lemma adds_ret {A} (a : A) : adds P (mret a : B A).
Proof.
  intros trace trace' r [= <- _]. exists []. rewrite app_nil_r. split; [done|apply P_closed].
Qed.


Lemma adds_bind {A A'} (m : B A) (k : A → B A') :
  adds P m → (∀ a, adds P (k a)) → adds P (m ≫= k).
Proof.
  intros Hm Hk trace trace' r. rewrite bus_bind_run.
  destruct (m trace) as [t1 [a|e]] eqn:E.
  - intros H. apply Hm in E as (n1 & -> & H1). apply Hk in H as (n2 & -> & H2).
    exists (n1 ++ n2). rewrite app_assoc. split; [done|by apply P_closed].
  - intros [= <- <-]. by apply Hm in E.
Qed.

Lemma adds_access c : P [c] → adds P (access_bus buses c).
Proof.
  intros Hc trace trace' r. rewrite access_bus_run. intros [= <- _]. by exists [c].
Qed.

Lemma adds_for_arms {A} (l : list A) (body : A → B unit) :
  (∀ x, x ∈ l → adds P (body x)) → adds P (for_arms l body).
Proof.
  induction l as [|x l IH]; intros Hbody; simpl; [apply adds_ret|].
  apply adds_bind; [apply Hbody; by left|intros _].
  apply IH. intros y Hy. apply Hbody. by right.
Qed.

End Adds.

Lemma closed_Forall (Q : access → Prop) : closed (Forall Q).
Proof. split; [constructor|]. intros l1 l2 H1 H2. by apply Forall_app. Qed.

Lemma adds_run {A} (P : list access → Prop) (m : B A) trace :
  adds P m → ∃ new, (m trace).1 = trace ++ new ∧ P new.
Proof. intros H. destruct (m trace) as [trace' r] eqn:E. by apply H in E. Qed.

(** *** SO-100 *)

Lemma for_arms_app {A} (l1 l2 : list A) (body : A → B unit) trace :
  for_arms (l1 ++ l2) body trace
  = match for_arms l1 body trace with
    | (trace', Ok _) => for_arms l2 body trace'
    | (trace', Raise e) => (trace', Raise e)
    end.
Proof.
  revert trace. induction l1 as [|x l1 IH]; intros trace; simpl; [done|].
  rewrite !bus_bind_run. destruct (body x trace) as [t [[]|e]]; [apply IH|done].
Qed.

Lemma bus_bind_unit (m : B unit) trace : (m ≫= λ _, mret tt) trace = m trace.
Proof. rewrite bus_bind_run. by destruct (m trace) as [t [[]|e]]. Qed.

Lemma so100_as_writes cfg trace :
  set_so100_robot_preset buses cfg trace
  = for_arms (so100_writes (follower_arms cfg).*1) (access_bus buses) trace.
Proof.
  unfold set_so100_robot_preset, so100_writes.
  revert trace. induction (follower_arms cfg) as [|[name arm] l IH]; intros trace; [done|].
  rewrite fmap_cons, bind_cons, for_arms_app.
  change (for_arms ((name, arm) :: l) ?body trace)
    with ((_ ← body (name, arm); for_arms l body) trace).
  rewrite bus_bind_run.
  match goal with
  | |- match ?a with _ => _ end = match ?b with _ => _ end => assert (a = b) as ->
  end.
  { simpl. unfold write. rewrite !bus_bind_run.
    repeat (destruct (access_bus buses _ _) as [? [[]|?]]; [|done]; rewrite ?bus_bind_run).
    done. }
  destruct (for_arms _ _ trace) as [t [[]|e]]; [apply IH|done].
Qed.

Lemma write_all_run (l : list access) trace :
  ∃ new, (for_arms l (access_bus buses) trace).1 = trace ++ new
         ∧ new `prefix_of` l
         ∧ ((for_arms l (access_bus buses) trace).2 = Ok tt → new = l).
Proof.
  revert trace. induction l as [|c l IH]; intros trace.
  - exists []. simpl. by rewrite app_nil_r.
  - simpl. rewrite bus_bind_run, access_bus_run.
    destruct (bus_raises buses trace c).
    + exists [c]. simpl. split_and!; [done|by apply prefix_cons, prefix_nil|done].
    + destruct (IH (trace ++ [c])) as (new & H1 & H2 & H3).
      exists (c :: new). rewrite H1, <- app_assoc. split_and!; [done|by apply prefix_cons|].
      intros H. f_equal. by apply H3.
Qed.

Lemma so100_writes_locked (names : list string) i arm :
  so100_writes names !! i
    = Some (BusWrite follower arm "Maximum_Acceleration" (IntValue 254) AllMotors) →
  ∃ j, i = S j
       ∧ so100_writes names !! j = Some (BusWrite follower arm "Lock" (IntValue 0) AllMotors).
Proof.
  unfold so100_writes. revert i. induction names as [|n names IH]; intros i H; [done|].
  rewrite bind_cons in *.
  destruct (decide (i < 7)%nat) as [Hi|Hi].
  - rewrite lookup_app_l in H by (simpl; lia).
    destruct i as [|[|[|[|[|[|[|i]]]]]]]; simpl in H; try discriminate H.
    injection H as ->. exists 4%nat. done.
  - rewrite lookup_app_r in H by (simpl; lia). simpl length in H.
    destruct (IH _ H) as (j & Hj & Hl).
    exists (7 + j)%nat. split; [lia|].
    rewrite lookup_app_r by (simpl; lia). simpl length.
    by replace (7 + j - 7)%nat with j by lia.
Qed.

(** X24.  The SO-100 preset touches the followers only and unlocks before it
    sets the acceleration.  Whatever the buses do, the accesses of
    [set_so100_robot_preset] are writes to all motors of follower arms, an
    initial part of the seven writes per follower in registry order, and all
    of them when the preset returns; a write of [Maximum_Acceleration] to an
    arm always comes right after the write of 0 to [Lock] of that arm. *)
Theorem so100_preset_unlocks_first cfg trace :
  ∃ new,
    (set_so100_robot_preset buses cfg trace).1 = trace ++ new
    ∧ new `prefix_of` so100_writes (follower_arms cfg).*1
    ∧ ((set_so100_robot_preset buses cfg trace).2 = Ok tt →
       new = so100_writes (follower_arms cfg).*1)
    ∧ Forall (λ c, is_write c = true ∧ (target c).1 = follower) new
    ∧ ∀ i arm,
        new !! i
          = Some (BusWrite follower arm "Maximum_Acceleration" (IntValue 254) AllMotors) →
        ∃ j, i = S j
             ∧ new !! j = Some (BusWrite follower arm "Lock" (IntValue 0) AllMotors).
Proof.
  rewrite so100_as_writes.
  destruct (write_all_run (so100_writes (follower_arms cfg).*1) trace)
    as (new & H1 & H2 & H3).
  exists new. split_and!; [done|done|done| |].
  - destruct H2 as [rest H2].
    assert (Hall : Forall (λ c, is_write c = true ∧ (target c).1 = follower)
                     (so100_writes (follower_arms cfg).*1)).
    { unfold so100_writes. apply Forall_bind, Forall_true. intros n.
      by repeat constructor. }
    rewrite H2 in Hall. by apply Forall_app in Hall as [? _].
  - intros i arm Hi. destruct H2 as [rest H2].
    destruct (so100_writes_locked (follower_arms cfg).*1 i arm) as (j & -> & Hj).
    { rewrite H2. by apply lookup_app_l_Some. }
    exists j. split; [done|].
    rewrite H2 in Hj. rewrite lookup_app_l in Hj; [done|].
    apply lookup_lt_Some in Hi. lia.
Qed.

(** *** Koch *)





Lemma gripper_not_kept (arm : MotorsBus) : "gripper" ∉ all_motors_except_gripper arm.
Proof. unfold all_motors_except_gripper. intros H. by apply list_elem_of_filter in H as [? _]. Qed.

Lemma set_operating_modes_adds (P : list access → Prop) r name arm :
  closed P →
  (∀ names, "gripper" ∉ names → names ≠ [] →
            P [BusWrite r name "Operating_Mode" (IntValue 4) (Motors names)]) →
  P [BusWrite r name "Operating_Mode" (IntValue 5) (Motor "gripper")] →
  adds P (set_operating_modes buses r name arm).
Proof.
  intros HP H4 H5. unfold set_operating_modes.
  apply adds_bind; [done| |intros _; by apply adds_access].
  destruct (0 <? length (all_motors_except_gripper arm))%nat eqn:E; [|by apply adds_ret].
  apply adds_access, H4; [apply gripper_not_kept|].
  apply Nat.ltb_lt in E. intros Hnil. rewrite Hnil in E. simpl in E. lia.
Qed.





(** *** Aloha *)

Section AddsAt.

Variable P : list access → list access → Prop.
Hypothesis P_closed : closed_at P.

Lemma adds_at_ret {A} (a : A) : adds_at P (mret a : B A).
Proof.
  intros trace trace' r [= <- _]. exists []. rewrite app_nil_r. split; [done|apply P_closed].
Qed.

Lemma adds_at_bind {A A'} (m : B A) (k : A → B A') :
  adds_at P m → (∀ a, adds_at P (k a)) → adds_at P (m ≫= k).
Proof.
  intros Hm Hk trace trace' r. rewrite bus_bind_run.
  destruct (m trace) as [t1 [a|e]] eqn:E.
  - intros H. apply Hm in E as (n1 & -> & H1). apply Hk in H as (n2 & -> & H2).
    exists (n1 ++ n2). rewrite app_assoc. split; [done|by apply P_closed].
  - intros [= <- <-]. by apply Hm in E.
Qed.

Lemma adds_at_for_arms {A} (l : list A) (body : A → B unit) :
  (∀ x, x ∈ l → adds_at P (body x)) → adds_at P (for_arms l body).
Proof.
  induction l as [|x l IH]; intros Hbody; simpl; [apply adds_at_ret|].
  apply adds_at_bind; [apply Hbody; by left|intros _].
  apply IH. intros y Hy. apply Hbody. by right.
Qed.

Lemma adds_at_lift {A} (Q : list access → Prop) (m : B A) :
  (∀ trace l, Q l → P trace l) → adds Q m → adds_at P m.
Proof.
  intros HQ Hm trace trace' r H. apply Hm in H as (new & -> & H). exists new. auto.
Qed.

Lemma shadow_pair_adds r name joint :
  (∀ trace, P trace [BusRead r name "ID" (Motor joint)]) →
  (∀ trace,
     P trace
       [BusRead r name "ID" (Motor joint);
        BusWrite r name "Secondary_ID"
          (ReadValue (read_value buses trace r name "ID" (Motor joint)))
          (Motor (joint +:+ "_shadow"))]) →
  adds_at P (idx ← read buses r name "ID" (Motor joint);
             write buses r name "Secondary_ID" (ReadValue idx)
               (Motor (joint +:+ "_shadow"))).
Proof.
  intros Hread Hpair trace trace' res. unfold read, write.
  rewrite !bus_bind_run, access_bus_run.
  destruct (bus_raises buses trace _).
  - intros [= <- _]. eexists. split; [reflexivity|]. apply Hread.
  - simpl. rewrite access_bus_run. intros [= <- _]. rewrite <- app_assoc.
    eexists. split; [reflexivity|]. apply Hpair.
Qed.

Lemma set_shadow_adds r name arm :
  (∀ trace joint, P trace [BusRead r name "ID" (Motor joint)]) →
  (∀ trace joint,
     P trace
       [BusRead r name "ID" (Motor joint);
        BusWrite r name "Secondary_ID"
          (ReadValue (read_value buses trace r name "ID" (Motor joint)))
          (Motor (joint +:+ "_shadow"))]) →
  adds_at P (set_shadow_ buses r name arm).
Proof.
  intros Hread Hpair. unfold set_shadow_.
  apply adds_at_bind; [|intros _].
  - destruct (bool_decide _); [|by apply adds_at_ret].
    by apply (shadow_pair_adds r name "shoulder").
  - destruct (bool_decide _); [|by apply adds_at_ret].
    by apply (shadow_pair_adds r name "elbow").
Qed.

Lemma aloha_adds cfg :
  (∀ trace r name joint, P trace [BusRead r name "ID" (Motor joint)]) →
  (∀ trace r name joint,
     P trace
       [BusRead r name "ID" (Motor joint);
        BusWrite r name "Secondary_ID"
          (ReadValue (read_value buses trace r name "ID" (Motor joint)))
          (Motor (joint +:+ "_shadow"))]) →
  (∀ trace l,
     Forall (λ c, (target c).1 = follower ∧ is_write c = true
                  ∧ register c ≠ "Secondary_ID" ∧ bad_mode_write c = false) l →
     P trace l) →
  adds_at P (set_aloha_robot_preset buses cfg).
Proof.
  intros Hread Hpair Hmode. unfold set_aloha_robot_preset.
  apply adds_at_bind; [|intros _].
  { apply adds_at_for_arms. intros [name arm] _. by apply set_shadow_adds. }
  apply adds_at_bind; [|intros _].
  { apply adds_at_for_arms. intros [name arm] _. by apply set_shadow_adds. }
  eapply adds_at_lift; [exact Hmode|].
  apply adds_for_arms; [apply closed_Forall|]. intros [name arm] _.
  apply adds_bind; [apply closed_Forall|apply adds_access; by repeat constructor|intros _].
  apply set_operating_modes_adds; [apply closed_Forall|..].
  - intros names Hg Hne. repeat constructor; try done. simpl.
    rewrite bool_decide_eq_false_2, bool_decide_eq_false_2; done.
  - by repeat constructor.
Qed.

End AddsAt.

Lemma closed_at_shadows_follow : closed_at (shadows_follow buses).
Proof.
  split; [constructor|]. intros trace l1 l2 H1.
  induction H1 as [trace|trace c l Hc _ IH|trace r arm joint c l Hc _ IH]; simpl; intros H2.
  - by rewrite app_nil_r in H2.
  - constructor; [done|]. apply IH. by rewrite <- app_assoc.
  - eapply shadows_pair; [done|]. apply IH. by rewrite <- app_assoc.
Qed.

Lemma closed_at_Forall (Q : access → Prop) : closed_at (λ _, Forall Q).
Proof. split; [constructor|]. intros _ l1 l2 H1 H2. by apply Forall_app. Qed.

Lemma shadows_follow_other trace l :
  Forall (λ c, register c ≠ "Secondary_ID") l → shadows_follow buses trace l.
Proof.
  intros H. revert trace. induction H as [|c l Hc _ IH]; intros trace; by constructor.
Qed.

(** X26.  The Aloha preset ties every shadow motor to its joint.  Whatever
    the buses do: every [Secondary_ID] it writes comes right after its read
    of the [ID] of a joint of the same arm, is the value that this read
    returned, and goes to the shadow motor of that joint; the leader arms are
    accessed for nothing else; and no write of operating mode 4 names the
    gripper or no motor. *)
Theorem aloha_preset_shadows_joints cfg trace :
  ∃ new,
    (set_aloha_robot_preset buses cfg trace).1 = trace ++ new
    ∧ shadows_follow buses trace new
    ∧ Forall (λ c, (target c).1 = leader →
                   register c = "ID" ∨ register c = "Secondary_ID") new
    ∧ Forall (λ c, bad_mode_write c = false) new.
Proof.
  destruct (set_aloha_robot_preset buses cfg trace) as [trace' res] eqn:Hrun.
  assert (H0 : adds_at (λ _ _, True) (set_aloha_robot_preset buses cfg)).
  { by apply aloha_adds. }
  destruct (H0 _ _ _ Hrun) as (new & -> & _).
  exists new. simpl. split_and!; [done| | |].
  - assert (H1 : adds_at (shadows_follow buses) (set_aloha_robot_preset buses cfg)).
    { apply aloha_adds.
      + apply closed_at_shadows_follow.
      + intros. apply shadows_other; [done|constructor].
      + intros. eapply shadows_pair; [done|constructor].
      + intros t l Hl. apply shadows_follow_other.
        eapply Forall_impl; [exact Hl|]. by intros c (_ & _ & Hc & _). }
    destruct (H1 _ _ _ Hrun) as (new' & E & H).
    by apply app_inv_head in E as <-.
  - assert (H1 : adds_at (λ _, Forall (λ c, (target c).1 = leader →
                                            register c = "ID" ∨ register c = "Secondary_ID"))
                   (set_aloha_robot_preset buses cfg)).
    { apply aloha_adds.
      + apply closed_at_Forall.
      + intros. constructor; [by left|constructor].
      + intros. constructor; [by left|]. constructor; [by right|constructor].
      + intros t l Hl. eapply Forall_impl; [exact Hl|].
        intros c (Hc & _) Hc'. rewrite Hc in Hc'. discriminate Hc'. }
    destruct (H1 _ _ _ Hrun) as (new' & E & H).
    by apply app_inv_head in E as <-.
  - assert (H1 : adds_at (λ _, Forall (λ c, bad_mode_write c = false))
                   (set_aloha_robot_preset buses cfg)).
    { apply aloha_adds.
      + apply closed_at_Forall.
      + intros. by repeat constructor.
      + intros. by repeat constructor.
      + intros t l Hl. eapply Forall_impl; [exact Hl|]. by intros c (_ & _ & _ & Hc). }
    destruct (H1 _ _ _ Hrun) as (new' & E & H).
    by apply app_inv_head in E as <-.
Qed.

End PresetProperties.
